(** * newport: the animated effects layer and the contact form

    A shallow embedding of the parts of the portfolio site that carry
    behaviour: the canvas starfield ([StarsBg], component/particle.jsx), the
    DOM metaballs ([MetaballsBg], component/Contact.jsx, second document),
    the particle "D" loader ([DThreeLoader]) and the constellation overlay
    ([ConstellationOverlay], both in app/layout.js), and the contact form
    ([Contact], component/Contact.jsx).

    Modelling conventions.
    - JavaScript numbers are rationals ([Q]).  Where the code computes a
      count (the stars of [buildStars], the blobs and the blur of the
      metaballs' quality, the particles of the loader), the products and
      quotients it floors or rounds are those of doubles: the exact result
      rounded to the nearest double ([Js.fmul], [Js.fdiv]), a decimal
      literal being the double nearest to it ([Js.lit]); there the rounding
      of the double can decide the whole number.  Elsewhere arithmetic is
      exact, and NaN, the infinities, subnormal numbers and overflow are
      outside the model.
    - [Math.random] is an oracle [random : nat -> Q] read through a counter
      that every call advances, so the order of the calls in the source is
      the order of the draws here.
    - [Math.sin], [Math.cos] and [Math.PI] are parameters of the sections
      that need them.
    - The browser is a [Host]: the list of pending animation-frame callbacks
      and the table of attached listeners.  Canvas and DOM painting is left
      out; every assignment to a ref or to a particle is kept. *)

From Stdlib Require Import QArith Qround Qminmax Qabs Qpower ZArith List Bool Arith Lia Lqa.
From Stdlib Require Import SpecFloat.
From Stdlib Require Import Sorted Permutation.
From Stdlib Require Import String Ascii DecimalString.
Import ListNotations.

Set Implicit Arguments.
Local Open Scope Q_scope.

(* ===================================================================== *)
(** * Part I: the program *)
(* ===================================================================== *)

(** ** JavaScript numerics and [Math.random] *)

Module Js.

Definition Math_floor (x : Q) : Q := inject_Z (Qfloor x).

  (** [Math.round] rounds half-way cases towards plus infinity. *)
Definition Math_round (x : Q) : Q := inject_Z (Qfloor (x + (1#2))).

Definition Math_max (a b : Q) : Q := Qmax a b.
Definition Math_min (a b : Q) : Q := Qmin a b.
Definition Math_abs (a : Q) : Q := Qabs a.

  (** The whole number [e] with [2^e <= x < 2^(e+1)], for a positive [x]. *)
Definition ilog2 (x : Q) : Z :=
  let e0 := (Z.log2 (Qnum x) - Z.log2 (Zpos (Qden x)))%Z in
  if Qle_bool (2 ^ e0) x then e0 else (e0 - 1)%Z.

  (** The whole number nearest to [t]; of two equally near, the even one. *)
Definition rne (t : Q) : Z :=
  let f := Qfloor t in
  match Qcompare (t - inject_Z f) (1 # 2) with
  | Lt => f
  | Gt => (f + 1)%Z
  | Eq => if Z.even f then f else (f + 1)%Z
  end.

  (** The double nearest to [x], ties to even: [x] is scaled by a power of
      two into [2^52, 2^53), rounded to a whole number of 53 bits and scaled
      back.  The exponent is not bounded. *)
Definition fl (x : Q) : Q :=
  match Qcompare x 0 with
  | Eq => 0
  | Gt => let s := 2 ^ (ilog2 x - 52) in inject_Z (rne (x / s)) * s
  | Lt => let s := 2 ^ (ilog2 (- x) - 52) in - (inject_Z (rne (- x / s)) * s)
  end.

  (** [a * b] and [a / b] on doubles, and a decimal literal of the source. *)
Definition fmul (a b : Q) : Q := fl (a * b).
Definition fdiv (a b : Q) : Q := fl (a / b).
Definition lit (q : Q) : Q := fl q.

  (** The value of a finite number of the Standard Library's specification
      of IEEE arithmetic. *)
Definition SF2Q (f : spec_float) : Q :=
  match f with
  | S754_finite s m e => (if s then -1 else 1) * inject_Z (Zpos m) * 2 ^ e
  | _ => 0
  end.

  (** [a < b] and [a > b] as the tests of an [if]. *)
Definition ltb (a b : Q) : bool := negb (Qle_bool b a).
Definition gtb (a b : Q) : bool := ltb b a.
Definition leb (a b : Q) : bool := Qle_bool a b.

  (** Truthiness of a number: zero is falsy. *)
Definition truthy (a : Q) : bool := negb (Qeq_bool a 0).

  (** Computations that draw random numbers: the state is the index of the
      next draw. *)
Definition Rand (A : Type) : Type := nat -> A * nat.

Definition ret {A} (a : A) : Rand A := fun n => (a, n).

Definition bind {A B} (m : Rand A) (k : A -> Rand B) : Rand B :=
    fun n => let (a, n') := m n in k a n'.

  (** [for (let i = 0; i < n; i++) out.push(body(i))], with the index
      running upwards from [i]. *)
Fixpoint for_push {A} (n : nat) (i : nat) (body : nat -> Rand A) : Rand (list A) :=
    match n with
    | O => ret []
    | S n' =>
        bind (body i) (fun a =>
        bind (for_push n' (S i) body) (fun rest => ret (a :: rest)))
    end.

  (** A loop over an array whose body draws random numbers. *)
Fixpoint mapM {A B} (f : A -> Rand B) (l : list A) : Rand (list B) :=
    match l with
    | [] => ret []
    | a :: l' =>
        bind (f a) (fun b => bind (mapM f l') (fun bs => ret (b :: bs)))
    end.

Section Random.
Variable random : nat -> Q.

Definition Math_random : Rand Q := fun n => (random n, S n).

    (** The helper [rand(min, max)] of particle.jsx. *)
Definition rand (lo hi : Q) : Rand Q :=
      bind Math_random (fun u => ret (u * (hi - lo) + lo)).
End Random.

End Js.

Declare Scope rand_scope.
Delimit Scope rand_scope with rand.
Notation "x <- m ;; k" := (Js.bind m (fun x => k))
  (at level 61, m at next level, right associativity) : rand_scope.

(** ** The browser side: frame callbacks and listeners *)

Module Host.

Inductive Target := Window | Document | Container.

Inductive EventType :=
  | resize | scroll | mousemove | touchmove | visibilitychange | observed.

Definition Target_eqb (a b : Target) : bool :=
    match a, b with
    | Window, Window | Document, Document | Container, Container => true
    | _, _ => false
    end.

Definition EventType_eqb (a b : EventType) : bool :=
    match a, b with
    | resize, resize | scroll, scroll | mousemove, mousemove
    | touchmove, touchmove | visibilitychange, visibilitychange
    | observed, observed => true
    | _, _ => false
    end.

Section Host.
    (** [Cb] names the functions passed to [requestAnimationFrame], [Hd] the
        functions passed to [addEventListener]. *)
Variables Cb Hd : Type.
Variable Hd_eqb : Hd -> Hd -> bool.

Record Listener := { l_target : Target; l_type : EventType; l_handler : Hd }.

Record t := {
      frames : list (nat * Cb);   (* pending callbacks, oldest first *)
      nextId : nat;               (* the handle the next request returns *)
      listeners : list Listener
    }.

    (** Handles are positive, so that [0] is never a live handle. *)
Definition empty : t := {| frames := []; nextId := 1; listeners := [] |}.

Definition requestAnimationFrame (cb : Cb) (h : t) : nat * t :=
      (nextId h,
       {| frames := frames h ++ [(nextId h, cb)];
          nextId := S (nextId h);
          listeners := listeners h |}).

Definition cancelAnimationFrame (id : nat) (h : t) : t :=
      {| frames := filter (fun e => negb (Nat.eqb (fst e) id)) (frames h);
         nextId := nextId h;
         listeners := listeners h |}.

Definition same_listener (a b : Listener) : bool :=
      Target_eqb (l_target a) (l_target b)
      && EventType_eqb (l_type a) (l_type b)
      && Hd_eqb (l_handler a) (l_handler b).

    (** Adding a listener that is already attached does nothing. *)
Definition addEventListener (tg : Target) (ty : EventType) (hd : Hd) (h : t) : t :=
      let l := {| l_target := tg; l_type := ty; l_handler := hd |} in
      {| frames := frames h;
         nextId := nextId h;
         listeners := if existsb (same_listener l) (listeners h)
                      then listeners h else listeners h ++ [l] |}.

Definition removeEventListener (tg : Target) (ty : EventType) (hd : Hd) (h : t) : t :=
      let l := {| l_target := tg; l_type := ty; l_handler := hd |} in
      {| frames := frames h;
         nextId := nextId h;
         listeners := filter (fun l' => negb (same_listener l l')) (listeners h) |}.

    (** The handlers an event of type [ty] on [tg] reaches, in order of
        registration. *)
Definition handlers_for (tg : Target) (ty : EventType) (h : t) : list Hd :=
      map l_handler
        (filter (fun l => Target_eqb (l_target l) tg && EventType_eqb (l_type l) ty)
                (listeners h)).

    (** At a frame the browser takes the callbacks requested so far; what
        they request while running waits for the next frame. *)
Definition take_frames (h : t) : list (nat * Cb) * t :=
      (frames h, {| frames := []; nextId := nextId h; listeners := listeners h |}).
End Host.

Arguments empty {Cb Hd}.
Arguments requestAnimationFrame {Cb Hd} cb h.
Arguments cancelAnimationFrame {Cb Hd} id h.
Arguments take_frames {Cb Hd} h.
Arguments handlers_for {Cb Hd} tg ty h.

End Host.

(** ** The starfield: component/particle.jsx *)

Module StarsBg.
Import Js.
Local Open Scope rand_scope.

  (** What [getBoundingClientRect] returns. *)
Record DomRect := { left : Q; top : Q; width : Q; height : Q }.
Definition right (r : DomRect) : Q := left r + width r.
Definition bottom (r : DomRect) : Q := top r + height r.

Record Props := {
    colorBase : list Q;          (* the "r,g,b" string, split and parsed *)
    density : Q;
    maxStars : Q;
    nebula : bool;
    clusters : bool;
    connect : bool;
    connectDistance : Q;
    shootingFrequency : Q;
    excludeSelector : option (list string)
  }.

  (** The defaults of the component's parameter list. *)
Definition defaultProps : Props :=
    {| colorBase := [255; 200; 170]; density := 7; maxStars := 280;
       nebula := true; clusters := true; connect := false;
       connectDistance := 120; shootingFrequency := 10;
       excludeSelector := None |}.

Record Layer := {
    l_name : string; l_depth : Q; l_sizeMult : Q; l_glow : Q; l_density : Q
  }.

Definition layers : list Layer :=
    [ {| l_name := "far"; l_depth := 0.28; l_sizeMult := 0.7; l_glow := 0.28; l_density := 0.5 |};
      {| l_name := "mid"; l_depth := 0.55; l_sizeMult := 1.0; l_glow := 0.5; l_density := 0.35 |};
      {| l_name := "near"; l_depth := 0.9; l_sizeMult := 1.8; l_glow := 1.0; l_density := 0.15 |} ].

Record Star := {
    id : string * nat * Q;
    x : Q; y : Q; baseX : Q; baseY : Q;
    r : Q; depth : Q; glow : Q;
    color : list Q;
    brightness : Q; twinkleSpeed : Q; twinklePhase : Q;
    vx : Q; vy : Q;
    isBright : bool
  }.

Record Shot := {
    sx : Q; sy : Q; svx : Q; svy : Q; len : Q; life : Q; age : Q
  }.

Record Dims := { w : Q; h : Q; DPR : Q }.

Record ExcludeRect := { e_left : Q; e_top : Q; e_width : Q; e_height : Q }.

  (** What the component reads from the browser. *)
Record Env := {
    canvasRect : DomRect;
    devicePixelRatio : Q;
    hardwareConcurrency : option Q;
    hidden : bool;                           (* document.hidden *)
    clock : Q;                               (* performance.now() *)
    querySelectorAll : string -> list DomRect
  }.

  (** The [useRef] cells of the component. *)
Record Refs := {
    rafRef : nat;
    dimsRef : Dims;
    starsRef : list Star;
    shotsRef : list Shot;
    excludeRectsRef : list ExcludeRect;
    lastTimeRef : Q;
    lastShotRef : Q;
    hiddenRef : bool;
    lastPointer : option (Q * Q)
  }.

Inductive Cb := CbDraw.
Inductive Hd := HdResize | HdScroll | HdPointerMove | HdVisibility.

Definition Hd_eqb (a b : Hd) : bool :=
    match a, b with
    | HdResize, HdResize | HdScroll, HdScroll
    | HdPointerMove, HdPointerMove | HdVisibility, HdVisibility => true
    | _, _ => false
    end.

Record World := {
    env : Env;
    host : Host.t Cb Hd;
    refs : Refs;
    rng : nat                                (* index of the next random draw *)
  }.

  (** [isLowEndDevice]: [hardwareConcurrency && hardwareConcurrency <= 2]. *)
Definition isLowEndDevice (e : Env) : bool :=
    match hardwareConcurrency e with
    | Some c => truthy c && leb c 2
    | None => false
    end.

  (** The number of turns of [for (let i = 0; i < n; i++)]. *)
Definition turns (n : Q) : nat := Z.to_nat (Qceiling n).

  (** [Array.prototype.map] with the index. *)
Fixpoint mapi {A B} (f : A -> nat -> B) (i : nat) (l : list A) : list B :=
    match l with
    | [] => []
    | a :: l' => f a i :: mapi f (S i) l'
    end.

  (** [stars.sort((a, b) => a.depth - b.depth)]: a stable sort, as
      [Array.prototype.sort] is.  [sort_by_depth] inserts the stars from
      the last to the first, each in front of those of its own depth. *)
Fixpoint insert_by_depth (s : Star) (l : list Star) : list Star :=
    match l with
    | [] => [s]
    | t :: l' => if leb (depth s) (depth t) then s :: t :: l'
                 else t :: insert_by_depth s l'
    end.

Definition sort_by_depth (l : list Star) : list Star :=
    fold_right insert_by_depth [] l.

Section Effect.
Variable random : nat -> Q.
Variable PI : Q.
Variable props : Props.

(** One turn of the inner loop of [buildStars]: the star number [i] of
    [layer] on a [cw] by [ch] canvas. *)
Definition makeStar (cw ch : Q) (layer : Layer) (i : nat) : Rand Star :=
  u <- rand random 0.35 1.9 ;;
  let baseRadius := u * l_sizeMult layer in
  tintShift <- rand random (-18) 18 ;;
  let color :=
    mapi (fun v idx =>
            Math_max 0 (Math_min 255
              (Math_round (v + (if Nat.eqb idx 0 then tintShift else tintShift * 0.35)))))
         0 (colorBase props) in
  brightness <- rand random 0.6 1 ;;
  ts <- rand random 0.45 1.6 ;;
  let twinkleSpeed := ts * (if ltb (l_depth layer) 0.5 then 0.85 else 1.25) in
  tp <- Math_random random ;;
  let twinklePhase := tp * PI * 2 in
  ux <- Math_random random ;;
  uy <- Math_random random ;;
  xy <- (if clusters props then
           c <- Math_random random ;;
           if ltb c 0.12 then
             ucx <- Math_random random ;;
             ucy <- Math_random random ;;
             k <- rand random 0.04 0.14 ;;
             let rCluster := Math_min cw ch * k in
             a1 <- rand random (-1) 1 ;;
             b1 <- rand random (-1) 1 ;;
             a2 <- rand random (-1) 1 ;;
             b2 <- rand random (-1) 1 ;;
             ret (Math_max 0 (Math_min cw (ucx * cw + a1 * rCluster * Math_abs b1)),
                  Math_max 0 (Math_min ch (ucy * ch + a2 * rCluster * Math_abs b2)))
           else ret (ux * cw, uy * ch)
         else ret (ux * cw, uy * ch)) ;;
  uid <- Math_random random ;;
  dvx <- rand random (-0.006) 0.006 ;;
  dvy <- rand random (-0.006) 0.006 ;;
  ub <- Math_random random ;;
  ret {| id := (l_name layer, i, Math_floor (uid * 1000000));
         x := fst xy; y := snd xy; baseX := fst xy; baseY := snd xy;
         r := baseRadius; depth := l_depth layer; glow := l_glow layer;
         color := color;
         brightness := brightness; twinkleSpeed := twinkleSpeed;
         twinklePhase := twinklePhase;
         vx := dvx; vy := dvy;
         isBright := ltb ub 0.02 |}.

(** The number of stars [buildStars] aims at, before the split in layers. *)
Definition starCount (lowEnd : bool) (cw ch : Q) : Q :=
  let area := Math_max 1 (cw * ch) in
  let desired := Math_round (fmul (fdiv area 100000) (density props)) in
  let cap := Math_min (maxStars props) desired in
  if lowEnd then Math_round (fmul cap (lit 0.45)) else cap.

Definition layerCount (count : Q) (layer : Layer) : Q :=
  Math_max 1 (Math_round (fmul count (lit (l_density layer)))).

(** [layers.forEach(...)]: the stars of all layers, in the order pushed. *)
Fixpoint seedLayers (cw ch count : Q) (ls : list Layer) : Rand (list Star) :=
  match ls with
  | [] => ret []
  | layer :: ls' =>
      here <- for_push (turns (layerCount count layer)) 0 (makeStar cw ch layer) ;;
      rest <- seedLayers cw ch count ls' ;;
      ret (here ++ rest)
  end.

(** The star list [buildStars] stores in [starsRef]. *)
Definition buildStarList (lowEnd : bool) (cw ch : Q) : Rand (list Star) :=
  stars <- seedLayers cw ch (starCount lowEnd cw ch) layers ;;
  ret (sort_by_depth stars).

Definition set_refs (wd : World) (rf : Refs) (n : nat) : World :=
  {| env := env wd; host := host wd; refs := rf; rng := n |}.

Definition set_host (wd : World) (hs : Host.t Cb Hd) : World :=
  {| env := env wd; host := hs; refs := refs wd; rng := rng wd |}.

Definition set_env (wd : World) (e : Env) : World :=
  {| env := e; host := host wd; refs := refs wd; rng := rng wd |}.

Definition buildStars (wd : World) : World :=
  let rf := refs wd in
  let d := dimsRef rf in
  let (stars, n) := buildStarList (isLowEndDevice (env wd)) (w d) (h d) (rng wd) in
  set_refs wd
    {| rafRef := rafRef rf; dimsRef := d;
       starsRef := stars; shotsRef := [];
       excludeRectsRef := excludeRectsRef rf;
       lastTimeRef := lastTimeRef rf;
       lastShotRef := clock (env wd);
       hiddenRef := hiddenRef rf; lastPointer := lastPointer rf |}
    n.

(** One excluded element, measured against the canvas; elements with an empty
    intersection are dropped. *)
Definition measureExclude (canvas r : DomRect) : list ExcludeRect :=
  let lft := Math_max 0 (Math_floor (left r - left canvas)) in
  let tp := Math_max 0 (Math_floor (top r - top canvas)) in
  let rgt := Math_min (width canvas) (Math_floor (right r - left canvas)) in
  let btm := Math_min (height canvas) (Math_floor (bottom r - top canvas)) in
  let wd := Math_max 0 (rgt - lft) in
  let ht := Math_max 0 (btm - tp) in
  if gtb wd 0 && gtb ht 0
  then [{| e_left := lft; e_top := tp; e_width := wd; e_height := ht |}]
  else [].

(** [updateExcludeRects] and its copy [updateExcludeRectsWrapper]. *)
Definition updateExcludeRects (wd : World) : World :=
  let rf := refs wd in
  let rects :=
    match excludeSelector props with
    | None => []
    | Some sels =>
        flat_map (fun sel =>
                    flat_map (measureExclude (canvasRect (env wd)))
                             (querySelectorAll (env wd) sel))
                 sels
    end in
  set_refs wd
    {| rafRef := rafRef rf; dimsRef := dimsRef rf;
       starsRef := starsRef rf; shotsRef := shotsRef rf;
       excludeRectsRef := rects;
       lastTimeRef := lastTimeRef rf; lastShotRef := lastShotRef rf;
       hiddenRef := hiddenRef rf; lastPointer := lastPointer rf |}
    (rng wd).

(** [navigator.devicePixelRatio || 1]. *)
Definition or_one (a : Q) : Q := if truthy a then a else 1.

Definition resize (wd : World) : World :=
  let rect := canvasRect (env wd) in
  let rf := refs wd in
  let d := {| w := Math_max 1 (Math_floor (width rect));
              h := Math_max 1 (Math_floor (height rect));
              DPR := Math_max 1 (Math_min 2 (or_one (devicePixelRatio (env wd)))) |} in
  let wd1 :=
    set_refs wd
      {| rafRef := rafRef rf; dimsRef := d;
         starsRef := starsRef rf; shotsRef := shotsRef rf;
         excludeRectsRef := excludeRectsRef rf;
         lastTimeRef := lastTimeRef rf; lastShotRef := lastShotRef rf;
         hiddenRef := hiddenRef rf; lastPointer := lastPointer rf |}
      (rng wd) in
  updateExcludeRects (buildStars wd1).

Variables cos sin : Q -> Q.

Definition with_rafRef (v : nat) (rf : Refs) : Refs :=
  {| rafRef := v; dimsRef := dimsRef rf; starsRef := starsRef rf;
     shotsRef := shotsRef rf; excludeRectsRef := excludeRectsRef rf;
     lastTimeRef := lastTimeRef rf; lastShotRef := lastShotRef rf;
     hiddenRef := hiddenRef rf; lastPointer := lastPointer rf |}.

Definition with_particles (st : list Star) (sh : list Shot) (rf : Refs) : Refs :=
  {| rafRef := rafRef rf; dimsRef := dimsRef rf; starsRef := st;
     shotsRef := sh; excludeRectsRef := excludeRectsRef rf;
     lastTimeRef := lastTimeRef rf; lastShotRef := lastShotRef rf;
     hiddenRef := hiddenRef rf; lastPointer := lastPointer rf |}.

Definition with_lastTime (v : Q) (rf : Refs) : Refs :=
  {| rafRef := rafRef rf; dimsRef := dimsRef rf; starsRef := starsRef rf;
     shotsRef := shotsRef rf; excludeRectsRef := excludeRectsRef rf;
     lastTimeRef := v; lastShotRef := lastShotRef rf;
     hiddenRef := hiddenRef rf; lastPointer := lastPointer rf |}.

Definition with_lastShot (v : Q) (rf : Refs) : Refs :=
  {| rafRef := rafRef rf; dimsRef := dimsRef rf; starsRef := starsRef rf;
     shotsRef := shotsRef rf; excludeRectsRef := excludeRectsRef rf;
     lastTimeRef := lastTimeRef rf; lastShotRef := v;
     hiddenRef := hiddenRef rf; lastPointer := lastPointer rf |}.

Definition with_hidden (v : bool) (rf : Refs) : Refs :=
  {| rafRef := rafRef rf; dimsRef := dimsRef rf; starsRef := starsRef rf;
     shotsRef := shotsRef rf; excludeRectsRef := excludeRectsRef rf;
     lastTimeRef := lastTimeRef rf; lastShotRef := lastShotRef rf;
     hiddenRef := v; lastPointer := lastPointer rf |}.

Definition with_pointer (v : option (Q * Q)) (rf : Refs) : Refs :=
  {| rafRef := rafRef rf; dimsRef := dimsRef rf; starsRef := starsRef rf;
     shotsRef := shotsRef rf; excludeRectsRef := excludeRectsRef rf;
     lastTimeRef := lastTimeRef rf; lastShotRef := lastShotRef rf;
     hiddenRef := hiddenRef rf; lastPointer := v |}.

(** [spawnShot]: a shooting star entering from the left or the right. *)
Definition spawnShot (wd : World) : World :=
  let d := dimsRef (refs wd) in
  let m :=
    u <- Math_random random ;;
    let fromLeft := ltb u 0.5 in
    let startX := if fromLeft then -60 else w d + 60 in
    uy <- Math_random random ;;
    let startY := uy * h d * 0.55 in
    a <- (if fromLeft then rand random 0.2 0.35 else rand random 0.65 0.8) ;;
    let angle := a * PI in
    sp <- rand random 700 1300 ;;
    let speed := sp / 1000 in
    ln <- rand random 180 420 ;;
    lf <- rand random 420 1000 ;;
    ret {| sx := startX; sy := startY;
           svx := cos angle * speed; svy := sin angle * speed;
           len := ln; life := lf; age := 0 |} in
  let (shot, n) := m (rng wd) in
  set_refs wd
    (with_particles (starsRef (refs wd)) (shotsRef (refs wd) ++ [shot]) (refs wd))
    n.

(** [maybeSpawnShot]: the only caller of [spawnShot]. *)
Definition maybeSpawnShot (now : Q) (wd : World) : World :=
  let dt := Math_min 1000 (now - lastTimeRef (refs wd)) in
  if gtb (shootingFrequency props) 0 then
    let (u, n) := Math_random random (rng wd) in
    let wd1 := set_refs wd (refs wd) n in
    if ltb u (dt / (shootingFrequency props * 1000)) then spawnShot wd1 else wd1
  else wd.

(** The wrap of one coordinate in [draw]: past 20 px outside either edge the
    value, and with it the base value, becomes the far edge's coordinate. *)
Definition wrap (size : Q) (pos base : Q) : Q * Q :=
  let '(p1, b1) := if ltb pos (-20) then (size + 20, size + 20) else (pos, base) in
  if gtb p1 (size + 20) then (-20, -20) else (p1, b1).

(** The body of the star loop of [draw], for one star; the random draws are
    those of the spark of a bright star. *)
Definition drawStar (cw ch dt : Q) (s : Star) : Rand Star :=
  let (x', bx') := wrap cw (x s + vx s * dt) (baseX s) in
  let (y', by') := wrap ch (y s + vy s * dt) (baseY s) in
  let s' :=
    {| id := id s; x := x'; y := y'; baseX := bx'; baseY := by';
       r := r s; depth := depth s; glow := glow s; color := color s;
       brightness := brightness s; twinkleSpeed := twinkleSpeed s;
       twinklePhase := twinklePhase s + (twinkleSpeed s * dt) / 1000;
       vx := vx s; vy := vy s; isBright := isBright s |} in
  if isBright s then
    u <- Math_random random ;;
    if ltb u (0.001 * (dt / 16)) then
      _ <- rand random (-2) 2 ;;
      _ <- rand random (-2) 2 ;;
      ret s'
    else ret s'
  else ret s'.

(** The body of the shooting-star loop of [draw]: a shot older than its life
    is spliced out, the others advance. *)
Definition drawShot (dt : Q) (p : Shot) : list Shot :=
  let a := age p + dt in
  if gtb a (life p) then []
  else [{| sx := sx p + svx p * dt; sy := sy p + svy p * dt;
           svx := svx p; svy := svy p; len := len p; life := life p; age := a |}].

Definition request_draw (wd : World) : World :=
  let (handle, hs) := Host.requestAnimationFrame CbDraw (host wd) in
  set_refs (set_host wd hs) (with_rafRef handle (refs wd)) (rng wd).

(** [draw(now)], the frame callback. *)
Definition draw (now : Q) (wd : World) : World :=
  let dt := Math_min 40 (now - lastTimeRef (refs wd)) in
  let wd1 := set_refs wd (with_lastTime now (refs wd)) (rng wd) in
  if hiddenRef (refs wd1) then request_draw wd1
  else
    let d := dimsRef (refs wd1) in
    let (stars, n) := mapM (drawStar (w d) (h d) dt) (starsRef (refs wd1)) (rng wd1) in
    let shots := flat_map (drawShot dt) (shotsRef (refs wd1)) in
    request_draw (set_refs wd1 (with_particles stars shots (refs wd1)) n).

Definition onPointerMove (clientX clientY : Q) (wd : World) : World :=
  let rect := canvasRect (env wd) in
  set_refs wd
    (with_pointer (Some (clientX - left rect, clientY - top rect)) (refs wd))
    (rng wd).

Definition onVisibility (wd : World) : World :=
  set_refs wd (with_hidden (hidden (env wd)) (refs wd)) (rng wd).

(** What the browser can do to a mounted page.  [LayoutChange] is a change
    of the layout that comes with no event the component listens for:
    content loads, a font arrives, a script moves an element. *)
Inductive Event :=
| Frame (now : Q)
| WindowResize (rect : DomRect) (dpr : Q)
| WindowScroll (query : string -> list DomRect)
| LayoutChange (rect : DomRect) (query : string -> list DomRect)
| MouseMove (clientX clientY : Q)
| TouchMove (clientX clientY : Q)
| VisibilityChange (hid : bool).

(** The change of the page itself that an event stands for. *)
Definition affect (ev : Event) (e : Env) : Env :=
  match ev with
  | Frame now =>
      {| canvasRect := canvasRect e; devicePixelRatio := devicePixelRatio e;
         hardwareConcurrency := hardwareConcurrency e; hidden := hidden e;
         clock := now; querySelectorAll := querySelectorAll e |}
  | WindowResize rect dpr =>
      {| canvasRect := rect; devicePixelRatio := dpr;
         hardwareConcurrency := hardwareConcurrency e; hidden := hidden e;
         clock := clock e; querySelectorAll := querySelectorAll e |}
  | WindowScroll q =>
      {| canvasRect := canvasRect e; devicePixelRatio := devicePixelRatio e;
         hardwareConcurrency := hardwareConcurrency e; hidden := hidden e;
         clock := clock e; querySelectorAll := q |}
  | LayoutChange rect q =>
      {| canvasRect := rect; devicePixelRatio := devicePixelRatio e;
         hardwareConcurrency := hardwareConcurrency e; hidden := hidden e;
         clock := clock e; querySelectorAll := q |}
  | VisibilityChange hid =>
      {| canvasRect := canvasRect e; devicePixelRatio := devicePixelRatio e;
         hardwareConcurrency := hardwareConcurrency e; hidden := hid;
         clock := clock e; querySelectorAll := querySelectorAll e |}
  | MouseMove _ _ | TouchMove _ _ => e
  end.

(** Calling an attached listener with the event. *)
Definition call (ev : Event) (hd : Hd) (wd : World) : World :=
  match hd with
  | HdResize => resize wd
  | HdScroll => updateExcludeRects wd
  | HdVisibility => onVisibility wd
  | HdPointerMove =>
      match ev with
      | MouseMove cx cy | TouchMove cx cy => onPointerMove cx cy wd
      | _ => wd
      end
  end.

Definition dispatch (tg : Host.Target) (ty : Host.EventType) (ev : Event) (wd : World) : World :=
  fold_left (fun acc hd => call ev hd acc) (Host.handlers_for tg ty (host wd)) wd.

(** A frame: every callback requested before it runs once, with the frame's
    time stamp. *)
Definition run_frame (now : Q) (wd : World) : World :=
  let (batch, hs) := Host.take_frames (host wd) in
  fold_left (fun acc (e : nat * Cb) => let (_, cb) := e in
                                       match cb with CbDraw => draw now acc end)
            batch (set_host wd hs).

Definition step (wd : World) (ev : Event) : World :=
  let wd1 := set_env wd (affect ev (env wd)) in
  match ev with
  | Frame now => run_frame now wd1
  | WindowResize _ _ => dispatch Host.Window Host.resize ev wd1
  | WindowScroll _ => dispatch Host.Window Host.scroll ev wd1
  | LayoutChange _ _ => wd1
  | MouseMove _ _ => dispatch Host.Window Host.mousemove ev wd1
  | TouchMove _ _ => dispatch Host.Window Host.touchmove ev wd1
  | VisibilityChange _ => dispatch Host.Document Host.visibilitychange ev wd1
  end.

Definition run (wd : World) (evs : list Event) : World := fold_left step evs wd.

Definition listen (tg : Host.Target) (ty : Host.EventType) (hd : Hd) (wd : World) : World :=
  set_host wd (Host.addEventListener Hd_eqb tg ty hd (host wd)).

Definition unlisten (tg : Host.Target) (ty : Host.EventType) (hd : Hd) (wd : World) : World :=
  set_host wd (Host.removeEventListener Hd_eqb tg ty hd (host wd)).

(** The refs as [useRef] creates them at the first render. *)
Definition initialRefs (e : Env) : Refs :=
  {| rafRef := 0; dimsRef := {| w := 0; h := 0; DPR := 1 |};
     starsRef := []; shotsRef := []; excludeRectsRef := [];
     lastTimeRef := clock e; lastShotRef := 0;
     hiddenRef := false; lastPointer := None |}.

(** The body of the effect, run at mount, up to the [return] of the cleanup. *)
Definition mount (e : Env) (seed : nat) : World :=
  let wd0 := {| env := e; host := Host.empty; refs := initialRefs e; rng := seed |} in
  let wd1 := resize wd0 in
  let wd2 := set_refs wd1 (with_lastTime (clock e) (refs wd1)) (rng wd1) in
  let wd3 := request_draw wd2 in
  let wd4 :=
    listen Host.Document Host.visibilitychange HdVisibility
      (listen Host.Window Host.touchmove HdPointerMove
        (listen Host.Window Host.mousemove HdPointerMove
          (listen Host.Window Host.scroll HdScroll
            (listen Host.Window Host.resize HdResize wd3)))) in
  if gtb (shootingFrequency props) 0 then
    let (u, n) := Math_random random (rng wd4) in
    set_refs wd4
      (with_lastShot (clock e - u * shootingFrequency props * 1000) (refs wd4)) n
  else wd4.

(** The cleanup the effect returns. *)
Definition teardown (wd : World) : World :=
  let wd1 := set_host wd (Host.cancelAnimationFrame (rafRef (refs wd)) (host wd)) in
  unlisten Host.Document Host.visibilitychange HdVisibility
    (unlisten Host.Window Host.touchmove HdPointerMove
      (unlisten Host.Window Host.mousemove HdPointerMove
        (unlisten Host.Window Host.scroll HdScroll
          (unlisten Host.Window Host.resize HdResize wd1)))).

End Effect.

(** A star inside the canvas, edges included. *)
Definition inBox (cw ch : Q) (s : Star) : Prop :=
  (0 <= x s /\ x s <= cw) /\ (0 <= y s /\ y s <= ch).

(** A star at most [m] px outside the canvas. *)
Definition withinMargin (m cw ch : Q) (s : Star) : Prop :=
  (- m <= x s /\ x s <= cw + m) /\ (- m <= y s /\ y s <= ch + m).

(** The size is at least 1 by 1 and every star is at most 20 px outside. *)
Definition starsNear (rf : Refs) : Prop :=
  (1 <= w (dimsRef rf) /\ 1 <= h (dimsRef rf))
  /\ Forall (withinMargin 20 (w (dimsRef rf)) (h (dimsRef rf))) (starsRef rf).

(** The listeners of a mounted starfield. *)
Definition attached : list (Host.Listener Hd) :=
  [ Host.Build_Listener Host.Window Host.resize HdResize;
    Host.Build_Listener Host.Window Host.scroll HdScroll;
    Host.Build_Listener Host.Window Host.mousemove HdPointerMove;
    Host.Build_Listener Host.Window Host.touchmove HdPointerMove;
    Host.Build_Listener Host.Document Host.visibilitychange HdVisibility ].

(** A mounted starfield: its listeners are attached and the one pending
    frame callback is the [draw] whose handle [rafRef] holds. *)
Definition live (wd : World) : Prop :=
  Host.frames (host wd) = [(rafRef (refs wd), CbDraw)]
  /\ Host.listeners (host wd) = attached.

(** Nothing of the effect is left in the browser. *)
Definition detached (wd : World) : Prop :=
  Host.frames (host wd) = [] /\ Host.listeners (host wd) = [].

(** The wrap the specification asks for: an exact wrap modulo the period
    [size + 40] of the interval [-20, size + 20), which keeps the distance by
    which a position has passed an edge. *)
Definition spec_modulo_wrap (size pos : Q) : Q :=
  let period := size + 40 in
  pos - period * Math_floor ((pos + 20) / period).

End StarsBg.

(** ** The metaballs: component/Contact.jsx, second document *)

Module MetaballsBg.
Import Js.
Local Open Scope rand_scope.

Record Props := {
  count : Q;
  color : list Q;
  minR : Q;
  maxR : Q;
  speed : Q;
  blur : Q;
  z : Q;
  fixed : bool;
  autoReduce : bool;
  debug : bool
}.

(** The defaults of the component's parameter list. *)
Definition defaultProps : Props :=
  {| count := 6; color := [255; 140; 90]; minR := 64; maxR := 180;
     speed := 0.14; blur := 28; z := -30; fixed := true;
     autoReduce := false; debug := false |}.

(** The props app/page.js passes. *)
Definition pageProps : Props :=
  {| count := 6; color := [255; 140; 90]; minR := 60; maxR := 180;
     speed := 30; blur := 16; z := -1; fixed := false;
     autoReduce := true; debug := false |}.

Record Blob := {
  r : Q; x : Q; y : Q; vx : Q; vy : Q;
  phase : Q; phaseSpeed : Q; drift : Q; driftFactor : Q
}.

Record Env := {
  hasWindow : bool;                     (* typeof window !== 'undefined' *)
  deviceMemory : option Q;
  hardwareConcurrency : option Q;
  prefersReducedMotion : option bool;   (* None: no window.matchMedia *)
  boxWidth : Q;                         (* the container's bounding box *)
  boxHeight : Q;
  visibilityHidden : bool;              (* document.visibilityState === 'hidden' *)
  hasResizeObserver : bool
}.

Record Quality := { countToUse : Q; blurToUse : Q; speedToUse : Q }.

(** [v || 0] for a property that may be missing. *)
Definition or_zero (v : option Q) : Q :=
  match v with Some a => if truthy a then a else 0 | None => 0 end.

(** [window.matchMedia && window.matchMedia(...).matches]. *)
Definition prefersReduced (e : Env) : bool :=
  match prefersReducedMotion e with Some b => b | None => false end.

(** [dm && dm <= 2]. *)
Definition lowMemory (e : Env) : bool :=
  let dm := or_zero (deviceMemory e) in truthy dm && leb dm 2.

(** [hc && hc <= 2]. *)
Definition fewCores (e : Env) : bool :=
  let hc := or_zero (hardwareConcurrency e) in truthy hc && leb hc 2.

(** The [useMemo] that lowers the quality on weak devices.  The products
    that are floored are products of doubles; the speed is not rounded. *)
Definition quality (p : Props) (e : Env) : Quality :=
  let plain := {| countToUse := count p; blurToUse := blur p; speedToUse := speed p |} in
  if autoReduce p && hasWindow e then
    if prefersReduced e then
      {| countToUse := Math_max 2 (Math_floor (fmul (count p) (lit 0.35)));
         blurToUse := Math_max 6 (Math_floor (fmul (blur p) (lit 0.45)));
         speedToUse := Math_max 0.25 (speed p * 0.5) |}
    else if lowMemory e || fewCores e then
      {| countToUse := Math_max 2 (Math_floor (fmul (count p) (lit 0.5)));
         blurToUse := Math_max 8 (Math_floor (fmul (blur p) (lit 0.6)));
         speedToUse := Math_max 0.4 (speed p * 0.6) |}
    else plain
  else plain.

(** The length of [Array.from({ length: n })]: [n] truncated, and 0 when
    negative. *)
Definition array_length (n : Q) : nat := Z.to_nat (Qfloor n).

(** [Array(n)] for a number [n]: an array of [n] empty slots when [n] is a
    whole number from 0 to 2^32 - 1, and a RangeError ([None]) for any
    other number. *)
Definition Array_new (n : Q) : option nat :=
  if Qeq_bool n (inject_Z (Qfloor n)) && leb 0 n && ltb n 4294967296
  then Some (Z.to_nat (Qfloor n)) else None.

(** The body of the component at its first render, as far as it can throw:
    [blobEls.current], empty so far, is replaced by [Array(countToUse)]
    unless [countToUse] is 0.  The result is the number of slots for blob
    elements; [None] is a render that throws, after which nothing is
    mounted and no effect runs. *)
Definition render (p : Props) (e : Env) : option nat :=
  let q := quality p e in
  if Qeq_bool (countToUse q) 0 then Some O else Array_new (countToUse q).

Record Size := { w : Q; h : Q }.

Inductive ObserverKind := RealObserver | WindowFallback.

Record Refs := {
  rafRef : nat;
  blobsRef : list Blob;
  sizeRef : Size;
  resizeObserverRef : option ObserverKind;
  lastTimeRef : option Q
}.

Inductive Cb := CbAnimate.
Inductive Hd := HdSeed | HdVisibility.

Definition Hd_eqb (a b : Hd) : bool :=
  match a, b with
  | HdSeed, HdSeed | HdVisibility, HdVisibility => true
  | _, _ => false
  end.

Record World := {
  env : Env;
  host : Host.t Cb Hd;
  refs : Refs;
  rng : nat
}.

Section Effect.
Variable random : nat -> Q.
Variable PI : Q.
Variables cos sin : Q -> Q.
Variable props : Props.

(** The callback of [Array.from(...).map(...)] in [seed]: one blob in a
    [bw] by [bh] box. *)
Definition makeBlob (q : Quality) (bw bh : Q) (_ : nat) : Rand Blob :=
  ur <- Math_random random ;;
  let rad := Math_floor (ur * (maxR props - minR props) + minR props) in
  let baseV := 0.08 in
  ux <- Math_random random ;;
  uy <- Math_random random ;;
  uvx <- Math_random random ;;
  uvy <- Math_random random ;;
  up <- Math_random random ;;
  ups <- Math_random random ;;
  ud <- Math_random random ;;
  udf <- Math_random random ;;
  ret {| r := rad;
         x := ux * bw;
         y := uy * bh;
         vx := (uvx - 0.5) * baseV * speedToUse q;
         vy := (uvy - 0.5) * baseV * speedToUse q * 0.6;
         phase := up * PI * 2;
         phaseSpeed := 0.0025 + ups * 0.0018;
         drift := 0.0006 + ud * 0.0024;
         driftFactor := 0.002 + udf * 0.004 |}.

Definition readBox (e : Env) : Size :=
  {| w := Math_max 1 (boxWidth e); h := Math_max 1 (boxHeight e) |}.

(** [seed]: measure the container and replace every blob. *)
Definition seed (wd : World) : World :=
  let q := quality props (env wd) in
  let sz := readBox (env wd) in
  let (blobs, n) :=
    for_push (array_length (countToUse q)) 0 (makeBlob q (w sz) (h sz)) (rng wd) in
  {| env := env wd; host := host wd;
     refs := {| rafRef := rafRef (refs wd); blobsRef := blobs; sizeRef := sz;
                resizeObserverRef := resizeObserverRef (refs wd);
                lastTimeRef := lastTimeRef (refs wd) |};
     rng := n |}.

(** The wrap of one coordinate in [animate], with the blob's radius as the
    margin. *)
Definition wrap (size rad pos : Q) : Q :=
  let p1 := if ltb pos (- rad) then size + rad else pos in
  if gtb p1 (size + rad) then - rad else p1.

(** The body of the loop of [animate], for one blob. *)
Definition moveBlob (bw bh dt : Q) (b : Blob) : Blob :=
  let ph := phase b + phaseSpeed b * (dt / 16.6667) in
  let x1 := x b + (vx b * (dt / 16.6667) + sin ph * drift b * bw * driftFactor b) in
  let y1 := y b + (vy b * (dt / 16.6667) + cos ph * drift b * bh * driftFactor b) in
  {| r := r b; x := wrap bw (r b) x1; y := wrap bh (r b) y1;
     vx := vx b; vy := vy b; phase := ph; phaseSpeed := phaseSpeed b;
     drift := drift b; driftFactor := driftFactor b |}.

Definition set_refs (wd : World) (rf : Refs) : World :=
  {| env := env wd; host := host wd; refs := rf; rng := rng wd |}.

Definition set_host (wd : World) (hs : Host.t Cb Hd) : World :=
  {| env := env wd; host := hs; refs := refs wd; rng := rng wd |}.

Definition request_animate (wd : World) : World :=
  let (handle, hs) := Host.requestAnimationFrame CbAnimate (host wd) in
  let rf := refs wd in
  set_refs (set_host wd hs)
    {| rafRef := handle; blobsRef := blobsRef rf; sizeRef := sizeRef rf;
       resizeObserverRef := resizeObserverRef rf; lastTimeRef := lastTimeRef rf |}.

Definition with_lastTime (v : option Q) (rf : Refs) : Refs :=
  {| rafRef := rafRef rf; blobsRef := blobsRef rf; sizeRef := sizeRef rf;
     resizeObserverRef := resizeObserverRef rf; lastTimeRef := v |}.

Definition with_blobs (bs : list Blob) (rf : Refs) : Refs :=
  {| rafRef := rafRef rf; blobsRef := bs; sizeRef := sizeRef rf;
     resizeObserverRef := resizeObserverRef rf; lastTimeRef := lastTimeRef rf |}.

Definition with_observer (o : option ObserverKind) (rf : Refs) : Refs :=
  {| rafRef := rafRef rf; blobsRef := blobsRef rf; sizeRef := sizeRef rf;
     resizeObserverRef := o; lastTimeRef := lastTimeRef rf |}.

(** [animate(ts)], the frame callback. *)
Definition animate (ts : Q) (wd : World) : World :=
  if visibilityHidden (env wd) then
    let wd1 := request_animate wd in
    set_refs wd1 (with_lastTime (Some ts) (refs wd1))
  else
    let last := match lastTimeRef (refs wd) with Some t => t | None => ts end in
    let dt := Math_max 1 (ts - last) in
    let sz := sizeRef (refs wd) in
    let blobs := map (moveBlob (w sz) (h sz) dt) (blobsRef (refs wd)) in
    request_animate (set_refs wd (with_blobs blobs (with_lastTime (Some ts) (refs wd)))).

(** [handleVisibility]: a fresh time base when the tab shows again. *)
Definition handleVisibility (wd : World) : World :=
  if visibilityHidden (env wd) then wd
  else set_refs wd (with_lastTime None (refs wd)).

(** What the browser can do to mounted metaballs.  A change of the
    container's box and the delivery of the [ResizeObserver]'s callback are
    two events: the browser delivers the observations of a frame after the
    frame callbacks have run, so a frame can come between the two. *)
Inductive Event :=
| Frame (ts : Q)
| BoxResize (bw bh : Q)        (* the container changes size *)
| Observed                     (* the resize observations are delivered *)
| WindowResize (bw bh : Q)     (* the window's resize event, the container's box with it *)
| VisibilityChange (hid : bool).

Definition affect (ev : Event) (e : Env) : Env :=
  match ev with
  | Frame _ | Observed => e
  | BoxResize bw bh | WindowResize bw bh =>
      {| hasWindow := hasWindow e; deviceMemory := deviceMemory e;
         hardwareConcurrency := hardwareConcurrency e;
         prefersReducedMotion := prefersReducedMotion e;
         boxWidth := bw; boxHeight := bh;
         visibilityHidden := visibilityHidden e;
         hasResizeObserver := hasResizeObserver e |}
  | VisibilityChange hid =>
      {| hasWindow := hasWindow e; deviceMemory := deviceMemory e;
         hardwareConcurrency := hardwareConcurrency e;
         prefersReducedMotion := prefersReducedMotion e;
         boxWidth := boxWidth e; boxHeight := boxHeight e;
         visibilityHidden := hid;
         hasResizeObserver := hasResizeObserver e |}
  end.

Definition call (hd : Hd) (wd : World) : World :=
  match hd with
  | HdSeed => seed wd
  | HdVisibility => handleVisibility wd
  end.

Definition dispatch (tg : Host.Target) (ty : Host.EventType) (wd : World) : World :=
  fold_left (fun acc hd => call hd acc) (Host.handlers_for tg ty (host wd)) wd.

Definition run_frame (ts : Q) (wd : World) : World :=
  let (batch, hs) := Host.take_frames (host wd) in
  fold_left (fun acc (e : nat * Cb) => let (_, cb) := e in
                                       match cb with CbAnimate => animate ts acc end)
            batch (set_host wd hs).

Definition step (wd : World) (ev : Event) : World :=
  let wd1 := {| env := affect ev (env wd); host := host wd;
                refs := refs wd; rng := rng wd |} in
  match ev with
  | Frame ts => run_frame ts wd1
  | BoxResize _ _ => wd1
  | Observed => dispatch Host.Container Host.observed wd1
  | WindowResize _ _ => dispatch Host.Window Host.resize wd1
  | VisibilityChange _ => dispatch Host.Document Host.visibilitychange wd1
  end.

Definition run (wd : World) (evs : list Event) : World := fold_left step evs wd.

Definition initialRefs : Refs :=
  {| rafRef := 0; blobsRef := []; sizeRef := {| w := 0; h := 0 |};
     resizeObserverRef := None; lastTimeRef := None |}.

(** The body of the effect, run at mount.  A [ResizeObserver] on the
    container is a listener for [observed] on [Container]; without the class
    the effect listens for [resize] on the window. *)
Definition mount (e : Env) (seed0 : nat) : World :=
  let wd0 := {| env := e; host := Host.empty; refs := initialRefs; rng := seed0 |} in
  let wd1 := request_animate (seed wd0) in
  let wd2 :=
    if hasResizeObserver e then
      set_refs
        (set_host wd1 (Host.addEventListener Hd_eqb Host.Container Host.observed HdSeed (host wd1)))
        (with_observer (Some RealObserver) (refs wd1))
    else
      set_refs
        (set_host wd1 (Host.addEventListener Hd_eqb Host.Window Host.resize HdSeed (host wd1)))
        (with_observer (Some WindowFallback) (refs wd1)) in
  set_host wd2
    (Host.addEventListener Hd_eqb Host.Document Host.visibilitychange HdVisibility (host wd2)).

(** The component from its first render on: the render, and the effect
    once the elements are in the page.  [None]: the render has thrown. *)
Definition start (e : Env) (seed0 : nat) : option World :=
  match render props e with
  | Some _ => Some (mount e seed0)
  | None => None
  end.

(** [resizeObserverRef.current.disconnect()]. *)
Definition disconnect (k : ObserverKind) (hs : Host.t Cb Hd) : Host.t Cb Hd :=
  match k with
  | RealObserver => Host.removeEventListener Hd_eqb Host.Container Host.observed HdSeed hs
  | WindowFallback => Host.removeEventListener Hd_eqb Host.Window Host.resize HdSeed hs
  end.

(** The cleanup the effect returns. *)
Definition teardown (wd : World) : World :=
  let wd1 :=
    if Nat.eqb (rafRef (refs wd)) 0 then wd
    else set_host wd (Host.cancelAnimationFrame (rafRef (refs wd)) (host wd)) in
  let wd2 :=
    match resizeObserverRef (refs wd1) with
    | Some k => set_refs (set_host wd1 (disconnect k (host wd1)))
                         (with_observer None (refs wd1))
    | None => wd1
    end in
  set_host wd2
    (Host.removeEventListener Hd_eqb Host.Document Host.visibilitychange HdVisibility (host wd2)).

End Effect.

(** A blob at most its own radius outside the container. *)
Definition withinRadius (bw bh : Q) (b : Blob) : Prop :=
  (- r b <= x b /\ x b <= bw + r b) /\ (- r b <= y b /\ y b <= bh + r b).

(** The size is at least 1 by 1, and every blob has a radius that is not
    negative and is at most that radius outside. *)
Definition blobsNear (rf : Refs) : Prop :=
  (1 <= w (sizeRef rf) /\ 1 <= h (sizeRef rf))
  /\ Forall (fun b => 0 <= r b /\ withinRadius (w (sizeRef rf)) (h (sizeRef rf)) b)
            (blobsRef rf).

(** The listeners of mounted metaballs, by the kind of resize observer. *)
Definition attachedWith (k : ObserverKind) : list (Host.Listener Hd) :=
  [ match k with
    | RealObserver => Host.Build_Listener Host.Container Host.observed HdSeed
    | WindowFallback => Host.Build_Listener Host.Window Host.resize HdSeed
    end;
    Host.Build_Listener Host.Document Host.visibilitychange HdVisibility ].

(** Mounted metaballs: the listeners are attached and the one pending frame
    callback is the [animate] whose handle, not 0, [rafRef] holds. *)
Definition live (wd : World) : Prop :=
  Host.frames (host wd) = [(rafRef (refs wd), CbAnimate)]
  /\ rafRef (refs wd) <> O /\ Host.nextId (host wd) <> O
  /\ exists k, resizeObserverRef (refs wd) = Some k
               /\ Host.listeners (host wd) = attachedWith k.

(** Nothing of the effect is left in the browser. *)
Definition detached (wd : World) : Prop :=
  Host.frames (host wd) = [] /\ Host.listeners (host wd) = [].

End MetaballsBg.

(** ** The particle "D" loader: app/layout.js, second document *)

Module DThreeLoader.
Import Js.

Record Props := {
  size : Q;
  particleCount : Q;
  assembleMs : Q;
  holdMs : Q;
  disperseMs : Q;
  loop : bool
}.

Definition defaultProps : Props :=
  {| size := 280; particleCount := 900; assembleMs := 900; holdMs := 700;
     disperseMs := 700; loop := true |}.

Record Env := {
  hasWindow : bool;                 (* typeof window !== 'undefined' *)
  matchMedia : option bool;         (* None: no window.matchMedia; Some b: .matches *)
  innerWidth : Q;
  clientWidth : Q;                  (* of the container *)
  clock : Q;
  webgl : bool;                     (* new THREE.WebGLRenderer(...) does not throw *)
  renderThrows : bool               (* renderer.render(scene, camera) throws *)
}.

Inductive Stage := idle | assemble | hold | disperse.

(** What is inside the container [div]. *)
Inductive Node := FallbackSvg | RendererCanvas.

(** The work of [initThree] that leaves no trace in the refs:
    [CreateRenderer] is the call of the constructor and [RenderScene] the
    call of [renderer.render], whether they throw or not; [InitError] is the
    [console.error] of the [catch] behind [initThree()]. *)
Inductive Action :=
| ImportThree | ImportSVGLoader | CreateRenderer | ParseSvg
| SampleShapes (effectiveCount : Q) | CreateBuffers (effectiveCount : Q)
| RenderScene | InitError.

Inductive Cb := CbAnimate.
Inductive Hd := HdResize.
Definition Hd_eqb (a b : Hd) : bool := true.

Record World := {
  env : Env;
  host : Host.t Cb Hd;
  container : list Node;
  containerRef : bool;              (* containerRef.current is not null *)
  mounted : bool;                   (* the [let mounted] of the effect *)
  initPending : bool;               (* [initThree] waits for its imports *)
  stage : Stage;
  stageStart : Q;
  raf : option nat;                 (* animRef.current.raf *)
  running : bool;                   (* animRef.current.running *)
  hasCleanup : bool;                (* animRef.current.cleanup is set *)
  rendererSize : option Q;
  log : list Action
}.

Section Effect.
Variable props : Props.

(** [window.matchMedia && window.matchMedia(...).matches], behind the test
    for [window]. *)
Definition prefersReduced (e : Env) : bool :=
  hasWindow e && match matchMedia e with Some b => b | None => false end.

Definition isMobile (e : Env) : bool := hasWindow e && leb (innerWidth e) 640.

Definition effectiveCount (e : Env) : Q :=
  Math_max 64 (Math_round (fmul (particleCount props) (if isMobile e then lit 0.45 else 1))).

(** What the component renders: the container holds the fallback shape. *)
Definition render : list Node := [FallbackSvg].

Definition update (wd : World) (hs : Host.t Cb Hd) (c : list Node) (st : Stage)
    (start : Q) (rf : option nat) (run : bool) (cl : bool) (rs : option Q)
    (lg : list Action) : World :=
  {| env := env wd; host := hs; container := c; containerRef := containerRef wd;
     mounted := mounted wd;
     initPending := false; stage := st; stageStart := start; raf := rf;
     running := run; hasCleanup := cl; rendererSize := rs; log := lg |}.

(** The end of [initThree] by an exception: the promise rejects, the [catch]
    logs the error, and nothing else has changed. *)
Definition initThree_reject (wd : World) (lg : list Action) : World :=
  update wd (host wd) (container wd) (stage wd) (stageStart wd) (raf wd)
    (running wd) (hasCleanup wd) (rendererSize wd) (lg ++ [InitError]).

(** [initThree] from the point where its first import has arrived.  Without
    WebGL the constructor of the renderer throws; with no container left,
    which is so once the component has unmounted, [initThree] returns after
    it has made and sized the renderer. *)
Definition initThree_resume (wd : World) : World :=
  let lg1 := log wd ++ [ImportSVGLoader; CreateRenderer] in
  if negb (webgl (env wd)) then initThree_reject wd lg1
  else if negb (containerRef wd) then
    update wd (host wd) (container wd) (stage wd) (stageStart wd) (raf wd)
      (running wd) (hasCleanup wd) (Some (size props)) lg1
  else
    let n := effectiveCount (env wd) in
    let (handle, hs1) :=
      Host.requestAnimationFrame CbAnimate
        (Host.addEventListener Hd_eqb Host.Window Host.resize HdResize (host wd)) in
    update wd hs1 [RendererCanvas] idle (clock (env wd)) (Some handle) true true
      (Some (size props))
      (lg1 ++ [ParseSvg; SampleShapes n; CreateBuffers n]).

(** The stage after a frame at which [elapsed] has passed in [st]; [None]
    when a run that does not loop is over. *)
Definition next_stage (st : Stage) (elapsed : Q) : option Stage :=
  match st with
  | idle => Some idle
  | assemble => if leb (assembleMs props) elapsed then Some hold else Some assemble
  | hold => if leb (holdMs props) elapsed then Some disperse else Some hold
  | disperse =>
      if leb (disperseMs props) elapsed
      then (if loop props then Some idle else None)
      else Some disperse
  end.

(** The [catch] around [renderer.render] in [animate]: the request in
    [raf], if there is one, is cancelled, and [raf] is set to null. *)
Definition stop_on_render_error (wd : World) : World :=
  let hs := match raf wd with
            | Some handle => if Nat.eqb handle 0 then host wd
                             else Host.cancelAnimationFrame handle (host wd)
            | None => host wd
            end in
  update wd hs (container wd) (stage wd) (stageStart wd) None
    (running wd) (hasCleanup wd) (rendererSize wd) (log wd).

(** [animate(now)], the frame callback. *)
Definition animate (now : Q) (wd : World) : World :=
  if negb (mounted wd) then wd
  else
    let (handle, hs1) := Host.requestAnimationFrame CbAnimate (host wd) in
    let elapsed := now - stageStart wd in
    let '(st1, start1) :=
      if match stage wd with idle => gtb elapsed 220 | _ => false end
      then (assemble, now) else (stage wd, stageStart wd) in
    let lg := log wd ++ [RenderScene] in
    let wd1 :=
      match next_stage st1 elapsed with
      | Some st2 =>
          let moved := match st1, st2 with
                       | assemble, hold | hold, disperse | disperse, idle => true
                       | _, _ => false
                       end in
          update wd hs1 (container wd) st2 (if moved then now else start1)
            (Some handle) (running wd) (hasCleanup wd) (rendererSize wd) lg
      | None =>
          update wd (Host.cancelAnimationFrame handle hs1) (container wd) st1 start1
            None false (hasCleanup wd) (rendererSize wd) lg
      end in
    if renderThrows (env wd) then stop_on_render_error wd1 else wd1.

Definition handleResize (wd : World) : World :=
  let s := Math_min (size props) (Math_max 160 (Math_round (clientWidth (env wd)))) in
  update wd (host wd) (container wd) (stage wd) (stageStart wd) (raf wd)
    (running wd) (hasCleanup wd) (Some s) (log wd).

(** The cleanup the effect returns, run when the component unmounts; by
    then React has set [containerRef.current] to null.  The cleanup of
    [initThree] exists only once [initThree] has run to its end: it removes
    the listener, cancels the request in [raf] and takes the canvas out of
    the container. *)
Definition unmount (wd : World) : World :=
  let hs :=
    if hasCleanup wd then
      let hs1 := Host.removeEventListener Hd_eqb Host.Window Host.resize HdResize (host wd) in
      match raf wd with
      | Some handle => if Nat.eqb handle 0 then hs1
                       else Host.cancelAnimationFrame handle hs1
      | None => hs1
      end
    else host wd in
  let c :=
    if hasCleanup wd
    then filter (fun n => match n with RendererCanvas => false | FallbackSvg => true end)
                (container wd)
    else container wd in
  {| env := env wd; host := hs; container := c; containerRef := false;
     mounted := false;
     initPending := initPending wd; stage := stage wd; stageStart := stageStart wd;
     raf := raf wd; running := running wd; hasCleanup := hasCleanup wd;
     rendererSize := rendererSize wd; log := log wd |}.

Inductive Event :=
| Frame (now : Q)
| ImportsLoaded                    (* the dynamic imports of three resolve *)
| ImportFailed (second : bool)     (* the first or the second import rejects *)
| WindowResize (cw : Q)
| RendererFault (throws : bool)    (* from now on renderer.render throws, or not *)
| Unmount.

Definition affect (ev : Event) (e : Env) : Env :=
  match ev with
  | Frame now =>
      {| hasWindow := hasWindow e; matchMedia := matchMedia e;
         innerWidth := innerWidth e; clientWidth := clientWidth e; clock := now;
         webgl := webgl e; renderThrows := renderThrows e |}
  | ImportsLoaded | ImportFailed _ | Unmount => e
  | WindowResize cw =>
      {| hasWindow := hasWindow e; matchMedia := matchMedia e;
         innerWidth := innerWidth e; clientWidth := cw; clock := clock e;
         webgl := webgl e; renderThrows := renderThrows e |}
  | RendererFault throws =>
      {| hasWindow := hasWindow e; matchMedia := matchMedia e;
         innerWidth := innerWidth e; clientWidth := clientWidth e; clock := clock e;
         webgl := webgl e; renderThrows := throws |}
  end.

Definition set_env (wd : World) (e : Env) : World :=
  {| env := e; host := host wd; container := container wd;
     containerRef := containerRef wd; mounted := mounted wd;
     initPending := initPending wd; stage := stage wd; stageStart := stageStart wd;
     raf := raf wd; running := running wd; hasCleanup := hasCleanup wd;
     rendererSize := rendererSize wd; log := log wd |}.

Definition set_host (wd : World) (hs : Host.t Cb Hd) : World :=
  {| env := env wd; host := hs; container := container wd;
     containerRef := containerRef wd; mounted := mounted wd;
     initPending := initPending wd; stage := stage wd; stageStart := stageStart wd;
     raf := raf wd; running := running wd; hasCleanup := hasCleanup wd;
     rendererSize := rendererSize wd; log := log wd |}.

Definition run_frame (now : Q) (wd : World) : World :=
  let (batch, hs) := Host.take_frames (host wd) in
  fold_left (fun acc (e : nat * Cb) => let (_, cb) := e in
                                       match cb with CbAnimate => animate now acc end)
            batch (set_host wd hs).

Definition step (wd : World) (ev : Event) : World :=
  let wd1 := set_env wd (affect ev (env wd)) in
  match ev with
  | Frame now => run_frame now wd1
  | ImportsLoaded => if initPending wd1 then initThree_resume wd1 else wd1
  | ImportFailed second =>
      if initPending wd1
      then initThree_reject wd1 (log wd1 ++ (if second then [ImportSVGLoader] else []))
      else wd1
  | WindowResize _ =>
      fold_left (fun acc hd => match hd with HdResize => handleResize acc end)
                (Host.handlers_for Host.Window Host.resize (host wd1)) wd1
  | RendererFault _ => wd1
  | Unmount => unmount wd1
  end.

Definition run (wd : World) (evs : list Event) : World := fold_left step evs wd.

(** The first render followed by the body of the effect: [initThree] is
    called, and asks for its first import, only with a window and without the
    reduced-motion preference. *)
Definition mount (e : Env) : World :=
  let init := hasWindow e && negb (prefersReduced e) in
  {| env := e; host := Host.empty; container := render; containerRef := true;
     mounted := true;
     initPending := init;
     stage := idle; stageStart := 0; raf := None; running := false;
     hasCleanup := false; rendererSize := None;
     log := if init then [ImportThree] else [] |}.

End Effect.

(** The loader as the first render left it: the fallback shape in the
    container, [initThree] neither running nor waiting, no frame callback
    ever requested, no listener attached. *)
Definition still (wd : World) : Prop :=
  container wd = [FallbackSvg] /\ log wd = [] /\ initPending wd = false
  /\ Host.frames (host wd) = [] /\ Host.nextId (host wd) = 1%nat
  /\ Host.listeners (host wd) = [].

End DThreeLoader.

(** ** The constellation overlay: app/layout.js, third document *)

Module ConstellationOverlay.

(** The functions the effect hands to [requestAnimationFrame]: the parallax
    loop, the rebuild requested by the mutation observer, and the rebuild
    requested by [scheduleRecalc]. *)
Inductive Cb := CbRafLoop | CbMutationRebuild | CbRecalc.

Inductive Hd := HdPointerMove | HdScheduleRecalc.

Definition Hd_eqb (a b : Hd) : bool :=
  match a, b with
  | HdPointerMove, HdPointerMove | HdScheduleRecalc, HdScheduleRecalc => true
  | _, _ => false
  end.

Definition is_mutation_rebuild (e : nat * Cb) : bool :=
  match snd e with CbMutationRebuild => true | _ => false end.

Definition is_recalc (e : nat * Cb) : bool :=
  match snd e with CbRecalc => true | _ => false end.

(** An entry of [nodesRef]: the element, named by a number, and whether the
    entry carries the [_enter] and [_leave] closures. *)
Record NodeObj := { el : nat; hasHandlers : bool }.

Record World := {
  host : Host.t Cb Hd;
  svg : bool;                  (* svgRef.current is set *)
  observing : bool;            (* the MutationObserver is connected *)
  records : bool;              (* mutations of document.body not yet delivered *)
  rebuildScheduled : bool;     (* rebuildScheduled.current *)
  pending : bool;              (* the [let pending] of the effect *)
  rafRef : nat;
  pointer : option (Q * Q);
  rebuilds : nat;              (* how often [rebuild] has gone past its guard *)
  measures : nat;              (* how often [updatePositions] has gone past its guard *)
  nodeEls : list nat;          (* what querySelectorAll(nodeSelector) finds *)
  nodesRef : list NodeObj;
  nodeListeners : list nat;    (* the elements that carry enter and leave listeners *)
  retries : nat;               (* [setTimeout(() => rebuild())] still to fire *)
  interval : bool              (* the [setInterval] is running *)
}.

Definition set_host (hs : Host.t Cb Hd) (wd : World) : World :=
  {| host := hs; svg := svg wd; observing := observing wd; records := records wd;
     rebuildScheduled := rebuildScheduled wd; pending := pending wd;
     rafRef := rafRef wd; pointer := pointer wd; rebuilds := rebuilds wd;
     measures := measures wd; nodeEls := nodeEls wd; nodesRef := nodesRef wd;
     nodeListeners := nodeListeners wd; retries := retries wd;
     interval := interval wd |}.

(** The three flags: observer connected, records waiting, svg ref set. *)
Definition set_page (sv ob rc : bool) (wd : World) : World :=
  {| host := host wd; svg := sv; observing := ob; records := rc;
     rebuildScheduled := rebuildScheduled wd; pending := pending wd;
     rafRef := rafRef wd; pointer := pointer wd; rebuilds := rebuilds wd;
     measures := measures wd; nodeEls := nodeEls wd; nodesRef := nodesRef wd;
     nodeListeners := nodeListeners wd; retries := retries wd;
     interval := interval wd |}.

Definition set_records (v : bool) (wd : World) : World :=
  set_page (svg wd) (observing wd) v wd.

Definition set_rebuildScheduled (v : bool) (wd : World) : World :=
  {| host := host wd; svg := svg wd; observing := observing wd; records := records wd;
     rebuildScheduled := v; pending := pending wd;
     rafRef := rafRef wd; pointer := pointer wd; rebuilds := rebuilds wd;
     measures := measures wd; nodeEls := nodeEls wd; nodesRef := nodesRef wd;
     nodeListeners := nodeListeners wd; retries := retries wd;
     interval := interval wd |}.

Definition set_pending (v : bool) (wd : World) : World :=
  {| host := host wd; svg := svg wd; observing := observing wd; records := records wd;
     rebuildScheduled := rebuildScheduled wd; pending := v;
     rafRef := rafRef wd; pointer := pointer wd; rebuilds := rebuilds wd;
     measures := measures wd; nodeEls := nodeEls wd; nodesRef := nodesRef wd;
     nodeListeners := nodeListeners wd; retries := retries wd;
     interval := interval wd |}.

Definition set_rafRef (v : nat) (wd : World) : World :=
  {| host := host wd; svg := svg wd; observing := observing wd; records := records wd;
     rebuildScheduled := rebuildScheduled wd; pending := pending wd;
     rafRef := v; pointer := pointer wd; rebuilds := rebuilds wd;
     measures := measures wd; nodeEls := nodeEls wd; nodesRef := nodesRef wd;
     nodeListeners := nodeListeners wd; retries := retries wd;
     interval := interval wd |}.

Definition set_pointer (v : option (Q * Q)) (wd : World) : World :=
  {| host := host wd; svg := svg wd; observing := observing wd; records := records wd;
     rebuildScheduled := rebuildScheduled wd; pending := pending wd;
     rafRef := rafRef wd; pointer := v; rebuilds := rebuilds wd;
     measures := measures wd; nodeEls := nodeEls wd; nodesRef := nodesRef wd;
     nodeListeners := nodeListeners wd; retries := retries wd;
     interval := interval wd |}.

Definition set_counts (rb ms : nat) (wd : World) : World :=
  {| host := host wd; svg := svg wd; observing := observing wd; records := records wd;
     rebuildScheduled := rebuildScheduled wd; pending := pending wd;
     rafRef := rafRef wd; pointer := pointer wd; rebuilds := rb;
     measures := ms; nodeEls := nodeEls wd; nodesRef := nodesRef wd;
     nodeListeners := nodeListeners wd; retries := retries wd;
     interval := interval wd |}.

Definition set_nodes (ns : list NodeObj) (ls : list nat) (wd : World) : World :=
  {| host := host wd; svg := svg wd; observing := observing wd; records := records wd;
     rebuildScheduled := rebuildScheduled wd; pending := pending wd;
     rafRef := rafRef wd; pointer := pointer wd; rebuilds := rebuilds wd;
     measures := measures wd; nodeEls := nodeEls wd; nodesRef := ns;
     nodeListeners := ls; retries := retries wd;
     interval := interval wd |}.

Definition set_timers (rt : nat) (iv : bool) (wd : World) : World :=
  {| host := host wd; svg := svg wd; observing := observing wd; records := records wd;
     rebuildScheduled := rebuildScheduled wd; pending := pending wd;
     rafRef := rafRef wd; pointer := pointer wd; rebuilds := rebuilds wd;
     measures := measures wd; nodeEls := nodeEls wd; nodesRef := nodesRef wd;
     nodeListeners := nodeListeners wd; retries := rt;
     interval := iv |}.

Definition set_nodeEls (els : list nat) (wd : World) : World :=
  {| host := host wd; svg := svg wd; observing := observing wd; records := records wd;
     rebuildScheduled := rebuildScheduled wd; pending := pending wd;
     rafRef := rafRef wd; pointer := pointer wd; rebuilds := rebuilds wd;
     measures := measures wd; nodeEls := els; nodesRef := nodesRef wd;
     nodeListeners := nodeListeners wd; retries := retries wd;
     interval := interval wd |}.

(** [updatePositions]: with an [svg], the paths are set again and
    [updateMask] empties and refills the mask, which changes the children of
    a node below [document.body]. *)
Definition updatePositions (wd : World) : World :=
  if svg wd then
    set_records true (set_counts (rebuilds wd) (S (measures wd)) wd)
  else wd.

(** [rebuild]: with an [svg], [nodesRef] gets fresh entries for at most 140
    of the elements found, the links are made again, and [updatePositions]
    runs at the end. *)
Definition rebuild (wd : World) : World :=
  if svg wd then
    let fresh := map (fun e => {| el := e; hasHandlers := false |})
                     (firstn 140 (nodeEls wd)) in
    updatePositions
      (set_counts (S (rebuilds wd)) (measures wd)
         (set_nodes fresh (nodeListeners wd) wd))
  else wd.

(** [attachNodeListeners]: every entry of [nodesRef] gets its two closures,
    and they are added to its element. *)
Definition attachNodeListeners (wd : World) : World :=
  set_nodes (map (fun n => {| el := el n; hasHandlers := true |}) (nodesRef wd))
            (nodeListeners wd ++ map el (nodesRef wd))
            wd.

Fixpoint remove_one (e : nat) (l : list nat) : list nat :=
  match l with
  | [] => []
  | a :: l' => if Nat.eqb a e then l' else a :: remove_one e l'
  end.

(** [detachNodeListeners]: the closures an entry of [nodesRef] still carries
    are removed from its element and deleted from the entry. *)
Definition detachNodeListeners (wd : World) : World :=
  set_nodes (map (fun n => {| el := el n; hasHandlers := false |}) (nodesRef wd))
            (fold_left (fun ls n => if hasHandlers n then remove_one (el n) ls else ls)
                       (nodesRef wd) (nodeListeners wd))
            wd.

Definition request (cb : Cb) (wd : World) : nat * World :=
  let (handle, hs) := Host.requestAnimationFrame cb (host wd) in
  (handle, set_host hs wd).

(** The callback given to [new MutationObserver]. *)
Definition onMutations (wd : World) : World :=
  if rebuildScheduled wd then wd
  else snd (request CbMutationRebuild (set_rebuildScheduled true wd)).

(** [scheduleRecalc], the listener for [resize] and [scroll]. *)
Definition scheduleRecalc (wd : World) : World :=
  if pending wd then wd
  else snd (request CbRecalc (set_pending true wd)).

(** [rafLoop]: the parallax transform, then the next request. *)
Definition rafLoop (wd : World) : World :=
  if svg wd then
    let (handle, wd1) := request CbRafLoop wd in set_rafRef handle wd1
  else wd.

(** Running one animation-frame callback. *)
Definition invoke (cb : Cb) (wd : World) : World :=
  match cb with
  | CbRafLoop => rafLoop wd
  | CbMutationRebuild => rebuild (set_rebuildScheduled false wd)
  | CbRecalc => rebuild (set_pending false wd)
  end.

(** The observer is told of the mutations gathered so far once the running
    callback has returned: one call, however many records.  Without a
    connected observer the records are dropped. *)
Definition deliver (wd : World) : World :=
  if records wd then
    let wd1 := set_records false wd in
    if observing wd1 then onMutations wd1 else wd1
  else wd.

(** What the browser can do to a mounted overlay.  At [NodesChange] the
    elements that match [nodeSelector] become [els]: elements are put into
    the page or taken out of it ([childList], a mutation the observer is
    registered for), or elements change their class, which the observer
    does not see. *)
Inductive Event :=
| Frame
| DomMutation                  (* some script changes the children of a node of the page *)
| NodesChange (els : list nat) (childList : bool)
| WindowResize
| WindowScroll
| PointerMove (px py : Q)
| RetryTimer                   (* one of the two [setTimeout(() => rebuild())] is due *)
| IntervalTimer.               (* [setInterval(updatePositions, 600)] is due *)

Definition run_frame (wd : World) : World :=
  let (batch, hs) := Host.take_frames (host wd) in
  fold_left (fun acc (e : nat * Cb) => deliver (invoke (snd e) acc))
            batch (set_host hs wd).

Definition call (ev : Event) (hd : Hd) (wd : World) : World :=
  match hd with
  | HdScheduleRecalc => scheduleRecalc wd
  | HdPointerMove =>
      match ev with
      | PointerMove px py => if svg wd then set_pointer (Some (px, py)) wd else wd
      | _ => wd
      end
  end.

Definition dispatch (ty : Host.EventType) (ev : Event) (wd : World) : World :=
  fold_left (fun acc hd => call ev hd acc)
            (Host.handlers_for Host.Window ty (host wd)) wd.

Definition step (wd : World) (ev : Event) : World :=
  match ev with
  | Frame => run_frame wd
  | DomMutation => deliver (set_records true wd)
  | NodesChange els childList =>
      let wd1 := set_nodeEls els wd in
      if childList then deliver (set_records true wd1) else wd1
  | WindowResize => deliver (dispatch Host.resize ev wd)
  | WindowScroll => deliver (dispatch Host.scroll ev wd)
  | PointerMove _ _ => deliver (dispatch Host.mousemove ev wd)
  | RetryTimer =>
      match retries wd with
      | O => wd
      | S k => deliver (rebuild (set_timers k (interval wd) wd))
      end
  | IntervalTimer => if interval wd then deliver (updatePositions wd) else wd
  end.

Definition run (wd : World) (evs : list Event) : World := fold_left step evs wd.

Definition listen (ty : Host.EventType) (hd : Hd) (wd : World) : World :=
  set_host (Host.addEventListener Hd_eqb Host.Window ty hd (host wd)) wd.

Definition unlisten (ty : Host.EventType) (hd : Hd) (wd : World) : World :=
  set_host (Host.removeEventListener Hd_eqb Host.Window ty hd (host wd)) wd.

(** The body of the effect once the portal is there, on a page whose node
    elements are [els]: first build and the two retries, the listeners, the
    observer, the parallax loop, the interval. *)
Definition mount (els : list nat) : World :=
  let wd0 := {| host := Host.empty; svg := true; observing := false; records := false;
                rebuildScheduled := false; pending := false; rafRef := 0;
                pointer := None; rebuilds := 0; measures := 0;
                nodeEls := els; nodesRef := []; nodeListeners := [];
                retries := 0; interval := false |} in
  let wd1 := attachNodeListeners (set_timers 2 false (rebuild wd0)) in
  let wd2 :=
    listen Host.scroll HdScheduleRecalc
      (listen Host.resize HdScheduleRecalc
        (listen Host.touchmove HdPointerMove
          (listen Host.mousemove HdPointerMove wd1))) in
  let wd3 := set_page (svg wd2) true false wd2 in
  let (handle, wd4) := request CbRafLoop wd3 in
  set_timers (retries wd4) true (set_rafRef handle wd4).

(** The cleanup the effect returns. *)
Definition teardown (wd : World) : World :=
  let wd1 := set_host (Host.cancelAnimationFrame (rafRef wd) (host wd)) wd in
  let wd2 := detachNodeListeners wd1 in
  let wd3 :=
    unlisten Host.scroll HdScheduleRecalc
      (unlisten Host.resize HdScheduleRecalc
        (unlisten Host.touchmove HdPointerMove
          (unlisten Host.mousemove HdPointerMove wd2))) in
  set_timers (retries wd3) false (set_page (svg wd3) false false wd3).

(** The cleanup at an unmount, where React has emptied [svgRef]. *)
Definition unmount (wd : World) : World :=
  let wd1 := teardown wd in set_page false (observing wd1) (records wd1) wd1.

(** How many of the callbacks [l] satisfy [f]. *)
Definition howMany (f : nat * Cb -> bool) (l : list (nat * Cb)) : nat :=
  List.length (filter f l).

Definition flag (b : bool) : nat := if b then 1%nat else 0%nat.

(** The flags tell the truth about the callbacks that wait: [rebuildScheduled]
    is set exactly when one rebuild of the observer waits, in the callbacks
    [rest] still to run in this frame or among those requested for the next,
    and [pending] likewise for [scheduleRecalc]; the overlay is mounted and
    the observer has been told of every mutation. *)
Definition coherent (rest : list (nat * Cb)) (wd : World) : Prop :=
  svg wd = true /\ observing wd = true /\ records wd = false
  /\ (howMany is_mutation_rebuild rest
       + howMany is_mutation_rebuild (Host.frames (host wd)))%nat
      = flag (rebuildScheduled wd)
  /\ (howMany is_recalc rest + howMany is_recalc (Host.frames (host wd)))%nat
      = flag (pending wd).

End ConstellationOverlay.

(** ** The contact form: component/Contact.jsx, first document *)

Module Contact.
Local Open Scope list_scope.
Local Open Scope string_scope.

(** Characters are the code units 0 to 255.  [\s] of a regular expression and
    [String.prototype.trim] agree on what is white space: tab, line feed,
    vertical tab, form feed, carriage return, space and no-break space. *)
Definition isWhiteSpace (c : ascii) : bool :=
  let n := nat_of_ascii c in
  (Nat.leb 9 n && Nat.leb n 13) || Nat.eqb n 32 || Nat.eqb n 160.

Fixpoint trimStart (l : list ascii) : list ascii :=
  match l with
  | [] => []
  | c :: l' => if isWhiteSpace c then trimStart l' else l
  end.

Definition trim (s : string) : string :=
  string_of_list_ascii
    (rev (trimStart (rev (trimStart (list_ascii_of_string s))))).

(** Regular expressions, as far as the pattern of [validate] needs them, and
    matching by derivatives. *)
Inductive Re :=
| ReNone                          (* matches nothing *)
| ReEps                           (* the empty string *)
| ReClass (p : ascii -> bool)     (* one character of a class *)
| ReSeq (a b : Re)
| ReAlt (a b : Re)
| ReStar (a : Re).

Definition RePlus (a : Re) : Re := ReSeq a (ReStar a).
Definition ReChar (c : ascii) : Re := ReClass (Ascii.eqb c).

Fixpoint nullable (e : Re) : bool :=
  match e with
  | ReNone => false
  | ReEps => true
  | ReClass _ => false
  | ReSeq a b => nullable a && nullable b
  | ReAlt a b => nullable a || nullable b
  | ReStar _ => true
  end.

Fixpoint deriv (c : ascii) (e : Re) : Re :=
  match e with
  | ReNone => ReNone
  | ReEps => ReNone
  | ReClass p => if p c then ReEps else ReNone
  | ReSeq a b =>
      if nullable a then ReAlt (ReSeq (deriv c a) b) (deriv c b)
      else ReSeq (deriv c a) b
  | ReAlt a b => ReAlt (deriv c a) (deriv c b)
  | ReStar a => ReSeq (deriv c a) (ReStar a)
  end.

(** [/^e$/.test(s)]: the whole of [s] matches [e]. *)
Definition test (e : Re) (s : string) : bool :=
  nullable (fold_left (fun acc c => deriv c acc) (list_ascii_of_string s) e).

(** The strings a regular expression stands for. *)
Inductive matches : Re -> list ascii -> Prop :=
| MEps : matches ReEps []
| MClass (p : ascii -> bool) (c : ascii) : p c = true -> matches (ReClass p) [c]
| MSeq (a b : Re) (s1 s2 : list ascii) :
    matches a s1 -> matches b s2 -> matches (ReSeq a b) (s1 ++ s2)%list
| MAltL (a b : Re) (s : list ascii) : matches a s -> matches (ReAlt a b) s
| MAltR (a b : Re) (s : list ascii) : matches b s -> matches (ReAlt a b) s
| MStarNil (a : Re) : matches (ReStar a) []
| MStarApp (a : Re) (s1 s2 : list ascii) :
    matches a s1 -> matches (ReStar a) s2 -> matches (ReStar a) (s1 ++ s2)%list.

(** The class [[^\s@]]. *)
Definition notSpaceNorAt (c : ascii) : bool :=
  negb (isWhiteSpace c) && negb (Ascii.eqb c "@").

(** [/^[^\s@]+@[^\s@]+\.[^\s@]+$/]. *)
Definition emailRe : Re :=
  ReSeq (RePlus (ReClass notSpaceNorAt))
    (ReSeq (ReChar "@")
      (ReSeq (RePlus (ReClass notSpaceNorAt))
        (ReSeq (ReChar ".") (RePlus (ReClass notSpaceNorAt))))).

Record Form := {
  name : string; email : string; subject : string; message : string; honey : string
}.

Definition emptyForm : Form :=
  {| name := EmptyString; email := EmptyString; subject := EmptyString;
     message := EmptyString; honey := EmptyString |}.

(** An object with string values: its own keys in the order they were set. *)
Definition Obj := list (string * string).

Fixpoint get (k : string) (o : Obj) : option string :=
  match o with
  | [] => None
  | (k', v) :: o' => if String.eqb k k' then Some v else get k o'
  end.

(** Truthiness of a string. *)
Definition nonEmpty (s : string) : bool :=
  match s with EmptyString => false | _ => true end.

(** [validate(values)]. *)
Definition validate (values : Form) : Obj :=
  let e1 := if nonEmpty (trim (name values)) then []
            else [("name", "Please enter your name")] in
  let e2 := if negb (nonEmpty (trim (email values)))
            then [("email", "Please enter your email")]
            else if negb (test emailRe (trim (email values)))
                 then [("email", "Please enter a valid email")]
                 else [] in
  let e3 := if negb (nonEmpty (trim (message values)))
               || Nat.ltb (String.length (trim (message values))) 8
            then [("message", "Message must be at least 8 characters")]
            else [] in
  let e4 := if nonEmpty (honey values) then [("honey", "Spam detected")] else [] in
  (e1 ++ e2 ++ e3 ++ e4)%list.

Inductive StatusType := success | error.
Record Status := { type : StatusType; text : string }.

Record Request := {
  url : string;
  method : string;
  headers : Obj;
  body : string
}.

(** What comes back from [fetch]. *)
Record Data := { d_ok : option bool; d_error : option string; d_message : option string }.

Inductive Reply :=
| NetworkError                                   (* [fetch] rejects *)
| NotJson (responseText : option string)         (* [res.json()] rejects; [None]: so does [res.text()] *)
| Json (res_ok : bool) (res_status : Z) (data : option Data).   (* [None]: the body is [null] *)

(** The state of the component, and the requests sent so far. *)
Record State := {
  form : Form;
  sending : bool;
  status : option Status;
  errors : Obj;
  confetti : nat;
  requests : list Request
}.

Definition initialState : State :=
  {| form := emptyForm; sending := false; status := None; errors := [];
     confetti := 0; requests := [] |}.

(** A string between double quotes as [JSON.stringify] writes it. *)
Definition hexDigit (n : nat) : ascii :=
  ascii_of_nat (if Nat.ltb n 10 then 48 + n else 87 + n).

Definition escapeChar (c : ascii) : list ascii :=
  let n := nat_of_ascii c in
  if Nat.eqb n 34 then ["\"%char; c]
  else if Nat.eqb n 92 then ["\"; "\"]%char
  else if Nat.eqb n 8 then ["\"; "b"]%char
  else if Nat.eqb n 12 then ["\"; "f"]%char
  else if Nat.eqb n 10 then ["\"; "n"]%char
  else if Nat.eqb n 13 then ["\"; "r"]%char
  else if Nat.eqb n 9 then ["\"; "t"]%char
  else if Nat.ltb n 32
       then ["\"; "u"; "0"; "0"; hexDigit (n / 16); hexDigit (n mod 16)]%char
       else [c].

Definition quote : ascii := ascii_of_nat 34.

Definition stringifyString (s : string) : string :=
  string_of_list_ascii
    ([quote] ++ flat_map escapeChar (list_ascii_of_string s) ++ [quote])%list.

Fixpoint stringifyFields (o : Obj) : string :=
  match o with
  | [] => EmptyString
  | [(k, v)] => stringifyString k ++ ":" ++ stringifyString v
  | (k, v) :: o' => stringifyString k ++ ":" ++ stringifyString v ++ "," ++ stringifyFields o'
  end.

(** [JSON.stringify] of an object whose values are strings. *)
Definition JSON_stringify (o : Obj) : string := "{" ++ stringifyFields o ++ "}".

(** The object [handleSubmit] posts. *)
Definition payload (f : Form) : Obj :=
  [("name", name f); ("email", email f); ("subject", subject f); ("message", message f)].

(** A number in a template literal. *)
Definition showZ (n : Z) : string := DecimalString.NilZero.string_of_int (Z.to_int n).

Section Submit.
(** [process.env.NEXT_PUBLIC_CONTACT_URL + 'contacts']. *)
Variable CONTACT_URL : string.

(** [Object.values(errs).find(Boolean)]. *)
Definition firstMessage (errs : Obj) : option string :=
  option_map snd (find (fun kv => nonEmpty (snd kv)) errs).

(** [a || b] on strings that may be missing. *)
Definition orElse (a : option string) (b : string) : string :=
  match a with Some s => if nonEmpty s then s else b | None => b end.

(** What [handleSubmit] does with the reply of the server. *)
Definition afterFetch (rp : Reply) (st : State) : State :=
  match rp with
  | NetworkError =>
      {| form := form st; sending := false;
         status := Some {| type := error; text := "Network error — could not send." |};
         errors := errors st; confetti := confetti st; requests := requests st |}
  | NotJson t =>
      let txt := match t with Some s => s | None => "<non-readable>" end in
      {| form := form st; sending := false;
         status := Some {| type := error;
                           text := "Server responded with non-JSON: " ++ txt |};
         errors := errors st; confetti := confetti st; requests := requests st |}
  | Json res_ok res_status data =>
      let data_ok :=
        match data with
        | Some d => match d_ok d with Some b => b | None => true end
        | None => true
        end in
      if res_ok && data_ok then
        {| form := emptyForm; sending := false;
           status := Some {| type := success; text := "Thanks — message sent." |};
           errors := errors st; confetti := confetti st + 18;
           requests := requests st |}
      else
        let fallback := "Server returned " ++ showZ res_status in
        let errMsg :=
          match data with
          | Some d => orElse (d_error d) (orElse (d_message d) fallback)
          | None => fallback
          end in
        {| form := form st; sending := false;
           status := Some {| type := error; text := errMsg |};
           errors := errors st; confetti := confetti st; requests := requests st |}
  end.

(** [handleSubmit(ev)], with the reply the server gives if it is asked. *)
Definition handleSubmit (rp : Reply) (st : State) : State :=
  let errs := validate (form st) in
  match errs with
  | _ :: _ =>
      {| form := form st; sending := sending st;
         status := Some {| type := error; text := orElse (firstMessage errs) "Validation error" |};
         errors := errs; confetti := confetti st; requests := requests st |}
  | [] =>
      let req := {| url := CONTACT_URL; method := "POST";
                    headers := [("Content-Type", "application/json")];
                    body := JSON_stringify (payload (form st)) |} in
      afterFetch rp
        {| form := form st; sending := true; status := None; errors := errs;
           confetti := confetti st; requests := (requests st ++ [req])%list |}
  end.

(** [handleChange]: the field named [field] gets [value]; its error is set
    to [undefined], which reads as no error, and is left out here. *)
Definition handleChange (field value : string) (st : State) : State :=
  let f := form st in
  let f' :=
    if String.eqb field "name" then
      {| name := value; email := email f; subject := subject f; message := message f; honey := honey f |}
    else if String.eqb field "email" then
      {| name := name f; email := value; subject := subject f; message := message f; honey := honey f |}
    else if String.eqb field "subject" then
      {| name := name f; email := email f; subject := value; message := message f; honey := honey f |}
    else if String.eqb field "message" then
      {| name := name f; email := email f; subject := subject f; message := value; honey := honey f |}
    else if String.eqb field "honey" then
      {| name := name f; email := email f; subject := subject f; message := message f; honey := value |}
    else f in
  {| form := f'; sending := sending st; status := None;
     errors := filter (fun kv => negb (String.eqb (fst kv) field)) (errors st);
     confetti := confetti st; requests := requests st |}.

End Submit.
End Contact.

(** ** The starfield: what [draw] paints and what the listeners measure *)

Module StarsBgPaint.
Import Js StarsBg.

(** The list [updateExcludeRects] stores, as a function of the page. *)
Definition measured (p : Props) (e : Env) : list ExcludeRect :=
  match excludeSelector p with
  | None => []
  | Some sels =>
      flat_map (fun sel =>
                  flat_map (measureExclude (canvasRect e)) (querySelectorAll e sel))
               sels
  end.



(** The padding of the clear-out of [draw]. *)
Definition clearPad (cw ch : Q) : Q :=
  Math_min 48 (Math_max 16 (Math_round (Math_min cw ch * 0.02))).

(** The arguments [draw] hands to [roundRectClear] for one excluded rect. *)
Record Clear := { k_x : Q; k_y : Q; k_w : Q; k_h : Q; k_r : Q }.

Definition clearOf (cw ch : Q) (r : ExcludeRect) : Clear :=
  let pad := clearPad cw ch in
  let lft := Math_max 0 (e_left r - pad) in
  let tp := Math_max 0 (e_top r - pad) in
  let wd := Math_min cw (e_width r + pad * 2) in
  let ht := Math_min ch (e_height r + pad * 2) in
  {| k_x := lft; k_y := tp; k_w := wd; k_h := ht;
     k_r := Math_min 48 (Math_round (Math_min wd ht * 0.12)) |}.

(** [roundRectClear]: nothing for an empty rect, else the radius of the four
    [arcTo] of the path that is filled. *)
Definition roundRectClear (c : Clear) : option Q :=
  if leb (k_w c) 0 || leb (k_h c) 0 then None
  else Some (Math_min (Math_min (k_r c) (k_w c / 2)) (k_h c / 2)).

(** What does not change in a star between two seedings. *)
Definition fixedPart (s : Star) : string * nat * Q * Q * Q * Q * list Q * Q * Q * Q * Q * bool :=
  (id s, r s, depth s, glow s, color s, brightness s, twinkleSpeed s, vx s, vy s,
   isBright s).

Definition isResize (ev : Event) : bool :=
  match ev with WindowResize _ _ => true | _ => false end.

(** One coordinate of a star after a frame of [dt] ms: on a re-entry line,
    or moved by its velocity, which is at most 0.24 px. *)
Definition movedOrWrapped (size dt before v after : Q) : Prop :=
  after = size + 20 \/ after = -20
  \/ (after = before + v * dt /\ -0.24 <= v * dt /\ v * dt <= 0.24).

(** The shooting-star loop of [draw], [n] frames of [dt] ms in a row. *)
Fixpoint ageShots (n : nat) (dt : Q) (shots : list Shot) : list Shot :=
  match n with
  | O => shots
  | S n' => ageShots n' dt (flat_map (drawShot dt) shots)
  end.

End StarsBgPaint.


(** ** The metaballs: what a blob keeps and the ranges [seed] draws from *)

Module MetaballsBgShape.
Import Js MetaballsBg.

(** The quality when nothing is reduced. *)
Definition plainQuality (p : Props) : Quality :=
  {| countToUse := count p; blurToUse := blur p; speedToUse := speed p |}.

(** What [animate] never assigns in a blob. *)
Definition shape (b : Blob) : Q * Q * Q * Q * Q * Q :=
  (r b, vx b, vy b, phaseSpeed b, drift b, driftFactor b).

(** The ranges of the values [seed] draws for a blob, at speed [s]. *)
Definition seededRanges (p : Props) (s : Q) (b : Blob) : Prop :=
  (exists n : Z, r b = inject_Z n)
  /\ (Math_floor (minR p) <= r b /\ r b <= maxR p)
  /\ (- (0.04 * s) <= vx b /\ vx b <= 0.04 * s)
  /\ (- (0.024 * s) <= vy b /\ vy b <= 0.024 * s)
  /\ (0.0025 <= phaseSpeed b /\ phaseSpeed b < 0.0043)
  /\ (0.0006 <= drift b /\ drift b < 0.003)
  /\ (0.002 <= driftFactor b /\ driftFactor b < 0.006).

(** The events at which the container is measured again. *)
Definition isSeeding (ev : Event) : bool :=
  match ev with Observed | WindowResize _ _ => true | _ => false end.

(** Whether the event runs [seed], by the observer the mount has
    installed: the delivery of the observations with a [ResizeObserver],
    the window's resize event without the class. *)
Definition reseeds (k : ObserverKind) (ev : Event) : bool :=
  match k, ev with
  | RealObserver, Observed => true
  | WindowFallback, WindowResize _ _ => true
  | _, _ => false
  end.

(** The observer the mount installs in the browser [e]. *)
Definition observerOf (e : Env) : ObserverKind :=
  if hasResizeObserver e then RealObserver else WindowFallback.

(** The box as [seed] measured it last: [seen] so far, in the browser [now],
    and then after the events [evs]. *)
Fixpoint measuredBox (k : ObserverKind) (seen : Size) (now : Env) (evs : list Event) : Size :=
  match evs with
  | [] => seen
  | ev :: evs' =>
      let now' := affect ev now in
      measuredBox k (if reseeds k ev then readBox now' else seen) now' evs'
  end.

End MetaballsBgShape.

(** ** The loader: the helpers of [initThree] and the arithmetic of [animate] *)

Module DThreeLoaderMath.
Import Js DThreeLoader.

(** The modulus of [seededRandom], 2^31 - 1. *)
Definition modulus : Z := 2147483647.

(** [seededRandom(seed)] up to the [return]: the state the closure starts
    with.  [%] is the remainder with the sign of the dividend. *)
Definition seedState (seed : Z) : Z :=
  let s := Z.rem seed modulus in
  if (s <=? 0)%Z then (s + 2147483646)%Z else s.

(** One call of the function [seededRandom] returns: the new state and the
    value. *)
Definition nextRandom (s : Z) : Z * Q :=
  let s' := Z.rem (s * 16807) modulus in
  (s', inject_Z (s' - 1) / 2147483646).

(** The state after [n] calls. *)
Fixpoint stateAfter (seed : Z) (n : nat) : Z :=
  match n with
  | O => seedState seed
  | S n' => fst (nextRandom (stateAfter seed n'))
  end.

(** The value of call number [n], counted from 0, of [seededRandom(seed)]. *)
Definition seededRandom (seed : Z) (n : nat) : Q :=
  snd (nextRandom (stateAfter seed n)).

Record Pt := { p_x : Q; p_y : Q }.

(** The test [intersect] of [pointInShape] for the edge between [pts[i]] and
    [pts[j]]; the divisor is [yj - yi + 1e-12].  Here, and only here, the
    model follows a division by zero: it gives an infinity with the sign of
    the dividend, or NaN, and [x < ...] is then true only for plus
    infinity. *)
Definition intersect (x y : Q) (pi pj : Pt) : bool :=
  let num := (p_x pj - p_x pi) * (y - p_y pi) in
  let den := p_y pj - p_y pi + (1 # 1000000000000) in
  negb (Bool.eqb (gtb (p_y pi) y) (gtb (p_y pj) y))
  && (if Qeq_bool den 0 then ltb 0 num else ltb x (num / den + p_x pi)).

(** The loop of [pointInShape] from index [i] on, [pj] being [pts[j]]. *)
Fixpoint crossings (x y : Q) (pj : Pt) (rest : list Pt) (inside : bool) : bool :=
  match rest with
  | [] => inside
  | pi :: rest' =>
      crossings x y pi rest' (if intersect x y pi pj then negb inside else inside)
  end.

(** [pointInShape(x, y, pts)]; the first [j] is the last index. *)
Definition pointInShape (x y : Q) (pts : list Pt) : bool :=
  match pts with
  | [] => false
  | p0 :: _ => crossings x y (last pts p0) pts false
  end.

Definition lerp (a b t : Q) : Q := a + (b - a) * t.

(** [ease]: [1 - Math.pow(1 - t, 3)]. *)
Definition ease (t : Q) : Q := 1 - (1 - t) * (1 - t) * (1 - t).

Section Animate.
Variable props : Props.

(** The [progress] of a frame, [elapsed] after the start of the stage. *)
Definition progress (st : Stage) (elapsed : Q) : Q :=
  match st with
  | idle => 0
  | assemble => Math_min 1 (elapsed / Math_max 80 (assembleMs props))
  | hold => 1
  | disperse => Math_min 1 (elapsed / Math_max 80 (disperseMs props))
  end.

(** [v], the variation of particle [i]. *)
Definition variation (i : nat) : Q := 0.88 + inject_Z (Z.of_nat (i mod 7)) * 0.006.

(** The third argument of [lerp] in [animate]. *)
Definition blend (st : Stage) (elapsed : Q) (i : nat) : Q :=
  let t := ease (progress st elapsed) in
  match st with
  | assemble | hold => variation i * t + (1 - t) * 0.04
  | disperse => 0.08 + t * 0.5
  | idle => 0
  end.

(** One coordinate of particle [i] after a frame in stage [st], [goal] being
    the point the frame steers it to. *)
Definition moveParticle (st : Stage) (elapsed : Q) (i : nat) (p goal : Q) : Q :=
  match st with
  | idle => p
  | _ => lerp p goal (blend st elapsed i)
  end.

End Animate.

(** The stage changes a frame can make. *)
Definition follows (a b : Stage) : bool :=
  match a, b with
  | idle, assemble | idle, hold | assemble, hold | hold, disperse
  | disperse, idle => true
  | _, _ => false
  end.

(** The loader at work: mounted, one [animate] requested, whose handle
    [raf] holds, and the one resize listener attached. *)
Definition started (wd : World) : Prop :=
  mounted wd = true
  /\ initPending wd = false
  /\ container wd = [RendererCanvas]
  /\ Host.listeners (host wd)
     = [Host.Build_Listener Host.Window Host.resize HdResize]
  /\ exists handle, Host.frames (host wd) = [(handle, CbAnimate)]
                    /\ raf wd = Some handle.

(** The loader after a run that does not loop: nothing requested. *)
Definition stopped (wd : World) : Prop :=
  Host.frames (host wd) = [] /\ raf wd = None /\ running wd = false
  /\ initPending wd = false.

(** The events that leave a loader at work: all but a renderer that starts
    to throw, and the unmount. *)
Definition benign (ev : Event) : bool :=
  match ev with RendererFault true | Unmount => false | _ => true end.

(** A loader at work whose cleanup is set, whose renderer does not throw,
    and whose handles, the one in [raf] and the next, are not 0. *)
Definition working (wd : World) : Prop :=
  started wd /\ Host.nextId (host wd) <> O /\ raf wd <> Some O
  /\ renderThrows (env wd) = false /\ hasCleanup wd = true.

(** The loader that has given up: the fallback shape is still in the
    container, nothing is requested, attached or waiting to start. *)
Definition fallback (wd : World) : Prop :=
  container wd = [FallbackSvg] /\ initPending wd = false
  /\ Host.frames (host wd) = [] /\ Host.listeners (host wd) = []
  /\ raf wd = None.

(** The loop has ended: nothing is requested, and [raf] is null. *)
Definition halted (wd : World) : Prop :=
  Host.frames (host wd) = [] /\ raf wd = None /\ initPending wd = false.

(** The loader after its cleanup: nothing requested, nothing attached, and
    the canvas gone from the container. *)
Definition cleared (wd : World) : Prop :=
  Host.frames (host wd) = [] /\ Host.listeners (host wd) = []
  /\ container wd = [] /\ initPending wd = false.

End DThreeLoaderMath.

(** ** The overlay: what no event changes, and the hover highlight *)

Module ConstellationOverlayShape.
Import Js ConstellationOverlay.

(** What nothing that happens after the mount changes: the listeners on
    the node elements and on the window, the interval, the [svg] ref and
    the observer. *)
Definition settled (w0 w1 : World) : Prop :=
  nodeListeners w1 = nodeListeners w0
  /\ Host.listeners (host w1) = Host.listeners (host w0)
  /\ interval w1 = interval w0
  /\ svg w1 = svg w0
  /\ observing w1 = observing w0.



(** The window listeners of a mounted overlay, in the order of the effect. *)
Definition windowListeners : list (Host.Listener Hd) :=
  [ Host.Build_Listener Host.Window Host.mousemove HdPointerMove;
    Host.Build_Listener Host.Window Host.touchmove HdPointerMove;
    Host.Build_Listener Host.Window Host.resize HdScheduleRecalc;
    Host.Build_Listener Host.Window Host.scroll HdScheduleRecalc ].

Definition isRecalcEvent (ev : Event) : bool :=
  match ev with WindowResize | WindowScroll => true | _ => false end.

End ConstellationOverlayShape.

(** ** The overlay: the links [rebuild] makes and [highlightNode] restyles *)

Module ConstellationLinks.
Import Js.

Record Props := {
  lineWidth : Q;
  lineOpacity : Q;
  highlightOpacity : Q;
  debug : bool
}.

(** The attributes of a path that [rebuild] and [highlightNode] set: the
    alpha of the [rgba] stroke, the stroke width and the opacity. *)
Record Path := { stroke : Q; strokeWidth : Q; opacity : Q }.

(** An entry of [linksRef]: a link between two nodes has [bIdx], a link to
    a target has [tTarget], here the number of the target. *)
Record Link := {
  pathEl : Path;
  aIdx : nat;
  bIdx : option nat;
  tTarget : option nat
}.

Section Links.
Variable props : Props.

(** The link [rebuild] pushes for the nodes [i] and [j]. *)
Definition nodeLink (i j : nat) : Link :=
  let a := if debug props then Math_min 1 (lineOpacity props * 2)
           else lineOpacity props in
  {| pathEl := {| stroke := a; strokeWidth := lineWidth props; opacity := a |};
     aIdx := i; bIdx := Some j; tTarget := None |}.

(** The link [rebuild] pushes from node [i] to its nearest target [t]. *)
Definition targetLink (i t : nat) : Link :=
  {| pathEl := {| stroke := lineOpacity props * 0.9;
                  strokeWidth := lineWidth props * 0.9;
                  opacity := lineOpacity props * 0.9 |};
     aIdx := i; bIdx := None; tTarget := Some t |}.

Definition with_path (p : Path) (ln : Link) : Link :=
  {| pathEl := p; aIdx := aIdx ln; bIdx := bIdx ln; tTarget := tTarget ln |}.

(** [ln.aIdx === nodeObj.idx || ln.bIdx === nodeObj.idx]. *)
Definition touches (idx : nat) (ln : Link) : bool :=
  Nat.eqb (aIdx ln) idx
  || match bIdx ln with Some b => Nat.eqb b idx | None => false end.

(** [ln.aIdx === nodeObj.idx && ln.tTarget]. *)
Definition leadsToTarget (idx : nat) (ln : Link) : bool :=
  Nat.eqb (aIdx ln) idx && match tTarget ln with Some _ => true | None => false end.

(** The body of the [forEach] of [highlightNode], for the path of a link. *)
Definition restyle (idx : nat) (enter : bool) (ln : Link) : Link :=
  let ln1 :=
    if touches idx ln then
      with_path
        (if enter
         then {| stroke := highlightOpacity props;
                 strokeWidth := lineWidth props * 1.8; opacity := 1 |}
         else {| stroke := lineOpacity props;
                 strokeWidth := lineWidth props; opacity := lineOpacity props |})
        ln
    else ln in
  if leadsToTarget idx ln then
    with_path
      (if enter
       then {| stroke := highlightOpacity props * 0.96;
               strokeWidth := lineWidth props * 1.6; opacity := 1 |}
       else {| stroke := lineOpacity props * 0.9;
               strokeWidth := lineWidth props * 0.9;
               opacity := lineOpacity props * 0.9 |})
      ln1
  else ln1.

(** The same body, for the class [constel-target-highlight]: [has] tells
    which targets carry it. *)
Definition reclass (idx : nat) (enter : bool) (has : nat -> bool) (ln : Link)
    : nat -> bool :=
  if Nat.eqb (aIdx ln) idx then
    match tTarget ln with
    | Some t => fun k => if Nat.eqb k t then enter else has k
    | None => has
    end
  else has.

(** [highlightNode(nodeObj, enter)] on the links and the classes. *)
Definition highlightNode (idx : nat) (enter : bool)
    (st : list Link * (nat -> bool)) : list Link * (nat -> bool) :=
  (map (restyle idx enter) (fst st),
   fold_left (reclass idx enter) (fst st) (snd st)).

(** A link as [rebuild] makes it. *)
Definition asBuilt (ln : Link) : Prop :=
  (exists i j, ln = nodeLink i j) \/ (exists i t, ln = targetLink i t).

(** Node [idx] has a link to target [t]. *)
Definition linkedTarget (idx t : nat) (ln : Link) : bool :=
  Nat.eqb (aIdx ln) idx
  && match tTarget ln with Some t' => Nat.eqb t t' | None => false end.

End Links.

End ConstellationLinks.

(** ** The contact form: what the pattern accepts and what a reply means *)

Module ContactShape.
Import Contact.
Local Open Scope list_scope.

(** A string of the form local@host.tld, each part at least one character
    and free of white space and of [@]. *)
Definition addressShaped (l : list ascii) : Prop :=
  exists lcl hst tld : list ascii,
    l = lcl ++ "@"%char :: hst ++ "."%char :: tld
    /\ lcl <> [] /\ hst <> [] /\ tld <> []
    /\ forallb notSpaceNorAt lcl = true
    /\ forallb notSpaceNorAt hst = true
    /\ forallb notSpaceNorAt tld = true.

(** [res.ok && (data?.ok ?? true)] of a reply that is JSON. *)
Definition accepted (rp : Reply) : bool :=
  match rp with
  | Json res_ok _ data =>
      res_ok && match data with
                | Some d => match d_ok d with Some b => b | None => true end
                | None => true
                end
  | _ => false
  end.

(** The four tests of [validate], in the order of the code. *)
Definition nameGiven (f : Form) : bool := nonEmpty (trim (name f)).
Definition emailGiven (f : Form) : bool := nonEmpty (trim (email f)).
Definition emailValid (f : Form) : bool := test emailRe (trim (email f)).
Definition messageLongEnough (f : Form) : bool :=
  nonEmpty (trim (message f)) && negb (Nat.ltb (String.length (trim (message f))) 8).
Definition honeyEmpty (f : Form) : bool := negb (nonEmpty (honey f)).

Definition valid (f : Form) : bool :=
  nameGiven f && emailValid f && messageLongEnough f && honeyEmpty f.

(** The message of the first test that fails. *)
Definition firstFailure (f : Form) : string :=
  if negb (nameGiven f) then "Please enter your name"
  else if negb (emailGiven f) then "Please enter your email"
  else if negb (emailValid f) then "Please enter a valid email"
  else if negb (messageLongEnough f) then "Message must be at least 8 characters"
  else "Spam detected".

End ContactShape.

(** ** More concrete pages *)

Module SampleMore.

(** The loader of the defaults, but for one run only. *)
Definition onceProps : DThreeLoader.Props :=
  {| DThreeLoader.size := 280; DThreeLoader.particleCount := 900;
     DThreeLoader.assembleMs := 900; DThreeLoader.holdMs := 700;
     DThreeLoader.disperseMs := 700; DThreeLoader.loop := false |}.

(** A desktop browser without the reduced-motion preference. *)
Definition loaderEnv : DThreeLoader.Env :=
  {| DThreeLoader.hasWindow := true;
     DThreeLoader.matchMedia := Some false;
     DThreeLoader.innerWidth := 1280;
     DThreeLoader.clientWidth := 220;
     DThreeLoader.clock := 0;
     DThreeLoader.webgl := true; DThreeLoader.renderThrows := false |}.

(** The default starfield, told to keep clear of the cards. *)
Definition cardProps : StarsBg.Props :=
  {| StarsBg.colorBase := [255; 200; 170]; StarsBg.density := 7;
     StarsBg.maxStars := 280;
     StarsBg.nebula := true; StarsBg.clusters := true; StarsBg.connect := false;
     StarsBg.connectDistance := 120; StarsBg.shootingFrequency := 10;
     StarsBg.excludeSelector := Some [".card"%string] |}.

(** A page with one card of 300 by 200, [y] px below the top of the canvas. *)
Definition cardAt (y : Q) (_ : string) : list StarsBg.DomRect :=
  [{| StarsBg.left := 100; StarsBg.top := y;
      StarsBg.width := 300; StarsBg.height := 200 |}].

Definition canvas1000 : StarsBg.DomRect :=
  {| StarsBg.left := 0; StarsBg.top := 0;
     StarsBg.width := 1000; StarsBg.height := 800 |}.

(** A desktop page with a canvas of 1000 by 800 and the card 100 px down. *)
Definition cardEnv : StarsBg.Env :=
  {| StarsBg.canvasRect := canvas1000;
     StarsBg.devicePixelRatio := 1;
     StarsBg.hardwareConcurrency := Some 8;
     StarsBg.hidden := false;
     StarsBg.clock := 0;
     StarsBg.querySelectorAll := cardAt 100 |}.

(** The same browser without WebGL. *)
Definition noWebglLoaderEnv : DThreeLoader.Env :=
  {| DThreeLoader.hasWindow := true;
     DThreeLoader.matchMedia := Some false;
     DThreeLoader.innerWidth := 1280;
     DThreeLoader.clientWidth := 220;
     DThreeLoader.clock := 0;
     DThreeLoader.webgl := false; DThreeLoader.renderThrows := false |}.

(** That loader in its disperse stage: the modules arrive, the frame at
    300 ms ends idle, the one at 1300 ms ends assemble, the one at 2100 ms
    ends hold. *)
Definition dispersing : DThreeLoader.World :=
  DThreeLoader.run onceProps (DThreeLoader.mount loaderEnv)
    [DThreeLoader.ImportsLoaded; DThreeLoader.Frame 300; DThreeLoader.Frame 1300;
     DThreeLoader.Frame 2100].

(** The overlay's line style without [debug]. *)
Definition linkProps : ConstellationLinks.Props :=
  {| ConstellationLinks.lineWidth := 1; ConstellationLinks.lineOpacity := 0.3;
     ConstellationLinks.highlightOpacity := 0.9; ConstellationLinks.debug := false |}.

(** Four nodes in a row, the second of them linked to target 7. *)
Definition links : list ConstellationLinks.Link :=
  [ ConstellationLinks.nodeLink linkProps 0 1;
    ConstellationLinks.nodeLink linkProps 1 2;
    ConstellationLinks.nodeLink linkProps 2 3;
    ConstellationLinks.targetLink linkProps 1 7 ].

End SampleMore.
(** ** Concrete pages and oracles *)

Module Sample.

(** An oracle that looks random: a linear congruence, scaled into [0, 1). *)
Definition random (i : nat) : Q := ((Z.of_nat i * 7919 + 1234) mod 10007) # 10007.

(** The oracle whose every draw is 0, the least value [Math.random] has. *)
Definition zero (_ : nat) : Q := 0.

Definition PI : Q := 355 # 113.

(** Polynomials in the place of the sine and the cosine. *)
Definition sin (a : Q) : Q := a - a * a * a / 6.
Definition cos (a : Q) : Q := 1 - a * a / 2.

(** A desktop page with a canvas of 1000 by 800. *)
Definition starsEnv : StarsBg.Env :=
  {| StarsBg.canvasRect :=
       {| StarsBg.left := 0; StarsBg.top := 0;
          StarsBg.width := 1000; StarsBg.height := 800 |};
     StarsBg.devicePixelRatio := 1;
     StarsBg.hardwareConcurrency := Some 8;
     StarsBg.hidden := false;
     StarsBg.clock := 0;
     StarsBg.querySelectorAll := fun _ => [] |}.

(** A star 0.1 px inside the band of 20 px left of the canvas, drifting
    left at the highest speed [buildStars] gives. *)
Definition leavingStar : StarsBg.Star :=
  {| StarsBg.id := ("far"%string, O, 0);
     StarsBg.x := -19.9; StarsBg.y := 400;
     StarsBg.baseX := 300; StarsBg.baseY := 400;
     StarsBg.r := 1; StarsBg.depth := 0.28; StarsBg.glow := 0.28;
     StarsBg.color := [255; 200; 170];
     StarsBg.brightness := 0.8; StarsBg.twinkleSpeed := 1;
     StarsBg.twinklePhase := 0;
     StarsBg.vx := -0.006; StarsBg.vy := 0;
     StarsBg.isBright := false |}.

(** A page section of 1200 by 3000 on a desktop browser. *)
Definition blobsEnv : MetaballsBg.Env :=
  {| MetaballsBg.hasWindow := true;
     MetaballsBg.deviceMemory := Some 8;
     MetaballsBg.hardwareConcurrency := Some 8;
     MetaballsBg.prefersReducedMotion := Some false;
     MetaballsBg.boxWidth := 1200; MetaballsBg.boxHeight := 3000;
     MetaballsBg.visibilityHidden := false;
     MetaballsBg.hasResizeObserver := true |}.

(** The same page for a visitor who prefers reduced motion. *)
Definition reducedBlobsEnv : MetaballsBg.Env :=
  {| MetaballsBg.hasWindow := true;
     MetaballsBg.deviceMemory := Some 8;
     MetaballsBg.hardwareConcurrency := Some 8;
     MetaballsBg.prefersReducedMotion := Some true;
     MetaballsBg.boxWidth := 1200; MetaballsBg.boxHeight := 3000;
     MetaballsBg.visibilityHidden := false;
     MetaballsBg.hasResizeObserver := true |}.


(** The default props with a count that is not a whole number. *)
Definition fractionalBlobsProps : MetaballsBg.Props :=
  {| MetaballsBg.count := 2.5; MetaballsBg.color := [255; 140; 90];
     MetaballsBg.minR := 64; MetaballsBg.maxR := 180;
     MetaballsBg.speed := 0.14; MetaballsBg.blur := 28; MetaballsBg.z := -30;
     MetaballsBg.fixed := true;
     MetaballsBg.autoReduce := false; MetaballsBg.debug := false |}.

(** A browser that reports the reduced-motion preference to the loader. *)
Definition reducedLoaderEnv : DThreeLoader.Env :=
  {| DThreeLoader.hasWindow := true;
     DThreeLoader.matchMedia := Some true;
     DThreeLoader.innerWidth := 1280;
     DThreeLoader.clientWidth := 220;
     DThreeLoader.clock := 0;
     DThreeLoader.webgl := true; DThreeLoader.renderThrows := false |}.

(** The same browser without the preference. *)
Definition plainLoaderEnv : DThreeLoader.Env :=
  {| DThreeLoader.hasWindow := true;
     DThreeLoader.matchMedia := Some false;
     DThreeLoader.innerWidth := 1280;
     DThreeLoader.clientWidth := 220;
     DThreeLoader.clock := 0;
     DThreeLoader.webgl := true; DThreeLoader.renderThrows := false |}.

(** A form that is fine but for its e-mail address. *)
Definition badEmailForm : Contact.Form :=
  {| Contact.name := "Ada";
     Contact.email := "not-an-email";
     Contact.subject := "Hello";
     Contact.message := "A message that is long enough.";
     Contact.honey := EmptyString |}.

(** A valid form whose honeypot a robot has filled. *)
Definition robotForm : Contact.Form :=
  {| Contact.name := "Ada";
     Contact.email := "ada@example.org";
     Contact.subject := "Hello";
     Contact.message := "A message that is long enough.";
     Contact.honey := "http://spam.example" |}.

(** A valid form. *)
Definition goodForm : Contact.Form :=
  {| Contact.name := "Ada";
     Contact.email := "ada@example.org";
     Contact.subject := "Hello";
     Contact.message := "A message that is long enough.";
     Contact.honey := EmptyString |}.

Definition withForm (f : Contact.Form) : Contact.State :=
  {| Contact.form := f; Contact.sending := false; Contact.status := None;
     Contact.errors := []; Contact.confetti := 0; Contact.requests := [] |}.

Definition endpoint : string := "https://api.example.org/contacts".

End Sample.

(* ===================================================================== *)
(** * Part II: what the program guarantees *)
(* ===================================================================== *)

Unset Implicit Arguments.

(** ** Facts on the numeric helpers *)

Module JsFacts.
Import Js.

Lemma ltb_lt (a b : Q) : ltb a b = true <-> a < b.
Proof.
  unfold ltb. rewrite negb_true_iff.
  split; intro H.
  - apply Qnot_le_lt. intro L. apply Qle_bool_iff in L. congruence.
  - destruct (Qle_bool b a) eqn:E; [|reflexivity].
    apply Qle_bool_iff in E. exfalso. exact (Qlt_not_le _ _ H E).
Qed.

Lemma ltb_ge (a b : Q) : ltb a b = false <-> b <= a.
Proof.
  unfold ltb. rewrite negb_false_iff. apply Qle_bool_iff.
Qed.

Lemma leb_le (a b : Q) : leb a b = true <-> a <= b.
Proof. apply Qle_bool_iff. Qed.

Lemma leb_gt (a b : Q) : leb a b = false <-> b < a.
Proof.
  unfold leb. split; intro H.
  - apply Qnot_le_lt. intro L. apply Qle_bool_iff in L. congruence.
  - destruct (Qle_bool a b) eqn:E; [|reflexivity].
    apply Qle_bool_iff in E. exfalso. exact (Qlt_not_le _ _ H E).
Qed.

(** *** Rounding to a double *)

Lemma two_pow_pos (e : Z) : 0 < 2 ^ e.
Proof. apply Qpower_0_lt. reflexivity. Qed.

Lemma two_pow_Z (n : Z) : (0 <= n)%Z -> 2 ^ n == inject_Z (2 ^ n).
Proof. intro H. rewrite (Zpower_Qpower 2 n H). reflexivity. Qed.

Lemma ilog2_le (x : Q) : 0 < x -> 2 ^ ilog2 x <= x.
Proof.
  intro Hx. unfold ilog2.
  set (e0 := (Z.log2 (Qnum x) - Z.log2 (Z.pos (Qden x)))%Z).
  destruct (Qle_bool (2 ^ e0) x) eqn:E.
  - apply Qle_bool_iff. exact E.
  - destruct x as [a b]. cbn [Qnum Qden] in *.
    assert (Ha : (0 < a)%Z).
    { unfold Qlt in Hx. cbn in Hx. lia. }
    pose proof (Z.log2_spec a Ha) as [A1 _].
    pose proof (Z.log2_spec (Z.pos b) eq_refl) as [_ B2].
    pose proof (Z.log2_nonneg a) as La.
    pose proof (Z.log2_nonneg (Z.pos b)) as Lb.
    replace (e0 - 1)%Z with (Z.log2 a - Z.succ (Z.log2 (Z.pos b)))%Z by (unfold e0; lia).
    rewrite Qpower_minus by discriminate.
    rewrite (two_pow_Z (Z.log2 a) La), (two_pow_Z (Z.succ (Z.log2 (Z.pos b)))) by lia.
    set (p := (2 ^ Z.log2 a)%Z) in *. set (q := (2 ^ Z.succ (Z.log2 (Z.pos b)))%Z) in *.
    assert (Hq : (0 < q)%Z) by lia.
    assert (Hp : (0 < p)%Z) by (unfold p; apply Z.pow_pos_nonneg; lia).
    apply Qle_shift_div_r.
    + change 0 with (inject_Z 0). rewrite <- Zlt_Qlt. exact Hq.
    + unfold Qle, Qmult, inject_Z. cbn [Qnum Qden].
      rewrite !Z.mul_1_r. rewrite Pos.mul_1_r.
      apply Z.le_trans with (a * q)%Z; [nia | nia].
Qed.

Lemma rne_le (t : Q) : inject_Z (rne t) <= t + (1 # 2).
Proof.
  unfold rne. pose proof (Qfloor_le t) as F.
  destruct (Qcompare (t - inject_Z (Qfloor t)) (1 # 2)) eqn:C.
  - apply Qeq_alt in C. destruct (Z.even (Qfloor t)); [lra|].
    rewrite inject_Z_plus. change (inject_Z 1) with 1. lra.
  - lra.
  - apply Qgt_alt in C. rewrite inject_Z_plus. change (inject_Z 1) with 1. lra.
Qed.


Lemma rne_nonneg (t : Q) : 0 <= t -> (0 <= rne t)%Z.
Proof.
  intro H. unfold rne.
  assert (F : (0 <= Qfloor t)%Z).
  { change 0%Z with (Qfloor 0). apply Qfloor_resp_le. exact H. }
  destruct (Qcompare _ _); [destruct (Z.even _)| |]; lia.
Qed.

Lemma fl_nonneg (x : Q) : 0 <= x -> 0 <= fl x.
Proof.
  intro H. unfold fl. destruct (Qcompare x 0) eqn:C.
  - lra.
  - apply Qlt_alt in C. lra.
  - apply Qgt_alt in C.
    apply Qmult_le_0_compat; [|apply Qlt_le_weak, two_pow_pos].
    change 0 with (inject_Z 0). rewrite <- Zle_Qle. apply rne_nonneg.
    apply Qle_shift_div_l; [apply two_pow_pos | lra].
Qed.

Lemma fl_nonpos (x : Q) : x <= 0 -> fl x <= 0.
Proof.
  intro H. unfold fl. destruct (Qcompare x 0) eqn:C.
  - lra.
  - apply Qlt_alt in C.
    assert (0 <= inject_Z (rne (- x / 2 ^ (ilog2 (- x) - 52))) * 2 ^ (ilog2 (- x) - 52)).
    { apply Qmult_le_0_compat; [|apply Qlt_le_weak, two_pow_pos].
      change 0 with (inject_Z 0). rewrite <- Zle_Qle. apply rne_nonneg.
      apply Qle_shift_div_l; [apply two_pow_pos | lra]. }
    lra.
  - apply Qgt_alt in C. lra.
Qed.

(** The relative error of a rounding upwards is at most 2^-53. *)
Lemma fl_le (x : Q) : 0 <= x -> fl x <= x + x / 9007199254740992.
Proof.
  intro H. unfold fl. destruct (Qcompare x 0) eqn:C.
  - apply Qeq_alt in C. rewrite C. unfold Qdiv. lra.
  - apply Qlt_alt in C. lra.
  - apply Qgt_alt in C. cbv zeta.
    pose proof (ilog2_le x C) as L.
    set (e := ilog2 x) in *.
    pose proof (two_pow_pos (e - 52)) as S.
    assert (E : 2 ^ e == 2 ^ (e - 52) * 4503599627370496).
    { replace e with ((e - 52) + 52)%Z at 1 by lia.
      rewrite Qpower_plus by discriminate. reflexivity. }
    set (s := 2 ^ (e - 52)) in *.
    pose proof (rne_le (x / s)) as R.
    assert (T : x / s * s == x) by (field; lra).
    assert (M : inject_Z (rne (x / s)) * s <= x + s * (1 # 2)).
    { apply Qle_trans with ((x / s + (1 # 2)) * s).
      - apply Qmult_le_compat_r; [exact R | lra].
      - rewrite Qmult_plus_distr_l, T. lra. }
    assert (D : x / 9007199254740992 == x * (1 # 9007199254740992)) by reflexivity.
    rewrite D. rewrite E in L. lra.
Qed.


Lemma rne_Z (t : Q) (j : Z) : t == inject_Z j -> rne t = j.
Proof.
  intro H. unfold rne.
  assert (F : Qfloor t = j) by (rewrite (Qfloor_comp _ _ H); apply Qfloor_Z).
  rewrite F.
  assert (C : Qcompare (t - inject_Z j) (1 # 2) = Lt).
  { apply Qlt_alt.
    assert (Z0 : t - inject_Z j == 0) by (rewrite H; ring).
    rewrite Z0. reflexivity. }
  rewrite C. reflexivity.
Qed.

Lemma two_pow_ge_1 (n : Z) : (0 <= n)%Z -> 1 <= 2 ^ n.
Proof.
  intro H. rewrite (two_pow_Z n H). change 1 with (inject_Z 1).
  rewrite <- Zle_Qle. pose proof (Z.pow_pos_nonneg 2 n). lia.
Qed.

(** A number with at most 53 significant bits is a double, whatever the
    fraction that stands for it. *)
Lemma fl_exact (x : Q) (m k : Z) :
  (0 < m < 2 ^ 53)%Z -> x == inject_Z m * 2 ^ k -> fl x == x.
Proof.
  intros [M0 M1] Hx.
  pose proof (two_pow_pos k) as K.
  assert (P : 0 < x).
  { rewrite Hx. apply Qmult_lt_0_compat; [|exact K].
    change 0 with (inject_Z 0). rewrite <- Zlt_Qlt. exact M0. }
  unfold fl. assert (C : Qcompare x 0 = Gt) by (apply Qgt_alt; exact P).
  rewrite C. cbv zeta.
  pose proof (ilog2_le x P) as L. set (e := ilog2 x) in *.
  assert (B : (e <= 52 + k)%Z).
  { destruct (Z_le_gt_dec e (52 + k)) as [G | G]; [exact G | exfalso].
    assert (E : 2 ^ e == 2 ^ (e - 53 - k) * (2 ^ 53 * 2 ^ k)).
    { replace e with ((e - 53 - k) + (53 + k))%Z at 1 by lia.
      rewrite !Qpower_plus by discriminate. reflexivity. }
    pose proof (two_pow_ge_1 (e - 53 - k) ltac:(lia)) as G1.
    assert (U : inject_Z m * 2 ^ k < 2 ^ 53 * 2 ^ k).
    { apply Qmult_lt_compat_r; [exact K|].
      rewrite (two_pow_Z 53) by lia. rewrite <- Zlt_Qlt. exact M1. }
    assert (V : 2 ^ 53 * 2 ^ k <= 2 ^ (e - 53 - k) * (2 ^ 53 * 2 ^ k)).
    { pose proof (two_pow_pos 53) as K53.
      assert (0 < 2 ^ 53 * 2 ^ k) by (apply Qmult_lt_0_compat; assumption).
      set (u := 2 ^ 53 * 2 ^ k) in *. set (v := 2 ^ (e - 53 - k)) in *. nra. }
    rewrite E, Hx in L. lra. }
  pose proof (two_pow_pos (e - 52)) as S.
  assert (T : x / 2 ^ (e - 52) == inject_Z (m * 2 ^ (k - e + 52))).
  { rewrite inject_Z_mult. rewrite <- (two_pow_Z (k - e + 52)) by lia.
    rewrite Hx. replace k with ((k - e + 52) + (e - 52))%Z at 1 by lia.
    rewrite Qpower_plus by discriminate. field. lra. }
  rewrite (rne_Z _ _ T). rewrite <- T. field. lra.
Qed.


Lemma fl_Z (n : Z) : (0 <= n < 2 ^ 53)%Z -> fl (inject_Z n) == inject_Z n.
Proof.
  intros [H0 H1]. destruct (Z.eq_dec n 0) as [-> | N]; [reflexivity|].
  apply (fl_exact _ n 0); [lia|]. change (2 ^ 0) with 1. ring.
Qed.



Example fl_agrees_90 :
  SF2Q (SFmul 53 1024 (S754_finite false 90 0)
          (S754_finite false 6305039478318694 (-54)))
  == fl (90 * fl 0.35).
Proof. vm_compute. reflexivity. Qed.

(** The same product by the Standard Library's IEEE multiplication. *)
Example fl_agrees_180 :
  SF2Q (SFmul 53 1024 (S754_finite false 180 0)
          (S754_finite false 6305039478318694 (-54)))
  == fl (180 * fl 0.35).
Proof. vm_compute. reflexivity. Qed.

Lemma gtb_gt (a b : Q) : gtb a b = true <-> b < a.
Proof. unfold gtb. apply ltb_lt. Qed.

Lemma gtb_le (a b : Q) : gtb a b = false <-> a <= b.
Proof. unfold gtb. apply ltb_ge. Qed.

(** A value clamped by [Math.max(lo, Math.min(hi, v))] lies in [lo, hi]. *)
Lemma clamp_range (lo hi v : Q) :
  lo <= hi -> lo <= Math_max lo (Math_min hi v) <= hi.
Proof.
  intro H. unfold Math_max, Math_min. split.
  - apply Q.le_max_l.
  - apply Q.max_lub; [exact H | apply Q.le_min_l].
Qed.

Lemma max_one_pos (v : Q) : 1 <= Math_max 1 v.
Proof. unfold Math_max. apply Q.le_max_l. Qed.

Lemma for_push_length {A} (body : nat -> Rand A) (n i k : nat) :
  List.length (fst (for_push n i body k)) = n.
Proof.
  revert i k. induction n as [|n IH]; intros i k; simpl.
  - reflexivity.
  - unfold bind at 1. destruct (body i k) as [a k1].
    unfold bind at 1. specialize (IH (S i) k1).
    destruct (for_push n (S i) body k1) as [rest k2]. simpl in *.
    now rewrite IH.
Qed.

Lemma for_push_Forall {A} (P : A -> Prop) (body : nat -> Rand A) :
  (forall i k, P (fst (body i k))) ->
  forall n i k, Forall P (fst (for_push n i body k)).
Proof.
  intros Hb n. induction n as [|n IH]; intros i k; simpl.
  - constructor.
  - unfold bind at 1. pose proof (Hb i k) as Ha.
    destruct (body i k) as [a k1].
    unfold bind at 1. specialize (IH (S i) k1).
    destruct (for_push n (S i) body k1) as [rest k2]. simpl in *.
    constructor; assumption.
Qed.

Lemma mapM_length {A B} (f : A -> Rand B) (l : list A) (k : nat) :
  List.length (fst (mapM f l k)) = List.length l.
Proof.
  revert k. induction l as [|a l IH]; intro k; simpl.
  - reflexivity.
  - unfold bind at 1. destruct (f a k) as [b k1].
    unfold bind at 1. specialize (IH k1).
    destruct (mapM f l k1) as [bs k2]. simpl in *. now rewrite IH.
Qed.

Lemma mapM_Forall {A B} (Q : B -> Prop) (f : A -> Rand B) :
  (forall a k, Q (fst (f a k))) ->
  forall l k, Forall Q (fst (mapM f l k)).
Proof.
  intros Hf l. induction l as [|a l IH]; intro k; simpl.
  - constructor.
  - unfold bind at 1. pose proof (Hf a k) as Ha.
    destruct (f a k) as [b k1].
    unfold bind at 1. specialize (IH k1).
    destruct (mapM f l k1) as [bs k2]. simpl in *.
    constructor; assumption.
Qed.

(** [mapM] with a property of the input that the body turns into a property
    of the output. *)
Lemma mapM_Forall_impl {A B} (P : A -> Prop) (Q : B -> Prop) (f : A -> Rand B) :
  (forall a k, P a -> Q (fst (f a k))) ->
  forall l k, Forall P l -> Forall Q (fst (mapM f l k)).
Proof.
  intros Hf l. induction l as [|a l IH]; intros k Hl; simpl.
  - constructor.
  - inversion Hl as [|? ? Pa Pl]; subst.
    unfold bind at 1. pose proof (Hf a k Pa) as Ha.
    destruct (f a k) as [b k1].
    unfold bind at 1. specialize (IH k1 Pl).
    destruct (mapM f l k1) as [bs k2]. simpl in *.
    constructor; assumption.
Qed.

End JsFacts.

(** ** The starfield *)

Module StarsBgFacts.
Import Js JsFacts StarsBg.

Section Seeding.
Variable random : nat -> Q.
Variable PI : Q.
Variable props : Props.
Hypothesis random_range : forall i, 0 <= random i < 1.

Lemma scaled_in_range (u size : Q) :
  0 <= u < 1 -> 0 <= size -> 0 <= u * size /\ u * size <= size.
Proof. intros [H0 H1] Hs. split; nra. Qed.

(** Every star [makeStar] creates lies inside the canvas. *)
Lemma makeStar_inBox (cw ch : Q) (layer : Layer) (i k : nat) :
  0 <= cw -> 0 <= ch ->
  inBox cw ch (fst (makeStar random PI props cw ch layer i k)).
Proof.
  intros Hw Hh.
  cbv [makeStar rand Math_random bind ret].
  destruct (clusters props).
  - destruct (ltb _ _); cbn [fst snd x y]; unfold inBox; cbn [fst snd x y].
    + split; apply clamp_range; assumption.
    + split; apply scaled_in_range; auto.
  - unfold inBox; cbn [fst snd x y].
    split; apply scaled_in_range; auto.
Qed.

Lemma seedLayers_length (cw ch count : Q) (ls : list Layer) (k : nat) :
  List.length (fst (seedLayers random PI props cw ch count ls k))
  = list_sum (map (fun l => turns (layerCount count l)) ls).
Proof.
  revert k. induction ls as [|l ls IH]; intro k; simpl.
  - reflexivity.
  - unfold bind at 1.
    pose proof (for_push_length (makeStar random PI props cw ch l)
                  (turns (layerCount count l)) 0 k) as Hl.
    destruct (for_push _ _ _ k) as [here k1].
    unfold bind at 1. specialize (IH k1).
    destruct (seedLayers _ _ _ _ _ _ ls k1) as [rest k2].
    simpl in *. rewrite length_app. congruence.
Qed.

Lemma seedLayers_inBox (cw ch count : Q) (ls : list Layer) (k : nat) :
  0 <= cw -> 0 <= ch ->
  Forall (inBox cw ch) (fst (seedLayers random PI props cw ch count ls k)).
Proof.
  intros Hw Hh. revert k. induction ls as [|l ls IH]; intro k; simpl.
  - constructor.
  - unfold bind at 1.
    pose proof (for_push_Forall (inBox cw ch) (makeStar random PI props cw ch l)
                  (fun i k' => makeStar_inBox cw ch l i k' Hw Hh)
                  (turns (layerCount count l)) 0 k) as Hl.
    destruct (for_push _ _ _ k) as [here k1].
    unfold bind at 1. specialize (IH k1).
    destruct (seedLayers _ _ _ _ _ _ ls k1) as [rest k2].
    simpl in *. apply Forall_app. split; assumption.
Qed.

Lemma insert_by_depth_length (s : Star) (l : list Star) :
  List.length (insert_by_depth s l) = S (List.length l).
Proof.
  induction l as [|t l IH]; simpl; [reflexivity|].
  destruct (Js.leb _ _); simpl; [reflexivity | now rewrite IH].
Qed.

Lemma insert_by_depth_Forall (P : Star -> Prop) (s : Star) (l : list Star) :
  P s -> Forall P l -> Forall P (insert_by_depth s l).
Proof.
  intros Hs Hl. induction Hl as [|t l Ht Hl IH]; simpl.
  - constructor; [assumption | constructor].
  - destruct (Js.leb _ _); repeat constructor; assumption.
Qed.

Lemma sort_by_depth_length (l : list Star) :
  List.length (sort_by_depth l) = List.length l.
Proof.
  unfold sort_by_depth.
  induction l as [|s l IH]; simpl; [reflexivity|].
  rewrite insert_by_depth_length. now rewrite IH.
Qed.

Lemma sort_by_depth_Forall (P : Star -> Prop) (l : list Star) :
  Forall P l -> Forall P (sort_by_depth l).
Proof.
  unfold sort_by_depth.
  induction 1 as [|s l Hs Hl IH]; simpl; [constructor|].
  apply insert_by_depth_Forall; assumption.
Qed.

Lemma buildStarList_length (lowEnd : bool) (cw ch : Q) (k : nat) :
  List.length (fst (buildStarList random PI props lowEnd cw ch k))
  = list_sum (map (fun l => turns (layerCount (starCount props lowEnd cw ch) l)) layers).
Proof.
  unfold buildStarList, bind.
  pose proof (seedLayers_length cw ch (starCount props lowEnd cw ch) layers k) as H.
  destruct (seedLayers _ _ _ _ _ _ layers k) as [stars k1]. simpl in *.
  now rewrite sort_by_depth_length.
Qed.

Lemma buildStarList_inBox (lowEnd : bool) (cw ch : Q) (k : nat) :
  0 <= cw -> 0 <= ch ->
  Forall (inBox cw ch) (fst (buildStarList random PI props lowEnd cw ch k)).
Proof.
  intros Hw Hh. unfold buildStarList, bind.
  pose proof (seedLayers_inBox cw ch (starCount props lowEnd cw ch) layers k Hw Hh) as H.
  destruct (seedLayers _ _ _ _ _ _ layers k) as [stars k1]. simpl in *.
  now apply sort_by_depth_Forall.
Qed.

(** The stars and the size [resize] leaves in the refs. *)
Lemma resize_stars (wd : World) :
  let cw := Math_max 1 (Math_floor (width (canvasRect (env wd)))) in
  let ch := Math_max 1 (Math_floor (height (canvasRect (env wd)))) in
  let wd' := resize random PI props wd in
  starsRef (refs wd')
    = fst (buildStarList random PI props (isLowEndDevice (env wd)) cw ch (rng wd))
  /\ w (dimsRef (refs wd')) = cw /\ h (dimsRef (refs wd')) = ch
  /\ shotsRef (refs wd') = [] /\ env wd' = env wd /\ host wd' = host wd.
Proof.
  cbv zeta. unfold resize, updateExcludeRects, buildStars, set_refs. cbn.
  destruct (buildStarList _ _ _ _ _ _ _) as [stars k]. cbn. repeat split.
Qed.

Lemma mount_stars (e : Env) (seed : nat) :
  let cw := Math_max 1 (Math_floor (width (canvasRect e))) in
  let ch := Math_max 1 (Math_floor (height (canvasRect e))) in
  let wd := mount random PI props e seed in
  starsRef (refs wd)
    = fst (buildStarList random PI props (isLowEndDevice e) cw ch seed)
  /\ w (dimsRef (refs wd)) = cw /\ h (dimsRef (refs wd)) = ch
  /\ shotsRef (refs wd) = [].
Proof.
  cbv zeta. unfold mount.
  set (wd0 := {| env := e; host := Host.empty; refs := initialRefs e; rng := seed |}).
  destruct (resize_stars wd0) as (Hs & Hw & Hh & Hsh & He & Hho).
  set (wd1 := resize random PI props wd0) in *.
  destruct (gtb (shootingFrequency props) 0); cbn; auto.
Qed.


(** The size [resize] stores is at least 1 by 1. *)
Lemma resize_dims_pos (wd : World) :
  1 <= w (dimsRef (refs (resize random PI props wd)))
  /\ 1 <= h (dimsRef (refs (resize random PI props wd))).
Proof.
  destruct (resize_stars wd) as (_ & Hw & Hh & _).
  rewrite Hw, Hh. split; apply max_one_pos.
Qed.

Lemma inBox_withinMargin (cw ch : Q) (s : Star) :
  inBox cw ch s -> withinMargin 20 cw ch s.
Proof. unfold inBox, withinMargin. intros [[? ?] [? ?]]. repeat split; lra. Qed.

(** The wrap leaves a coordinate between the two re-entry points. *)
Lemma star_wrap_range (size pos base : Q) :
  0 <= size -> - (20) <= fst (wrap size pos base) /\ fst (wrap size pos base) <= size + 20.
Proof.
  intro Hs. unfold wrap.
  destruct (ltb pos (-20)) eqn:E1.
  - destruct (gtb (size + 20) (size + 20)) eqn:E2; cbn [fst].
    + apply gtb_gt in E2. lra.
    + lra.
  - apply ltb_ge in E1.
    destruct (gtb pos (size + 20)) eqn:E2; cbn [fst].
    + lra.
    + apply gtb_le in E2. lra.
Qed.

Lemma drawStar_fields (cw ch dt : Q) (s : Star) (k : nat) :
  let s' := fst (drawStar random cw ch dt s k) in
  x s' = fst (wrap cw (x s + vx s * dt) (baseX s))
  /\ baseX s' = snd (wrap cw (x s + vx s * dt) (baseX s))
  /\ y s' = fst (wrap ch (y s + vy s * dt) (baseY s))
  /\ baseY s' = snd (wrap ch (y s + vy s * dt) (baseY s))
  /\ r s' = r s /\ vx s' = vx s /\ vy s' = vy s.
Proof.
  cbv zeta. unfold drawStar.
  destruct (wrap cw _ _) as [x' bx']. destruct (wrap ch _ _) as [y' by'].
  destruct (isBright s).
  - cbv [rand Math_random bind ret]. destruct (ltb _ _); cbn; repeat split.
  - cbn. repeat split.
Qed.

Lemma drawStar_withinMargin (cw ch dt : Q) (s : Star) (k : nat) :
  0 <= cw -> 0 <= ch ->
  withinMargin 20 cw ch (fst (drawStar random cw ch dt s k)).
Proof.
  intros Hw Hh.
  destruct (drawStar_fields cw ch dt s k) as (Hx & _ & Hy & _).
  unfold withinMargin. rewrite Hx, Hy.
  split; apply star_wrap_range; assumption.
Qed.

(** The refs a frame callback leaves, in the two branches of [draw]. *)
Lemma draw_refs (now : Q) (wd : World) :
  let rf := refs (draw random now wd) in
  dimsRef rf = dimsRef (refs wd)
  /\ (if hiddenRef (refs wd)
      then starsRef rf = starsRef (refs wd) /\ shotsRef rf = shotsRef (refs wd)
      else starsRef rf
             = fst (mapM (drawStar random (w (dimsRef (refs wd))) (h (dimsRef (refs wd)))
                            (Math_min 40 (now - lastTimeRef (refs wd))))
                         (starsRef (refs wd)) (rng wd))
           /\ shotsRef rf
             = flat_map (drawShot (Math_min 40 (now - lastTimeRef (refs wd))))
                        (shotsRef (refs wd))).
Proof.
  cbv zeta. unfold draw. cbn [set_refs refs with_lastTime hiddenRef].
  destruct (hiddenRef (refs wd)).
  - unfold request_draw. cbn. repeat split.
  - cbn [dimsRef starsRef shotsRef rng].
    destruct (mapM _ _ _) as [stars n].
    unfold request_draw. cbn. repeat split.
Qed.

(** A property of the refs that every listener and the frame callback keep
    holds after any sequence of events. *)
Lemma run_refs_invariant (P : Refs -> Prop) :
  (forall ev hd wd, P (refs wd) -> P (refs (call random PI props ev hd wd))) ->
  (forall now wd, P (refs wd) -> P (refs (draw random now wd))) ->
  forall evs wd, P (refs wd) -> P (refs (run random PI props wd evs)).
Proof.
  intros Hcall Hdraw.
  assert (Hdisp : forall tg ty ev wd,
             P (refs wd) -> P (refs (dispatch random PI props tg ty ev wd))).
  { intros tg ty ev wd. unfold dispatch.
    generalize (Host.handlers_for tg ty (host wd)). intro hs.
    revert wd. induction hs as [|hd hs IH]; intros wd H; simpl; auto. }
  assert (Hframe : forall now wd, P (refs wd) -> P (refs (run_frame random now wd))).
  { intros now wd H. unfold run_frame, Host.take_frames.
    generalize (Host.frames (host wd)). intro batch.
    match goal with |- P (refs (fold_left _ _ ?w0)) =>
      assert (H0 : P (refs w0)) by exact H; revert H0; generalize w0 end.
    induction batch as [|[i cb] batch IH]; intros w0 H0; simpl; auto.
    apply IH. destruct cb. auto. }
  induction evs as [|ev evs IH]; intros wd H; simpl; auto.
  apply IH. unfold step. destruct ev; auto.
Qed.

Lemma mount_starsNear (e : Env) (seed : nat) :
  starsNear (refs (mount random PI props e seed)).
Proof.
  destruct (mount_stars e seed) as (Hs & Hw & Hh & _).
  unfold starsNear. rewrite Hs, Hw, Hh.
  pose proof (max_one_pos (Math_floor (width (canvasRect e)))) as H1.
  pose proof (max_one_pos (Math_floor (height (canvasRect e)))) as H2.
  split; [split; assumption|].
  eapply Forall_impl; [apply inBox_withinMargin|].
  apply buildStarList_inBox; lra.
Qed.

Lemma call_starsNear (ev : Event) (hd : Hd) (wd : World) :
  starsNear (refs wd) -> starsNear (refs (call random PI props ev hd wd)).
Proof.
  intro H. destruct hd; cbn [call].
  - destruct (resize_stars wd) as (Hs & Hw & Hh & _).
    unfold starsNear. rewrite Hs, Hw, Hh.
    pose proof (max_one_pos (Math_floor (width (canvasRect (env wd))))) as H1.
    pose proof (max_one_pos (Math_floor (height (canvasRect (env wd))))) as H2.
    split; [split; assumption|].
    eapply Forall_impl; [apply inBox_withinMargin|].
    apply buildStarList_inBox; lra.
  - exact H.
  - destruct ev; exact H.
  - exact H.
Qed.

Lemma draw_starsNear (now : Q) (wd : World) :
  starsNear (refs wd) -> starsNear (refs (draw random now wd)).
Proof.
  intros [[Hw Hh] Hall].
  destruct (draw_refs now wd) as (Hd & Hb).
  unfold starsNear. rewrite Hd. split; [split; assumption|].
  destruct (hiddenRef (refs wd)).
  - destruct Hb as [Hs _]. rewrite Hs. exact Hall.
  - destruct Hb as [Hs _]. rewrite Hs.
    apply mapM_Forall. intros s k. apply drawStar_withinMargin; lra.
Qed.

(** Stars: after mount and any sequence of events every star is at most
    20 px outside the canvas. *)
Lemma stars_stay_near (e : Env) (seed : nat) (evs : list Event) :
  let rf := refs (run random PI props (mount random PI props e seed) evs) in
  Forall (withinMargin 20 (w (dimsRef rf)) (h (dimsRef rf))) (starsRef rf).
Proof.
  cbv zeta.
  apply (run_refs_invariant starsNear call_starsNear draw_starsNear).
  apply mount_starsNear.
Qed.


(** A shot is dropped by the first frame that takes its age past its life. *)
Lemma drawShot_expires (dt : Q) (p : Shot) :
  life p < age p + dt -> drawShot dt p = [].
Proof.
  intro H. unfold drawShot. apply gtb_gt in H. now rewrite H.
Qed.

(** C9: with density 7 and at most 280 stars on a canvas of 1000 by 800,
    mounting the starfield seeds at least one and at most 280 stars, each of
    them inside [0, 1000] x [0, 800]. *)
Theorem seed_1000x800_count_and_box (e : Env) (seed : nat) :
  density props = 7 -> maxStars props = 280 ->
  width (canvasRect e) = 1000 -> height (canvasRect e) = 800 ->
  let stars := starsRef (refs (mount random PI props e seed)) in
  (0 < List.length stars)%nat /\ (List.length stars <= 280)%nat
  /\ Forall (inBox 1000 800) stars.
Proof.
  intros Hd Hm Hw Hh. cbv zeta.
  destruct (mount_stars e seed) as (Hs & _). rewrite Hs, Hw, Hh.
  change (Math_max 1 (Math_floor 1000)) with 1000.
  change (Math_max 1 (Math_floor 800)) with 800.
  rewrite buildStarList_length.
  unfold starCount. rewrite Hd, Hm.
  split; [|split].
  - destruct (isLowEndDevice e); vm_compute; lia.
  - destruct (isLowEndDevice e); vm_compute; lia.
  - apply buildStarList_inBox; lra.
Qed.

(** C2, as the code has it: a coordinate that has moved more than 20 px past
    an edge becomes exactly the coordinate 20 px outside the opposite edge,
    and the base coordinate with it, whatever the distance by which the edge
    was passed; a coordinate within 20 px of the canvas is the old one plus
    velocity times elapsed time. *)
Theorem drawStar_wrap_snaps (cw ch dt : Q) (s : Star) (k : nat) :
  0 <= cw -> 0 <= ch ->
  let s' := fst (drawStar random cw ch dt s k) in
  let nx := x s + vx s * dt in
  let ny := y s + vy s * dt in
  ((nx < -20 -> x s' = cw + 20 /\ baseX s' = cw + 20)
   /\ (cw + 20 < nx -> x s' = -20 /\ baseX s' = -20)
   /\ (-20 <= nx /\ nx <= cw + 20 -> x s' = nx /\ baseX s' = baseX s))
  /\
  ((ny < -20 -> y s' = ch + 20 /\ baseY s' = ch + 20)
   /\ (ch + 20 < ny -> y s' = -20 /\ baseY s' = -20)
   /\ (-20 <= ny /\ ny <= ch + 20 -> y s' = ny /\ baseY s' = baseY s)).
Proof.
  intros Hw Hh. cbv zeta.
  destruct (drawStar_fields cw ch dt s k) as (Hx & Hbx & Hy & Hby & _).
  rewrite Hx, Hbx, Hy, Hby. clear Hx Hbx Hy Hby.
  assert (W : forall size pos base, 0 <= size ->
            (pos < -20 -> fst (wrap size pos base) = size + 20
                          /\ snd (wrap size pos base) = size + 20)
            /\ (size + 20 < pos -> fst (wrap size pos base) = -20
                                   /\ snd (wrap size pos base) = -20)
            /\ (-20 <= pos /\ pos <= size + 20 ->
                fst (wrap size pos base) = pos /\ snd (wrap size pos base) = base)).
  { intros size pos base Hs. unfold wrap. repeat split.
    - apply ltb_lt in H. rewrite H.
      destruct (gtb (size + 20) (size + 20)) eqn:E; [|reflexivity].
      apply gtb_gt in E. lra.
    - apply ltb_lt in H. rewrite H.
      destruct (gtb (size + 20) (size + 20)) eqn:E; [|reflexivity].
      apply gtb_gt in E. lra.
    - assert (E : ltb pos (-20) = false) by (apply ltb_ge; lra).
      rewrite E. apply gtb_gt in H. now rewrite H.
    - assert (E : ltb pos (-20) = false) by (apply ltb_ge; lra).
      rewrite E. apply gtb_gt in H. now rewrite H.
    - destruct H as [H1 H2].
      assert (E : ltb pos (-20) = false) by (apply ltb_ge; lra).
      assert (F : gtb pos (size + 20) = false) by (apply gtb_le; lra).
      now rewrite E, F.
    - destruct H as [H1 H2].
      assert (E : ltb pos (-20) = false) by (apply ltb_ge; lra).
      assert (F : gtb pos (size + 20) = false) by (apply gtb_le; lra).
      now rewrite E, F. }
  split; apply W; assumption.
Qed.

(** C3, what the code does: [draw] never calls [maybeSpawnShot], the only
    caller of [spawnShot], so whatever the shooting frequency, the frames and
    the random draws, the list of shooting stars of a mounted starfield is
    empty. *)
Theorem shooting_stars_never_spawn (e : Env) (seed : nat) (evs : list Event) :
  shotsRef (refs (run random PI props (mount random PI props e seed) evs)) = [].
Proof.
  apply (run_refs_invariant (fun rf => shotsRef rf = [])).
  - intros ev hd wd H. destruct hd; cbn [call].
    + destruct (resize_stars wd) as (_ & _ & _ & Hsh & _). exact Hsh.
    + exact H.
    + destruct ev; exact H.
    + exact H.
  - intros now wd H. destruct (draw_refs now wd) as (_ & Hb).
    destruct (hiddenRef (refs wd)); destruct Hb as [_ Hs]; rewrite Hs, H; reflexivity.
  - destruct (mount_stars e seed) as (_ & _ & _ & Hsh). exact Hsh.
Qed.

(** *** Frame callbacks and listeners *)

Lemma request_draw_host (wd : World) :
  Host.frames (host (request_draw wd)) = Host.frames (host wd) ++ [(Host.nextId (host wd), CbDraw)]
  /\ Host.listeners (host (request_draw wd)) = Host.listeners (host wd)
  /\ rafRef (refs (request_draw wd)) = Host.nextId (host wd).
Proof. unfold request_draw. cbn. repeat split. Qed.

Lemma draw_host (now : Q) (wd : World) :
  Host.frames (host (draw random now wd)) = Host.frames (host wd) ++ [(Host.nextId (host wd), CbDraw)]
  /\ Host.listeners (host (draw random now wd)) = Host.listeners (host wd)
  /\ rafRef (refs (draw random now wd)) = Host.nextId (host wd).
Proof.
  unfold draw. cbn [set_refs refs with_lastTime hiddenRef].
  destruct (hiddenRef (refs wd)).
  - match goal with |- context [request_draw ?w0] => exact (request_draw_host w0) end.
  - cbn [dimsRef starsRef shotsRef rng]. destruct (mapM _ _ _) as [stars n].
    match goal with |- context [request_draw ?w0] => exact (request_draw_host w0) end.
Qed.

(** No listener touches the browser's tables or [rafRef]. *)
Lemma stars_call_host (ev : Event) (hd : Hd) (wd : World) :
  host (call random PI props ev hd wd) = host wd
  /\ rafRef (refs (call random PI props ev hd wd)) = rafRef (refs wd).
Proof.
  destruct hd; cbn [call].
  - unfold resize, updateExcludeRects, buildStars, set_refs. cbn.
    destruct (buildStarList _ _ _ _ _ _ _) as [stars n]. cbn. split; reflexivity.
  - split; reflexivity.
  - destruct ev; split; reflexivity.
  - split; reflexivity.
Qed.

Lemma stars_dispatch_host (tg : Host.Target) (ty : Host.EventType) (ev : Event) (wd : World) :
  host (dispatch random PI props tg ty ev wd) = host wd
  /\ rafRef (refs (dispatch random PI props tg ty ev wd)) = rafRef (refs wd).
Proof.
  unfold dispatch. generalize (Host.handlers_for tg ty (host wd)). intro hs.
  revert wd. induction hs as [|hd hs IH]; intro wd; simpl.
  - split; reflexivity.
  - destruct (IH (call random PI props ev hd wd)) as [H1 H2].
    destruct (stars_call_host ev hd wd) as [H3 H4]. split; congruence.
Qed.

Lemma stars_mount_live (e : Env) (seed : nat) : live (mount random PI props e seed).
Proof.
  unfold mount.
  set (wd0 := {| env := e; host := Host.empty; refs := initialRefs e; rng := seed |}).
  assert (Hho : host (resize random PI props wd0) = Host.empty)
    by (destruct (resize_stars wd0) as (_ & _ & _ & _ & _ & Hho); exact Hho).
  set (wd1 := resize random PI props wd0) in *. clearbody wd1.
  unfold live.
  destruct (gtb (shootingFrequency props) 0); cbn; rewrite Hho; cbn; split; reflexivity.
Qed.

Lemma stars_step_live (wd : World) (ev : Event) :
  live wd -> live (step random PI props wd ev).
Proof.
  intros [Hf Hl]. unfold step.
  assert (D : forall tg ty wd1, host wd1 = host wd -> refs wd1 = refs wd ->
                live (dispatch random PI props tg ty ev wd1)).
  { intros tg ty wd1 H1 H2. destruct (stars_dispatch_host tg ty ev wd1) as [H3 H4].
    unfold live. rewrite H3, H4, H1, H2. split; assumption. }
  destruct ev; try (apply D; reflexivity);
    [|unfold live; cbn [set_env host refs]; split; assumption].
  unfold run_frame, Host.take_frames. cbn [set_env host set_host env refs rng].
  rewrite Hf. cbn [fold_left].
  match goal with |- live (draw random now ?w0) =>
    destruct (draw_host now w0) as (H1 & H2 & H3) end.
  unfold live. rewrite H1, H2, H3. cbn. split; [reflexivity | exact Hl].
Qed.

Lemma stars_run_live (evs : list Event) (wd : World) :
  live wd -> live (run random PI props wd evs).
Proof.
  revert wd. induction evs as [|ev evs IH]; intros wd H; simpl; auto.
  apply IH, stars_step_live, H.
Qed.

(** The cleanup cancels the pending [draw] and removes the five listeners. *)
Lemma stars_teardown_detached (wd : World) : live wd -> detached (teardown wd).
Proof.
  intros [Hf Hl]. unfold detached, teardown, unlisten, set_host. cbn.
  rewrite Hf, Hl. cbn. rewrite Nat.eqb_refl. cbn. split; reflexivity.
Qed.

(** With nothing pending and nothing attached, no event reaches the effect. *)
Lemma stars_step_detached (wd : World) (ev : Event) :
  detached wd ->
  let wd' := step random PI props wd ev in
  detached wd' /\ refs wd' = refs wd /\ rng wd' = rng wd /\ host wd' = host wd.
Proof.
  intros [Hf Hl]. cbv zeta. unfold step.
  assert (D : forall tg ty wd1, host wd1 = host wd -> refs wd1 = refs wd ->
                rng wd1 = rng wd ->
                let wd' := dispatch random PI props tg ty ev wd1 in
                detached wd' /\ refs wd' = refs wd /\ rng wd' = rng wd /\ host wd' = host wd).
  { intros tg ty wd1 H1 H2 H3. cbv zeta. unfold dispatch, Host.handlers_for.
    rewrite H1, Hl. cbn. unfold detached. rewrite H1. repeat split; assumption. }
  destruct ev; try (apply D; reflexivity);
    [|unfold detached; cbn [set_env host refs rng]; repeat split; assumption].
  unfold run_frame, Host.take_frames. cbn [set_env host set_host env refs rng].
  rewrite Hf. cbn [fold_left]. unfold detached. cbn.
  destruct (host wd) as [fr nid ls]. cbn in *. subst. repeat split.
Qed.

Lemma stars_run_detached (evs : list Event) (wd : World) :
  detached wd ->
  let wd' := run random PI props wd evs in
  detached wd' /\ refs wd' = refs wd /\ rng wd' = rng wd /\ host wd' = host wd.
Proof.
  revert wd. induction evs as [|ev evs IH]; intros wd H; cbv zeta; simpl.
  - repeat split; apply H.
  - destruct (stars_step_detached wd ev H) as (H1 & H2 & H3 & H4).
    destruct (IH _ H1) as (K1 & K2 & K3 & K4).
    repeat split; try apply K1; congruence.
Qed.

End Seeding.
End StarsBgFacts.

(** ** The metaballs *)

Module MetaballsBgFacts.
Import Js JsFacts MetaballsBg.

Section Blobs.
Variable random : nat -> Q.
Variable PI : Q.
Variables cos sin : Q -> Q.
Variable props : Props.
Hypothesis random_range : forall i, 0 <= random i < 1.

(** The quality settings do not depend on what events change. *)
Lemma quality_affect (ev : Event) (e : Env) :
  quality props (affect ev e) = quality props e.
Proof. destruct ev; reflexivity. Qed.

Lemma Math_floor_nonneg (v : Q) : 0 <= v -> 0 <= Math_floor v.
Proof.
  intro H. unfold Math_floor.
  change 0 with (inject_Z 0). rewrite <- Zle_Qle.
  change 0%Z with (Qfloor (inject_Z 0)). apply Qfloor_resp_le. exact H.
Qed.

(** A blob as [seed] makes it: inside the box, with a radius that is not
    negative when neither bound of the radius is. *)
Lemma makeBlob_seeded (q : Quality) (bw bh : Q) (i k : nat) :
  0 <= bw -> 0 <= bh -> 0 <= minR props -> 0 <= maxR props ->
  let b := fst (makeBlob random PI props q bw bh i k) in
  0 <= r b /\ (0 <= x b /\ x b <= bw) /\ (0 <= y b /\ y b <= bh).
Proof.
  intros Hw Hh Hmin Hmax. cbv [makeBlob Math_random bind ret]. cbn [fst r x y].
  pose proof (random_range k) as [A0 A1].
  pose proof (random_range (S k)) as [B0 B1].
  pose proof (random_range (S (S k))) as [C0 C1].
  split; [|split].
  - apply Math_floor_nonneg. nra.
  - split; nra.
  - split; nra.
Qed.

Lemma seeded_withinRadius (bw bh : Q) (b : Blob) :
  0 <= r b /\ (0 <= x b /\ x b <= bw) /\ (0 <= y b /\ y b <= bh) ->
  0 <= r b /\ withinRadius bw bh b.
Proof. unfold withinRadius. intros (? & [? ?] & [? ?]). repeat split; lra. Qed.

(** The wrap leaves a coordinate at most one radius outside. *)
Lemma blob_wrap_range (size rad pos : Q) :
  0 <= size -> 0 <= rad ->
  - rad <= wrap size rad pos /\ wrap size rad pos <= size + rad.
Proof.
  intros Hs Hr. unfold wrap.
  destruct (ltb pos (- rad)) eqn:E1.
  - destruct (gtb (size + rad) (size + rad)) eqn:E2.
    + apply gtb_gt in E2. lra.
    + lra.
  - apply ltb_ge in E1.
    destruct (gtb pos (size + rad)) eqn:E2.
    + lra.
    + apply gtb_le in E2. lra.
Qed.

Lemma moveBlob_withinRadius (bw bh dt : Q) (b : Blob) :
  0 <= bw -> 0 <= bh -> 0 <= r b ->
  0 <= r (moveBlob cos sin bw bh dt b)
  /\ withinRadius bw bh (moveBlob cos sin bw bh dt b).
Proof.
  intros Hw Hh Hr. unfold withinRadius, moveBlob. cbn [r x y].
  split; [exact Hr|]. split; apply blob_wrap_range; assumption.
Qed.

Lemma seed_refs (wd : World) :
  let q := quality props (env wd) in
  let sz := readBox (env wd) in
  let wd' := seed random PI props wd in
  blobsRef (refs wd')
    = fst (for_push (array_length (countToUse q)) 0
                    (makeBlob random PI props q (w sz) (h sz)) (rng wd))
  /\ sizeRef (refs wd') = sz
  /\ host wd' = host wd /\ env wd' = env wd
  /\ rafRef (refs wd') = rafRef (refs wd)
  /\ resizeObserverRef (refs wd') = resizeObserverRef (refs wd).
Proof.
  cbv zeta. unfold seed. destruct (for_push _ _ _ _) as [blobs n]. cbn.
  repeat split.
Qed.

Lemma animate_refs (ts : Q) (wd : World) :
  let rf := refs (animate cos sin ts wd) in
  sizeRef rf = sizeRef (refs wd)
  /\ resizeObserverRef rf = resizeObserverRef (refs wd)
  /\ env (animate cos sin ts wd) = env wd
  /\ (blobsRef rf = blobsRef (refs wd)
      \/ exists dt, blobsRef rf
           = map (moveBlob cos sin (w (sizeRef (refs wd))) (h (sizeRef (refs wd))) dt)
                 (blobsRef (refs wd))).
Proof.
  cbv zeta. unfold animate. destruct (visibilityHidden (env wd)).
  - cbn. repeat split. left. reflexivity.
  - cbn. repeat split. right. eexists. reflexivity.
Qed.

Lemma call_env (hd : Hd) (wd : World) : env (call random PI props hd wd) = env wd.
Proof.
  destruct hd; cbn [call].
  - apply seed_refs.
  - unfold handleVisibility. destruct (visibilityHidden (env wd)); reflexivity.
Qed.

(** A property of the environment and the refs that the two listeners and
    the frame callback keep, and that does not look at what events change in
    the environment, holds after any sequence of events. *)
Lemma run_invariant (P : Env -> Refs -> Prop) :
  (forall ev e rf, P e rf -> P (affect ev e) rf) ->
  (forall hd wd, P (env wd) (refs wd) ->
                 P (env wd) (refs (call random PI props hd wd))) ->
  (forall ts wd, P (env wd) (refs wd) -> P (env wd) (refs (animate cos sin ts wd))) ->
  forall evs wd, P (env wd) (refs wd) ->
    P (env (run random PI cos sin props wd evs)) (refs (run random PI cos sin props wd evs)).
Proof.
  intros Haff Hcall Hanim.
  assert (Hdisp : forall tg ty wd, P (env wd) (refs wd) ->
             P (env (dispatch random PI props tg ty wd))
               (refs (dispatch random PI props tg ty wd))).
  { intros tg ty wd. unfold dispatch.
    generalize (Host.handlers_for tg ty (host wd)). intro hs.
    revert wd. induction hs as [|hd hs IH]; intros wd H; simpl; auto.
    apply IH. rewrite call_env. auto. }
  assert (Hframe : forall ts wd, P (env wd) (refs wd) ->
             P (env (run_frame cos sin ts wd)) (refs (run_frame cos sin ts wd))).
  { intros ts wd H. unfold run_frame, Host.take_frames.
    generalize (Host.frames (host wd)). intro batch.
    match goal with |- P (env (fold_left _ _ ?w0)) _ =>
      assert (H0 : P (env w0) (refs w0)) by exact H; revert H0; generalize w0 end.
    induction batch as [|[i cb] batch IH]; intros w0 H0; simpl; auto.
    apply IH. destruct cb.
    destruct (animate_refs ts w0) as (_ & _ & He & _). rewrite He. auto. }
  induction evs as [|ev evs IH]; intros wd H; simpl; auto.
  apply IH. unfold step.
  set (wd1 := {| env := affect ev (env wd); host := host wd;
                 refs := refs wd; rng := rng wd |}).
  assert (H1 : P (env wd1) (refs wd1)) by (apply Haff; exact H).
  destruct ev; auto.
Qed.


Lemma mount_refs (e : Env) (seed0 : nat) :
  let wd0 := {| env := e; host := Host.empty; refs := initialRefs; rng := seed0 |} in
  let wd := mount random PI props e seed0 in
  blobsRef (refs wd) = blobsRef (refs (seed random PI props wd0))
  /\ sizeRef (refs wd) = readBox e /\ env wd = e.
Proof.
  cbv zeta. unfold mount.
  set (wd0 := {| env := e; host := Host.empty; refs := initialRefs; rng := seed0 |}).
  destruct (seed_refs wd0) as (_ & Hsz & _ & He & _).
  set (wd1 := seed random PI props wd0) in *. clearbody wd1.
  destruct (hasResizeObserver e); cbn; repeat split; assumption.
Qed.

Lemma seed_blobsNear (wd : World) :
  0 <= minR props -> 0 <= maxR props ->
  blobsNear (refs (seed random PI props wd)).
Proof.
  intros Hmin Hmax.
  destruct (seed_refs wd) as (Hb & Hsz & _).
  unfold blobsNear. rewrite Hb, Hsz. unfold readBox. cbn [w h].
  pose proof (max_one_pos (boxWidth (env wd))) as H1.
  pose proof (max_one_pos (boxHeight (env wd))) as H2.
  split; [split; assumption|].
  apply for_push_Forall. intros i k.
  apply seeded_withinRadius. apply makeBlob_seeded; lra.
Qed.

(** Metaballs: after mount and any sequence of events every blob is at most
    its radius outside the container. *)
Lemma blobs_stay_near (e : Env) (seed0 : nat) (evs : list Event) :
  0 <= minR props -> 0 <= maxR props ->
  let rf := refs (run random PI cos sin props (mount random PI props e seed0) evs) in
  Forall (withinRadius (w (sizeRef rf)) (h (sizeRef rf))) (blobsRef rf).
Proof.
  intros Hmin Hmax. cbv zeta.
  assert (H : blobsNear (refs (run random PI cos sin props
                                 (mount random PI props e seed0) evs))).
  { apply (run_invariant (fun _ rf => blobsNear rf)).
    - auto.
    - intros hd wd H. destruct hd; cbn [call].
      + apply seed_blobsNear; assumption.
      + unfold handleVisibility. destruct (visibilityHidden (env wd)); exact H.
    - intros ts wd [[Hw Hh] Hall].
      destruct (animate_refs ts wd) as (Hsz & _ & _ & Hb).
      unfold blobsNear. rewrite Hsz. split; [split; assumption|].
      destruct Hb as [Hb | [dt Hb]]; rewrite Hb; [exact Hall|].
      apply Forall_map. eapply Forall_impl; [|exact Hall].
      intros b [Hr _]. apply moveBlob_withinRadius; lra.
    - destruct (mount_refs e seed0) as (Hb & Hsz & _).
      pose proof (seed_blobsNear
                    {| env := e; host := Host.empty; refs := initialRefs; rng := seed0 |}
                    Hmin Hmax) as [Hd Hall].
      destruct (seed_refs {| env := e; host := Host.empty; refs := initialRefs;
                             rng := seed0 |}) as (_ & Hsz' & _).
      unfold blobsNear. rewrite Hb, Hsz. rewrite Hsz' in Hd, Hall.
      split; assumption. }
  destruct H as [_ H]. eapply Forall_impl; [|exact H]. intros b [_ Hb]. exact Hb.
Qed.


(** *** Frame callbacks and listeners *)

Lemma request_animate_host (wd : World) :
  let wd' := request_animate wd in
  Host.frames (host wd') = Host.frames (host wd) ++ [(Host.nextId (host wd), CbAnimate)]
  /\ Host.listeners (host wd') = Host.listeners (host wd)
  /\ Host.nextId (host wd') = S (Host.nextId (host wd))
  /\ rafRef (refs wd') = Host.nextId (host wd)
  /\ resizeObserverRef (refs wd') = resizeObserverRef (refs wd).
Proof. cbv zeta. unfold request_animate. cbn. repeat split. Qed.

Lemma animate_host (ts : Q) (wd : World) :
  let wd' := animate cos sin ts wd in
  Host.frames (host wd') = Host.frames (host wd) ++ [(Host.nextId (host wd), CbAnimate)]
  /\ Host.listeners (host wd') = Host.listeners (host wd)
  /\ Host.nextId (host wd') = S (Host.nextId (host wd))
  /\ rafRef (refs wd') = Host.nextId (host wd)
  /\ resizeObserverRef (refs wd') = resizeObserverRef (refs wd).
Proof.
  cbv zeta. unfold animate. destruct (visibilityHidden (env wd)).
  - cbn. repeat split.
  - match goal with |- context [request_animate ?w0] =>
      exact (request_animate_host w0) end.
Qed.

(** No listener touches the browser's tables, [rafRef] or the observer. *)
Lemma blobs_call_host (hd : Hd) (wd : World) :
  let wd' := call random PI props hd wd in
  host wd' = host wd /\ rafRef (refs wd') = rafRef (refs wd)
  /\ resizeObserverRef (refs wd') = resizeObserverRef (refs wd).
Proof.
  cbv zeta. destruct hd; cbn [call].
  - destruct (seed_refs wd) as (_ & _ & H1 & _ & H2 & H3). auto.
  - unfold handleVisibility. destruct (visibilityHidden (env wd)); cbn; auto.
Qed.

Lemma blobs_dispatch_host (tg : Host.Target) (ty : Host.EventType) (wd : World) :
  let wd' := dispatch random PI props tg ty wd in
  host wd' = host wd /\ rafRef (refs wd') = rafRef (refs wd)
  /\ resizeObserverRef (refs wd') = resizeObserverRef (refs wd).
Proof.
  cbv zeta. unfold dispatch. generalize (Host.handlers_for tg ty (host wd)). intro hs.
  revert wd. induction hs as [|hd hs IH]; intro wd; simpl.
  - auto.
  - destruct (IH (call random PI props hd wd)) as (H1 & H2 & H3).
    destruct (blobs_call_host hd wd) as (H4 & H5 & H6). repeat split; congruence.
Qed.

Lemma blobs_mount_live (e : Env) (seed0 : nat) : live (mount random PI props e seed0).
Proof.
  unfold mount.
  set (wd0 := {| env := e; host := Host.empty; refs := initialRefs; rng := seed0 |}).
  assert (Hho : host (seed random PI props wd0) = Host.empty)
    by (destruct (seed_refs wd0) as (_ & _ & Hho & _); exact Hho).
  set (wd1 := seed random PI props wd0) in *. clearbody wd1.
  unfold live.
  destruct (hasResizeObserver e); cbn; rewrite Hho; cbn;
    (split; [reflexivity | split; [discriminate | split; [discriminate |]]]).
  - exists RealObserver. split; reflexivity.
  - exists WindowFallback. split; reflexivity.
Qed.

Lemma blobs_step_live (wd : World) (ev : Event) :
  live wd -> live (step random PI cos sin props wd ev).
Proof.
  intros (Hf & Hr & Hn & k & Hk & Hl). unfold step.
  set (wd1 := {| env := affect ev (env wd); host := host wd;
                 refs := refs wd; rng := rng wd |}).
  assert (L1 : live wd1).
  { unfold live, wd1. cbn. repeat split; try assumption. exists k. auto. }
  assert (D : forall tg ty w0, live w0 -> live (dispatch random PI props tg ty w0)).
  { intros tg ty w0 (Kf & Kr & Kn & k0 & Kk & Kl).
    destruct (blobs_dispatch_host tg ty w0) as (H1 & H2 & H3).
    unfold live. rewrite H1, H2, H3. repeat split; try assumption. exists k0. auto. }
  destruct ev; auto.
  unfold run_frame, Host.take_frames. subst wd1. cbn [host set_host env refs rng affect].
  rewrite Hf. cbn [fold_left].
  match goal with |- live (animate cos sin ts ?w0) =>
    destruct (animate_host ts w0) as (H1 & H2 & H3 & H4 & H5) end.
  unfold live. rewrite H1, H2, H3, H4, H5. cbn.
  repeat split; try assumption; try discriminate. exists k. auto.
Qed.

Lemma blobs_run_live (evs : list Event) (wd : World) :
  live wd -> live (run random PI cos sin props wd evs).
Proof.
  revert wd. induction evs as [|ev evs IH]; intros wd H; simpl; auto.
  apply IH, blobs_step_live, H.
Qed.

(** The cleanup cancels the pending [animate], disconnects the observer and
    removes the visibility listener. *)
Lemma blobs_teardown_detached (wd : World) : live wd -> detached (teardown wd).
Proof.
  intros (Hf & Hr & Hn & k & Hk & Hl). unfold detached, teardown.
  apply Nat.eqb_neq in Hr. rewrite Hr. cbn. rewrite Hk. cbn.
  destruct k; cbn; rewrite Hf, Hl; cbn; rewrite Nat.eqb_refl; cbn; split; reflexivity.
Qed.

(** With nothing pending and nothing attached, no event reaches the effect. *)
Lemma blobs_step_detached (wd : World) (ev : Event) :
  detached wd ->
  let wd' := step random PI cos sin props wd ev in
  detached wd' /\ refs wd' = refs wd /\ rng wd' = rng wd /\ host wd' = host wd.
Proof.
  intros [Hf Hl]. cbv zeta. unfold step.
  set (wd1 := {| env := affect ev (env wd); host := host wd;
                 refs := refs wd; rng := rng wd |}).
  assert (D : forall tg ty w0, host w0 = host wd -> refs w0 = refs wd ->
                rng w0 = rng wd ->
                let wd' := dispatch random PI props tg ty w0 in
                detached wd' /\ refs wd' = refs wd /\ rng wd' = rng wd /\ host wd' = host wd).
  { intros tg ty w0 H1 H2 H3. cbv zeta. unfold dispatch, Host.handlers_for.
    rewrite H1, Hl. cbn. unfold detached. rewrite H1. repeat split; assumption. }
  destruct ev; try (apply D; reflexivity).
  - unfold run_frame, Host.take_frames. subst wd1. cbn [host set_host env refs rng].
    rewrite Hf. cbn [fold_left]. unfold detached. cbn.
    destruct (host wd) as [fr nid ls]. cbn in *. subst. repeat split.
  - unfold detached. subst wd1. cbn [host refs rng]. repeat split; assumption.
Qed.

Lemma blobs_run_detached (evs : list Event) (wd : World) :
  detached wd ->
  let wd' := run random PI cos sin props wd evs in
  detached wd' /\ refs wd' = refs wd /\ rng wd' = rng wd /\ host wd' = host wd.
Proof.
  revert wd. induction evs as [|ev evs IH]; intros wd H; cbv zeta; simpl.
  - repeat split; apply H.
  - destruct (blobs_step_detached wd ev H) as (H1 & H2 & H3 & H4).
    destruct (IH _ H1) as (K1 & K2 & K3 & K4).
    repeat split; try apply K1; congruence.
Qed.





Lemma Qmax_inject_Z (a b : Z) :
  Math_max (inject_Z a) (inject_Z b) = inject_Z (Z.max a b).
Proof.
  unfold Math_max, Qmax, GenericMinMax.gmax, Qcompare, Z.max. cbn.
  rewrite !Z.mul_1_r. destruct (a ?= b)%Z; reflexivity.
Qed.



(** The render throws when the effective count is not a whole number. *)
Lemma render_fraction (e : Env) :
  ~ countToUse (quality props e) == inject_Z (Qfloor (countToUse (quality props e))) ->
  render props e = None.
Proof.
  intro H. unfold render, Array_new. cbv zeta.
  destruct (Qeq_bool (countToUse (quality props e)) 0) eqn:Z0.
  - exfalso. apply H. apply Qeq_bool_iff in Z0.
    rewrite (Qfloor_comp _ _ Z0). rewrite Z0. reflexivity.
  - destruct (Qeq_bool _ (inject_Z _)) eqn:W; [|reflexivity].
    exfalso. apply H. apply Qeq_bool_iff. exact W.
Qed.



End Blobs.
End MetaballsBgFacts.

(** ** Both particle effects *)

Module EffectsLayer.
Import Js.

Section Particles.
Variable random : nat -> Q.
Variable PI : Q.
Variables cos sin : Q -> Q.
Hypothesis random_range : forall i, 0 <= random i < 1.

(** C1, as the code has it: after mount and any number of frames, resizes
    and other events, every blob of the metaballs is at most its own radius
    outside its container, provided the bounds of the radius are not
    negative; every star of the starfield is at most 20 px outside the canvas,
    the margin of its wrap being the constant 20 and not the star's radius. *)
Theorem particles_stay_near_the_visible_area :
  (forall (props : MetaballsBg.Props) (e : MetaballsBg.Env) (seed : nat)
          (evs : list MetaballsBg.Event),
      0 <= MetaballsBg.minR props -> 0 <= MetaballsBg.maxR props ->
      let rf := MetaballsBg.refs
                  (MetaballsBg.run random PI cos sin props
                     (MetaballsBg.mount random PI props e seed) evs) in
      Forall (fun b =>
                (0 - MetaballsBg.r b <= MetaballsBg.x b
                 /\ MetaballsBg.x b <= MetaballsBg.w (MetaballsBg.sizeRef rf) + MetaballsBg.r b)
                /\ (0 - MetaballsBg.r b <= MetaballsBg.y b
                    /\ MetaballsBg.y b <= MetaballsBg.h (MetaballsBg.sizeRef rf) + MetaballsBg.r b))
             (MetaballsBg.blobsRef rf))
  /\
  (forall (props : StarsBg.Props) (e : StarsBg.Env) (seed : nat)
          (evs : list StarsBg.Event),
      let rf := StarsBg.refs
                  (StarsBg.run random PI props
                     (StarsBg.mount random PI props e seed) evs) in
      Forall (fun s =>
                (0 - 20 <= StarsBg.x s
                 /\ StarsBg.x s <= StarsBg.w (StarsBg.dimsRef rf) + 20)
                /\ (0 - 20 <= StarsBg.y s
                    /\ StarsBg.y s <= StarsBg.h (StarsBg.dimsRef rf) + 20))
             (StarsBg.starsRef rf)).
Proof.
  split.
  - intros props e seed evs Hmin Hmax. cbv zeta.
    eapply Forall_impl;
      [| exact (MetaballsBgFacts.blobs_stay_near random PI cos sin props random_range
                  e seed evs Hmin Hmax)].
    unfold MetaballsBg.withinRadius. intros b [[? ?] [? ?]]. repeat split; lra.
  - intros props e seed evs. cbv zeta.
    eapply Forall_impl;
      [| exact (StarsBgFacts.stars_stay_near random PI props random_range e seed evs)].
    unfold StarsBg.withinMargin. intros s [[? ?] [? ?]]. repeat split; lra.
Qed.

(** The starfield and the metaballs clean up completely: once the cleanup of
    either has run, whatever happened between mount and cleanup, no frame
    callback is pending and no listener is attached; and whatever the browser
    does afterwards, frames included, the refs of the effect, its random
    draws and the browser's tables stay as the cleanup left them. *)
Theorem teardown_leaves_nothing_behind :
  (forall (props : StarsBg.Props) (e : StarsBg.Env) (seed : nat)
          (before after : list StarsBg.Event),
      let wd := StarsBg.teardown
                  (StarsBg.run random PI props
                     (StarsBg.mount random PI props e seed) before) in
      let wd' := StarsBg.run random PI props wd after in
      Host.frames (StarsBg.host wd) = [] /\ Host.listeners (StarsBg.host wd) = []
      /\ Host.frames (StarsBg.host wd') = [] /\ Host.listeners (StarsBg.host wd') = []
      /\ StarsBg.refs wd' = StarsBg.refs wd /\ StarsBg.rng wd' = StarsBg.rng wd)
  /\
  (forall (props : MetaballsBg.Props) (e : MetaballsBg.Env) (seed : nat)
          (before after : list MetaballsBg.Event),
      let wd := MetaballsBg.teardown
                  (MetaballsBg.run random PI cos sin props
                     (MetaballsBg.mount random PI props e seed) before) in
      let wd' := MetaballsBg.run random PI cos sin props wd after in
      Host.frames (MetaballsBg.host wd) = [] /\ Host.listeners (MetaballsBg.host wd) = []
      /\ Host.frames (MetaballsBg.host wd') = [] /\ Host.listeners (MetaballsBg.host wd') = []
      /\ MetaballsBg.refs wd' = MetaballsBg.refs wd
      /\ MetaballsBg.rng wd' = MetaballsBg.rng wd).
Proof.
  split.
  - intros props e seed before after. cbv zeta.
    pose proof (StarsBgFacts.stars_teardown_detached _
                  (StarsBgFacts.stars_run_live random PI props before _
                     (StarsBgFacts.stars_mount_live random PI props e seed))) as D.
    destruct (StarsBgFacts.stars_run_detached random PI props after _ D)
      as ([F L] & R & G & _).
    destruct D as [F0 L0]. repeat split; assumption.
  - intros props e seed before after. cbv zeta.
    pose proof (MetaballsBgFacts.blobs_teardown_detached _
                  (MetaballsBgFacts.blobs_run_live random PI cos sin props before _
                     (MetaballsBgFacts.blobs_mount_live random PI props e seed))) as D.
    destruct (MetaballsBgFacts.blobs_run_detached random PI cos sin props after _ D)
      as ([F L] & R & G & _).
    destruct D as [F0 L0]. repeat split; assumption.
Qed.

End Particles.
End EffectsLayer.

(** ** The particle loader *)

Module DThreeLoaderFacts.
Import DThreeLoader.

Section Loader.
Variable props : Props.

Lemma mount_still (e : Env) : matchMedia e = Some true -> still (mount e).
Proof.
  intro H. unfold still, mount, prefersReduced. rewrite H.
  destruct (hasWindow e); cbn; repeat split.
Qed.

Lemma step_still (wd : World) (ev : Event) : still wd -> still (step props wd ev).
Proof.
  intros (Hc & Hlog & Hi & Hf & Hn & Hl). unfold step, still.
  destruct ev.
  - unfold run_frame, Host.take_frames. cbn [set_env host]. rewrite Hf. cbn.
    repeat split; assumption.
  - cbn [set_env initPending]. rewrite Hi. cbn. repeat split; assumption.
  - cbn [set_env initPending]. rewrite Hi. cbn. repeat split; assumption.
  - unfold Host.handlers_for. cbn [set_env host]. rewrite Hl. cbn.
    repeat split; assumption.
  - cbn. repeat split; assumption.
  - unfold unmount, Host.removeEventListener, Host.cancelAnimationFrame.
    cbn [set_env host container hasCleanup raf initPending log]. rewrite Hc, Hl, Hf.
    destruct (hasCleanup wd); [destruct (raf wd) as [h|]; [destruct (Nat.eqb h 0)|]|];
      cbn; repeat split; assumption.
Qed.

(** C5: when the reduced-motion preference is reported at mount, then after
    the mount and whatever follows (frames, resizes, the arrival of a
    module), the container still holds the static fallback shape, no import,
    renderer, shape sampling or buffer was started, and no frame callback was
    ever requested. *)
Theorem reduced_motion_keeps_static_fallback (e : Env) (evs : list Event) :
  matchMedia e = Some true ->
  let wd := run props (mount e) evs in
  container wd = [FallbackSvg]
  /\ log wd = []
  /\ Host.frames (host wd) = []
  /\ Host.nextId (host wd) = Host.nextId (@Host.empty Cb Hd)
  /\ Host.listeners (host wd) = [].
Proof.
  intro H. cbv zeta.
  assert (S : still (run props (mount e) evs)).
  { generalize (mount_still e H). generalize (mount e).
    induction evs as [|ev evs IH]; intros wd Hs; simpl; auto.
    apply IH, step_still, Hs. }
  destruct S as (Hc & Hlog & _ & Hf & Hn & Hl). repeat split; assumption.
Qed.

End Loader.
End DThreeLoaderFacts.

(** ** The constellation overlay *)

Module ConstellationOverlayFacts.
Import ConstellationOverlay.

Lemma howMany_app (f : nat * Cb -> bool) (l1 l2 : list (nat * Cb)) :
  howMany f (l1 ++ l2) = (howMany f l1 + howMany f l2)%nat.
Proof. unfold howMany. now rewrite filter_app, length_app. Qed.

Lemma howMany_cons (f : nat * Cb -> bool) (e : nat * Cb) (l : list (nat * Cb)) :
  howMany f (e :: l) = (flag (f e) + howMany f l)%nat.
Proof. unfold howMany. cbn. destruct (f e); reflexivity. Qed.

Lemma howMany_nil (f : nat * Cb -> bool) : howMany f [] = 0%nat.
Proof. reflexivity. Qed.

Local Arguments howMany : simpl never.

Ltac count_callbacks :=
  rewrite ?howMany_app, ?howMany_cons, ?howMany_nil in *;
  cbn [flag is_mutation_rebuild is_recalc snd] in *.

(** The observer's callback on a coherent state: one rebuild waits
    afterwards, and [rebuild] itself has not run. *)
Lemma onMutations_coherent (rest : list (nat * Cb)) (wd : World) :
  svg wd = true -> observing wd = true ->
  (howMany is_mutation_rebuild rest
   + howMany is_mutation_rebuild (Host.frames (host wd)))%nat
  = flag (rebuildScheduled wd) ->
  (howMany is_recalc rest + howMany is_recalc (Host.frames (host wd)))%nat
  = flag (pending wd) ->
  let wd' := deliver (set_records true wd) in
  coherent rest wd' /\ rebuildScheduled wd' = true
  /\ pending wd' = pending wd /\ rebuilds wd' = rebuilds wd.
Proof.
  intros Hs Ho Hm Hr. cbv zeta. unfold deliver. cbn. rewrite Ho. unfold onMutations.
  cbn. destruct (rebuildScheduled wd) eqn:E; unfold coherent; cbn.
  - rewrite E. repeat split; assumption.
  - count_callbacks. repeat split; try assumption; lia.
Qed.

(** [rebuild] followed by the delivery of its own mutation: one more
    rebuild done, and one waiting. *)
Lemma rebuild_coherent (rest : list (nat * Cb)) (wd : World) :
  svg wd = true -> observing wd = true ->
  (howMany is_mutation_rebuild rest
   + howMany is_mutation_rebuild (Host.frames (host wd)))%nat
  = flag (rebuildScheduled wd) ->
  (howMany is_recalc rest + howMany is_recalc (Host.frames (host wd)))%nat
  = flag (pending wd) ->
  let wd' := deliver (rebuild wd) in
  coherent rest wd' /\ rebuilds wd' = S (rebuilds wd).
Proof.
  intros Hs Ho Hm Hr. cbv zeta.
  unfold rebuild, updatePositions. rewrite Hs. cbn. rewrite Hs.
  unfold deliver. cbn. rewrite Ho. unfold onMutations. cbn.
  destruct (rebuildScheduled wd) eqn:E; unfold coherent; cbn;
    rewrite ?E; count_callbacks; repeat split; try assumption; lia.
Qed.

(** One callback of a frame, with the delivery of the mutations it made. *)
Lemma invoke_coherent (i : nat) (cb : Cb) (rest : list (nat * Cb)) (wd : World) :
  coherent ((i, cb) :: rest) wd ->
  let wd' := deliver (invoke cb wd) in
  coherent rest wd'
  /\ rebuilds wd' = (rebuilds wd + howMany is_mutation_rebuild [(i, cb)]
                     + howMany is_recalc [(i, cb)])%nat.
Proof.
  intros (Hs & Ho & Hrec & Hm & Hr). cbv zeta. destruct cb; cbn [invoke].
  - unfold rafLoop. rewrite Hs. unfold deliver, coherent. cbn. rewrite Hrec. cbn.
    count_callbacks. repeat split; try assumption; lia.
  - count_callbacks. destruct (rebuildScheduled wd) eqn:E; cbn [flag] in Hm; [|lia].
    destruct (rebuild_coherent rest (set_rebuildScheduled false wd)) as [K1 K2];
      cbn; try assumption; try lia.
    split; [exact K1 | rewrite K2; cbn; lia].
  - count_callbacks. destruct (pending wd) eqn:E; cbn [flag] in Hr; [|lia].
    destruct (rebuild_coherent rest (set_pending false wd)) as [K1 K2];
      cbn; try assumption; try lia.
    split; [exact K1 | rewrite K2; cbn; lia].
Qed.

(** A whole frame: as many rebuilds as rebuild callbacks were waiting. *)
Lemma frame_coherent (rest : list (nat * Cb)) (wd : World) :
  coherent rest wd ->
  let wd' := fold_left (fun acc (e : nat * Cb) => deliver (invoke (snd e) acc)) rest wd in
  coherent [] wd'
  /\ rebuilds wd' = (rebuilds wd + howMany is_mutation_rebuild rest
                     + howMany is_recalc rest)%nat.
Proof.
  revert wd. induction rest as [|[i cb] rest IH]; intros wd H; cbv zeta; simpl.
  - split; [exact H | count_callbacks; lia].
  - destruct (invoke_coherent i cb rest wd H) as [H1 H2].
    destruct (IH _ H1) as [K1 K2]. split; [exact K1|].
    rewrite K2, H2. count_callbacks. lia.
Qed.

Lemma run_frame_coherent (wd : World) :
  coherent [] wd ->
  coherent [] (run_frame wd)
  /\ rebuilds (run_frame wd)
     = (rebuilds wd + howMany is_mutation_rebuild (Host.frames (host wd))
        + howMany is_recalc (Host.frames (host wd)))%nat.
Proof.
  intros (Hs & Ho & Hrec & Hm & Hr). unfold run_frame, Host.take_frames.
  match goal with |- context [fold_left _ _ ?w] => set (w0 := w) end.
  assert (C : coherent (Host.frames (host wd)) w0).
  { unfold coherent, w0. cbn. count_callbacks.
    repeat split; try assumption; lia. }
  exact (frame_coherent _ w0 C).
Qed.

Lemma call_coherent (ev : Event) (hd : Hd) (wd : World) :
  coherent [] wd -> coherent [] (call ev hd wd).
Proof.
  intros (Hs & Ho & Hrec & Hm & Hr). destruct hd; cbn [call].
  - destruct ev; try (unfold coherent; repeat split; assumption).
    rewrite Hs. unfold coherent. cbn in *. repeat split; assumption.
  - unfold scheduleRecalc. destruct (pending wd) eqn:E.
    + unfold coherent. rewrite E. repeat split; assumption.
    + unfold coherent. cbn. count_callbacks.
      repeat split; try assumption; lia.
Qed.

Lemma dispatch_coherent (ty : Host.EventType) (ev : Event) (wd : World) :
  coherent [] wd -> coherent [] (dispatch ty ev wd).
Proof.
  unfold dispatch. generalize (Host.handlers_for Host.Window ty (host wd)). intro hs.
  revert wd. induction hs as [|hd hs IH]; intros wd H; simpl; auto.
  apply IH, call_coherent, H.
Qed.

Lemma deliver_coherent (wd : World) : coherent [] wd -> deliver wd = wd.
Proof. intros (_ & _ & Hrec & _). unfold deliver. now rewrite Hrec. Qed.

Lemma step_coherent (wd : World) (ev : Event) :
  coherent [] wd -> coherent [] (step wd ev).
Proof.
  intro H. pose proof H as (Hs & Ho & Hrec & Hm & Hr). destruct ev; cbn [step].
  - apply run_frame_coherent, H.
  - apply onMutations_coherent; assumption.
  - destruct childList.
    + apply (onMutations_coherent [] (set_nodeEls els wd)); assumption.
    + unfold coherent. cbn. repeat split; assumption.
  - rewrite deliver_coherent; apply dispatch_coherent, H.
  - rewrite deliver_coherent; apply dispatch_coherent, H.
  - rewrite deliver_coherent; apply dispatch_coherent, H.
  - destruct (retries wd) as [|k]; [exact H|].
    apply (rebuild_coherent [] (set_timers k (interval wd) wd)); assumption.
  - destruct (interval wd); [|exact H].
    unfold updatePositions. rewrite Hs. cbn.
    unfold deliver. cbn. rewrite Ho. unfold onMutations. cbn.
    destruct (rebuildScheduled wd) eqn:E; unfold coherent; cbn;
      rewrite ?E; count_callbacks; repeat split; try assumption; lia.
Qed.

Lemma mount_coherent (els : list nat) : coherent [] (mount els).
Proof. unfold coherent. cbn. count_callbacks. repeat split. Qed.

Lemma run_coherent (evs : list Event) (wd : World) :
  coherent [] wd -> coherent [] (run wd evs).
Proof.
  revert wd. induction evs as [|ev evs IH]; intros wd H; simpl; auto.
  apply IH, step_coherent, H.
Qed.

(** Any positive number of mutations leaves the flag set and runs nothing. *)
Lemma mutations_coherent (n : nat) (wd : World) :
  coherent [] wd ->
  let wd' := run wd (repeat DomMutation (S n)) in
  coherent [] wd' /\ rebuildScheduled wd' = true
  /\ pending wd' = pending wd /\ rebuilds wd' = rebuilds wd.
Proof.
  revert wd. induction n as [|n IH]; intros wd H; cbv zeta.
  - pose proof H as (Hs & Ho & _ & Hm & Hr). cbn [repeat run fold_left step].
    apply onMutations_coherent; assumption.
  - pose proof H as (Hs & Ho & _ & Hm & Hr).
    change (run wd (repeat DomMutation (S (S n))))
      with (run (step wd DomMutation) (repeat DomMutation (S n))).
    destruct (onMutations_coherent [] wd Hs Ho Hm Hr) as (K1 & K2 & K3 & K4).
    destruct (IH _ K1) as (J1 & J2 & J3 & J4).
    cbn [step]. repeat split; try apply J1; congruence.
Qed.

(** C7: whatever the node elements of the page and whatever happened since
    mount, as long as no resize or scroll has a rebuild of its own waiting,
    any positive number of DOM mutations before the next frame leaves exactly
    one rebuild scheduled by the observer, runs no rebuild by itself, and the
    next frame runs exactly one rebuild. *)
Theorem mutations_coalesce_into_one_rebuild
    (els : list nat) (evs : list Event) (n : nat) :
  (0 < n)%nat ->
  let wd := run (mount els) evs in
  pending wd = false ->
  let wd' := run wd (repeat DomMutation n) in
  howMany is_mutation_rebuild (Host.frames (host wd')) = 1%nat
  /\ rebuilds wd' = rebuilds wd
  /\ rebuilds (step wd' Frame) = S (rebuilds wd).
Proof.
  intros Hn. cbv zeta. intro Hp.
  destruct n as [|n]; [lia|].
  pose proof (run_coherent evs (mount els) (mount_coherent els)) as H.
  destruct (mutations_coherent n _ H) as (K & Kf & Kp & Kr).
  set (wd' := run (run (mount els) evs) (repeat DomMutation (S n))) in *.
  pose proof K as (_ & _ & _ & Km & Krc).
  rewrite Kf in Km. rewrite Kp, Hp in Krc. count_callbacks.
  cbn [Nat.add] in Km, Krc.
  split; [exact Km | split; [exact Kr|]].
  cbn [step]. destruct (run_frame_coherent wd' K) as [_ R].
  rewrite R, Km, Krc, Kr. lia.
Qed.

Lemma detach_fresh (l ls : list nat) :
  fold_left (fun acc n => if hasHandlers n then remove_one (el n) acc else acc)
            (map (fun e => {| el := e; hasHandlers := false |}) l) ls
  = ls.
Proof. revert ls. induction l as [|e l IH]; intro ls; cbn; auto. Qed.

Lemma fresh_elements (l : list nat) :
  map el (map (fun e => {| el := e; hasHandlers := false |}) l) = l.
Proof. rewrite map_map. cbn. apply map_id. Qed.

(** C8, what the code does in the overlay: let the first retry timer fire
    after mount, then run the cleanup.  The rebuild that the observer
    requested is still scheduled, since the cleanup cancels only the handle of
    the parallax loop; the enter and leave listeners are still on the node
    elements, since the retry replaced the entries of [nodesRef] that carried
    the closures; the second retry timer is still set.  A frame forced then
    runs [rebuild]; after an unmount, where [rebuild] stops at its guard, it
    still clears [rebuildScheduled]. *)
Theorem overlay_cleanup_leaves_work_behind (els : list nat) :
  let wd := teardown (run (mount els) [RetryTimer]) in
  let gone := unmount (run (mount els) [RetryTimer]) in
  Host.frames (host wd) = [(2%nat, CbMutationRebuild)]
  /\ Host.listeners (host wd) = []
  /\ nodeListeners wd = firstn 140 els
  /\ retries wd = 1%nat
  /\ rebuilds (step wd Frame) = S (rebuilds wd)
  /\ Host.frames (host gone) = [(2%nat, CbMutationRebuild)]
  /\ rebuildScheduled gone = true
  /\ rebuildScheduled (step gone Frame) = false.
Proof.
  cbv zeta. unfold unmount, teardown, detachNodeListeners. cbn.
  rewrite detach_fresh, fresh_elements. cbn. repeat split.
Qed.

End ConstellationOverlayFacts.

(** ** The contact form *)

Module ContactFacts.
Import Contact.
Local Open Scope string_scope.

Section Form.
Variable CONTACT_URL : string.

Lemma nonEmpty_true (s : string) : s <> EmptyString -> nonEmpty s = true.
Proof. destruct s; [congruence | reflexivity]. Qed.

(** [afterFetch] sends nothing. *)
Lemma afterFetch_requests (rp : Reply) (st : State) :
  requests (afterFetch rp st) = requests st.
Proof.
  destruct rp as [| t | res_ok res_status data]; cbn; try reflexivity.
  destruct (res_ok && _); reflexivity.
Qed.

(** With an error from [validate], [handleSubmit] returns before [fetch]. *)
Lemma handleSubmit_blocked (rp : Reply) (st : State) :
  validate (form st) <> [] ->
  let st' := handleSubmit CONTACT_URL rp st in
  requests st' = requests st /\ errors st' = validate (form st)
  /\ form st' = form st /\ sending st' = sending st
  /\ exists t, status st' = Some {| type := error; text := t |}.
Proof.
  intro H. cbv zeta. unfold handleSubmit.
  destruct (validate (form st)) as [|kv errs]; [congruence|].
  cbn. repeat split. eexists. reflexivity.
Qed.

(** The matcher accepts only strings the expression stands for. *)
Lemma nullable_matches (e : Re) : nullable e = true -> matches e [].
Proof.
  induction e as [| | p | a IHa b IHb | a IHa b IHb | a IHa]; cbn; intro H;
    try discriminate.
  - constructor.
  - apply andb_true_iff in H as [Ha Hb].
    change (@nil ascii) with (@nil ascii ++ [])%list. constructor; auto.
  - apply orb_true_iff in H as [Ha | Hb]; [apply MAltL | apply MAltR]; auto.
  - constructor.
Qed.

Lemma deriv_matches (c : ascii) (e : Re) (s : list ascii) :
  matches (deriv c e) s -> matches e (c :: s).
Proof.
  revert s. induction e as [| | p | a IHa b IHb | a IHa b IHb | a IHa];
    cbn; intros s H.
  - inversion H.
  - inversion H.
  - destruct (p c) eqn:E; inversion H; subst. now constructor.
  - destruct (nullable a) eqn:N.
    + inversion H as [| | | ? ? ? H1 | ? ? ? H1 | |]; subst.
      * inversion H1 as [| | ? ? s1 s2 Ha Hb | | | |]; subst.
        change (c :: (s1 ++ s2)%list) with ((c :: s1) ++ s2)%list.
        constructor; auto.
      * change (c :: s) with ([] ++ (c :: s))%list.
        constructor; [apply nullable_matches, N | auto].
    + inversion H as [| | ? ? s1 s2 Ha Hb | | | |]; subst.
      change (c :: (s1 ++ s2)%list) with ((c :: s1) ++ s2)%list.
      constructor; auto.
  - inversion H; subst; [apply MAltL | apply MAltR]; auto.
  - inversion H as [| | ? ? s1 s2 Ha Hb | | | |]; subst.
    change (c :: (s1 ++ s2)%list) with ((c :: s1) ++ s2)%list.
    constructor; auto.
Qed.

Lemma test_matches (e : Re) (s : string) :
  test e s = true -> matches e (list_ascii_of_string s).
Proof.
  unfold test. generalize (list_ascii_of_string s). intro l.
  revert e. induction l as [|c l IH]; intros e H; cbn in H.
  - apply nullable_matches, H.
  - apply deriv_matches, IH, H.
Qed.

(** Whatever matches the pattern of [validate] has an [@] in it. *)
Lemma emailRe_has_at (l : list ascii) : matches emailRe l -> In "@"%char l.
Proof.
  unfold emailRe. intro H.
  inversion H as [| | ? ? s1 s2 _ H2 | | | |]; subst.
  inversion H2 as [| | ? ? s3 s4 H3 _ | | | |]; subst.
  inversion H3 as [| ? c Hc | | | | |]; subst.
  apply Ascii.eqb_eq in Hc. subst c.
  apply in_or_app. right. apply in_or_app. left. left. reflexivity.
Qed.

Lemma trimStart_subset (c : ascii) (l : list ascii) :
  In c (trimStart l) -> In c l.
Proof.
  induction l as [|a l IH]; cbn; [auto|].
  destruct (isWhiteSpace a); [right; auto | auto].
Qed.

Lemma trim_subset (c : ascii) (s : string) :
  In c (list_ascii_of_string (trim s)) -> In c (list_ascii_of_string s).
Proof.
  unfold trim. rewrite list_ascii_of_string_of_list_ascii.
  intro H. apply in_rev in H. apply trimStart_subset in H.
  apply in_rev in H. apply trimStart_subset in H. exact H.
Qed.

(** An address without [@] does not pass the test of [validate]. *)
Lemma no_at_fails_test (s : string) :
  ~ In "@"%char (list_ascii_of_string s) -> test emailRe (trim s) = false.
Proof.
  intro H. destruct (test emailRe (trim s)) eqn:E; [|reflexivity].
  exfalso. apply H, trim_subset, emailRe_has_at, test_matches, E.
Qed.

(** C6: when the trimmed e-mail address does not match the pattern, then
    whatever the other fields hold, the submit handler sends no request,
    stores a message under the key [email] (the one shown below the e-mail
    field), sets an error status and leaves the form as it is; no address
    without an [@] matches the pattern, and [not-an-email] does not. *)
Theorem invalid_email_blocks_submission :
  (forall (rp : Reply) (st : State),
      test emailRe (trim (email (form st))) = false ->
      let st' := handleSubmit CONTACT_URL rp st in
      requests st' = requests st
      /\ get "email" (errors st')
         = Some (if nonEmpty (trim (email (form st)))
                 then "Please enter a valid email" else "Please enter your email")
      /\ (exists t, status st' = Some {| type := error; text := t |})
      /\ form st' = form st)
  /\ (forall s : string,
         ~ In "@"%char (list_ascii_of_string s) -> test emailRe (trim s) = false)
  /\ test emailRe (trim "not-an-email") = false.
Proof.
  split; [|split; [exact no_at_fails_test | reflexivity]].
  intros rp st H. cbv zeta.
  assert (E : get "email" (validate (form st))
              = Some (if nonEmpty (trim (email (form st)))
                      then "Please enter a valid email" else "Please enter your email")).
  { unfold validate. rewrite H.
    destruct (nonEmpty (trim (name (form st))));
      destruct (nonEmpty (trim (email (form st))));
      destruct (negb (nonEmpty (trim (message (form st)))) || _);
      destruct (nonEmpty (honey (form st))); reflexivity. }
  assert (N : validate (form st) <> []).
  { intro K. rewrite K in E. discriminate. }
  destruct (handleSubmit_blocked rp st N) as (H1 & H2 & H3 & _ & H4).
  rewrite H2. repeat split; assumption.
Qed.

(** C10: with anything in the honeypot field the submit handler sends no
    request and stores [Spam detected] under the key [honey], whatever the
    visible fields hold; and when validation finds nothing, the one request
    sent is a POST whose body is the JSON text of the four fields name, email,
    subject and message, the honeypot not among them. *)
Theorem honeypot_blocks_and_is_not_sent :
  (forall (rp : Reply) (st : State),
      honey (form st) <> EmptyString ->
      let st' := handleSubmit CONTACT_URL rp st in
      requests st' = requests st
      /\ get "honey" (errors st') = Some "Spam detected"
      /\ (exists t, status st' = Some {| type := error; text := t |}))
  /\
  (forall (rp : Reply) (st : State),
      validate (form st) = [] ->
      requests (handleSubmit CONTACT_URL rp st)
      = (requests st
         ++ [ {| url := CONTACT_URL; method := "POST";
                 headers := [("Content-Type", "application/json")];
                 body := JSON_stringify
                           [ ("name", name (form st)); ("email", email (form st));
                             ("subject", subject (form st));
                             ("message", message (form st)) ] |} ])%list).
Proof.
  split.
  - intros rp st H. cbv zeta. apply nonEmpty_true in H.
    assert (E : get "honey" (validate (form st)) = Some "Spam detected").
    { unfold validate. rewrite H.
      destruct (nonEmpty (trim (name (form st))));
        destruct (negb (nonEmpty (trim (email (form st)))));
        [| destruct (negb (test emailRe (trim (email (form st))))) | |
         destruct (negb (test emailRe (trim (email (form st)))))];
        destruct (negb (nonEmpty (trim (message (form st)))) || _); reflexivity. }
    assert (N : validate (form st) <> []).
    { intro K. rewrite K in E. discriminate. }
    destruct (handleSubmit_blocked rp st N) as (H1 & H2 & _ & _ & H4).
    rewrite H2. repeat split; assumption.
  - intros rp st H. unfold handleSubmit. rewrite H.
    rewrite afterFetch_requests. reflexivity.
Qed.

End Form.
End ContactFacts.

(** ** The starfield: more of [resize], [draw] and the listeners *)

Module StarsBgMore.
Import Js JsFacts StarsBg StarsBgPaint StarsBgFacts.

Section More.
Variable random : nat -> Q.
Variable PI : Q.
Variable props : Props.

(** What an event does to a mounted starfield: the one listener of its kind,
    or the one pending [draw]. *)
Lemma stars_step_of_live (wd : World) (ev : Event) :
  live wd ->
  step random PI props wd ev
  = let wd1 := set_env wd (affect ev (env wd)) in
    match ev with
    | Frame now =>
        draw random now
          (set_host wd1 {| Host.frames := []; Host.nextId := Host.nextId (host wd);
                           Host.listeners := Host.listeners (host wd) |})
    | WindowResize _ _ => resize random PI props wd1
    | WindowScroll _ => updateExcludeRects props wd1
    | LayoutChange _ _ => wd1
    | MouseMove cx cy | TouchMove cx cy => onPointerMove cx cy wd1
    | VisibilityChange _ => onVisibility wd1
    end.
Proof.
  intros [Hf Hl]. cbv zeta.
  destruct ev; unfold step, dispatch, run_frame, Host.handlers_for, Host.take_frames;
    cbn [set_env host env refs rng]; rewrite ?Hf, ?Hl; reflexivity.
Qed.

Lemma stars_run_snoc (wd : World) (evs : list Event) (ev : Event) :
  run random PI props wd (evs ++ [ev])
  = step random PI props (run random PI props wd evs) ev.
Proof. unfold run. now rewrite fold_left_app. Qed.

(** Induction over the histories of a mounted starfield. *)
Lemma stars_reachable_ind (P : World -> Prop) (e : Env) (seed : nat) :
  P (mount random PI props e seed) ->
  (forall wd ev, live wd -> P wd -> P (step random PI props wd ev)) ->
  forall evs, P (run random PI props (mount random PI props e seed) evs).
Proof.
  intros H0 Hs evs. induction evs as [|ev evs IH] using rev_ind.
  - exact H0.
  - rewrite stars_run_snoc. apply Hs; [|exact IH].
    apply stars_run_live, stars_mount_live.
Qed.

Lemma resize_dims (wd : World) :
  dimsRef (refs (resize random PI props wd))
  = {| w := Math_max 1 (Math_floor (width (canvasRect (env wd))));
       h := Math_max 1 (Math_floor (height (canvasRect (env wd))));
       DPR := Math_max 1 (Math_min 2 (or_one (devicePixelRatio (env wd)))) |}
  /\ excludeRectsRef (refs (resize random PI props wd)) = measured props (env wd)
  /\ lastPointer (refs (resize random PI props wd)) = lastPointer (refs wd)
  /\ hiddenRef (refs (resize random PI props wd)) = hiddenRef (refs wd)
  /\ lastTimeRef (refs (resize random PI props wd)) = lastTimeRef (refs wd).
Proof.
  unfold resize, updateExcludeRects, buildStars, set_refs, measured. cbn.
  destruct (buildStarList _ _ _ _ _ _ _) as [stars n]. cbn. repeat split.
Qed.

Lemma mount_dims (e : Env) (seed : nat) :
  dimsRef (refs (mount random PI props e seed))
  = {| w := Math_max 1 (Math_floor (width (canvasRect e)));
       h := Math_max 1 (Math_floor (height (canvasRect e)));
       DPR := Math_max 1 (Math_min 2 (or_one (devicePixelRatio e))) |}
  /\ excludeRectsRef (refs (mount random PI props e seed)) = measured props e
  /\ env (mount random PI props e seed) = e
  /\ hiddenRef (refs (mount random PI props e seed)) = false.
Proof.
  unfold mount.
  set (wd0 := {| env := e; host := Host.empty; refs := initialRefs e; rng := seed |}).
  destruct (resize_dims wd0) as (Hd & Hx & _ & Hh & _).
  destruct (resize_stars random PI props wd0) as (_ & _ & _ & _ & He & _).
  set (wd1 := resize random PI props wd0) in *. clearbody wd1.
  destruct (gtb (shootingFrequency props) 0); cbn; repeat split; assumption.
Qed.

Lemma draw_keeps (now : Q) (wd : World) :
  let wd' := draw random now wd in
  env wd' = env wd
  /\ excludeRectsRef (refs wd') = excludeRectsRef (refs wd)
  /\ dimsRef (refs wd') = dimsRef (refs wd)
  /\ hiddenRef (refs wd') = hiddenRef (refs wd)
  /\ lastPointer (refs wd') = lastPointer (refs wd)
  /\ lastTimeRef (refs wd') = now.
Proof.
  cbv zeta. unfold draw. cbn [set_refs refs with_lastTime hiddenRef].
  destruct (hiddenRef (refs wd)) eqn:E.
  - unfold request_draw. cbn. rewrite E. repeat split.
  - cbn [dimsRef starsRef shotsRef rng]. destruct (mapM _ _ _) as [stars n].
    unfold request_draw. cbn. rewrite E. repeat split.
Qed.

(** X1: in every state a mounted starfield reaches, the width and the
    height [resize] stored are at least 1 px and the pixel ratio it stored
    lies between 1 and 2, whatever the browser reports. *)
Theorem stars_dims_clamped (e : Env) (seed : nat) (evs : list Event) :
  let d := dimsRef (refs (run random PI props (mount random PI props e seed) evs)) in
  1 <= w d /\ 1 <= h d /\ 1 <= DPR d /\ DPR d <= 2.
Proof.
  cbv zeta.
  assert (C : forall fw fh dpr,
             let d := {| w := Math_max 1 fw; h := Math_max 1 fh;
                         DPR := Math_max 1 (Math_min 2 dpr) |} in
             1 <= w d /\ 1 <= h d /\ 1 <= DPR d /\ DPR d <= 2).
  { intros fw fh dpr. cbn. repeat split; try apply max_one_pos.
    apply clamp_range. discriminate. }
  apply (run_refs_invariant random PI props
           (fun rf => 1 <= w (dimsRef rf) /\ 1 <= h (dimsRef rf)
                      /\ 1 <= DPR (dimsRef rf) /\ DPR (dimsRef rf) <= 2)).
  - intros ev hd wd H. destruct hd; cbn [call]; try exact H.
    + destruct (resize_dims wd) as (Hd & _). rewrite Hd. exact (C _ _ _).
    + destruct ev; exact H.
  - intros now wd H. destruct (draw_keeps now wd) as (_ & _ & Hd & _).
    rewrite Hd. exact H.
  - destruct (mount_dims e seed) as (Hd & _). rewrite Hd. exact (C _ _ _).
Qed.







Lemma Math_round_nonneg (v : Q) : 0 <= v -> 0 <= Math_round v.
Proof.
  intro H. unfold Math_round.
  change 0 with (inject_Z 0). rewrite <- Zle_Qle.
  change 0%Z with (Qfloor (inject_Z 0)). apply Qfloor_resp_le.
  change (inject_Z 0) with 0. lra.
Qed.

Lemma le_half (a b : Q) : a <= b / 2 -> a * 2 <= b.
Proof.
  intro H. apply (Qmult_le_compat_r _ _ 2) in H; [|discriminate].
  assert (E : b / 2 * 2 == b) by field. rewrite E in H. exact H.
Qed.

(** X3: the clear-out of an excluded rect is always drawn, inside the canvas
    size, with corners that fit. *)
Theorem exclusion_clear_is_drawable (cw ch : Q) (r : ExcludeRect) :
  1 <= cw -> 1 <= ch -> 0 < e_width r -> 0 < e_height r ->
  let c := clearOf cw ch r in
  16 <= clearPad cw ch /\ clearPad cw ch <= 48
  /\ 0 <= k_x c /\ 0 <= k_y c
  /\ 0 < k_w c /\ k_w c <= cw /\ 0 < k_h c /\ k_h c <= ch
  /\ exists rad, roundRectClear c = Some rad
                 /\ 0 <= rad /\ rad <= 48 /\ rad * 2 <= k_w c /\ rad * 2 <= k_h c.
Proof.
  intros Hw Hh Hrw Hrh. cbv zeta.
  assert (P1 : 16 <= clearPad cw ch /\ clearPad cw ch <= 48).
  { unfold clearPad, Math_min, Math_max. split.
    - apply Q.min_glb; [discriminate | apply Q.le_max_l].
    - apply Q.le_min_l. }
  destruct P1 as [P1 P2]. unfold clearOf. cbn [k_x k_y k_w k_h k_r].
  set (pad := clearPad cw ch) in *.
  set (wd := Math_min cw (e_width r + pad * 2)).
  set (ht := Math_min ch (e_height r + pad * 2)).
  assert (W1 : 0 < wd) by (unfold wd, Math_min; apply Q.min_glb_lt; lra).
  assert (W2 : wd <= cw) by apply Q.le_min_l.
  assert (H1 : 0 < ht) by (unfold ht, Math_min; apply Q.min_glb_lt; lra).
  assert (H2 : ht <= ch) by apply Q.le_min_l.
  repeat (split; [first [assumption | apply Q.le_max_l] |]).
  unfold roundRectClear. cbn [k_w k_h k_r]. fold wd ht.
  assert (E1 : leb wd 0 = false).
  { unfold leb. destruct (Qle_bool wd 0) eqn:E; [|reflexivity].
    apply Qle_bool_iff in E. lra. }
  assert (E2 : leb ht 0 = false).
  { unfold leb. destruct (Qle_bool ht 0) eqn:E; [|reflexivity].
    apply Qle_bool_iff in E. lra. }
  rewrite E1, E2. cbn [orb]. eexists. split; [reflexivity|].
  set (rr := Math_min 48 (Math_round (Math_min wd ht * 0.12))).
  assert (R0 : 0 <= rr).
  { unfold rr, Math_min at 1. apply Q.min_glb; [discriminate|].
    apply Math_round_nonneg.
    assert (0 < Math_min wd ht) by (unfold Math_min; apply Q.min_glb_lt; assumption).
    lra. }
  assert (R1 : rr <= 48) by apply Q.le_min_l.
  unfold Math_min in *.
  pose proof (Q.le_min_l (Qmin rr (wd / 2)) (ht / 2)) as M1.
  pose proof (Q.le_min_r (Qmin rr (wd / 2)) (ht / 2)) as M2.
  pose proof (Q.le_min_l rr (wd / 2)) as M3.
  pose proof (Q.le_min_r rr (wd / 2)) as M4.
  assert (M0 : 0 <= Qmin (Qmin rr (wd / 2)) (ht / 2)).
  { apply Q.min_glb; [apply Q.min_glb|]; [assumption | |];
      apply Qlt_le_weak, Qlt_shift_div_l; lra. }
  repeat split; try lra.
  - apply le_half. lra.
  - apply le_half. lra.
Qed.



Lemma insert_by_depth_sorted (s : Star) (l : list Star) :
  Sorted Qle (map depth l) -> Sorted Qle (map depth (insert_by_depth s l)).
Proof.
  induction l as [|t l IH]; intro H; cbn.
  - repeat constructor.
  - destruct (Js.leb (depth s) (depth t)) eqn:E; cbn.
    + apply leb_le in E. constructor; [exact H|]. constructor. exact E.
    + apply leb_gt in E. apply Qlt_le_weak in E.
      inversion H as [|? ? Hs Hh]; subst.
      constructor; [apply IH, Hs|].
      destruct l as [|u l]; cbn.
      * constructor. exact E.
      * destruct (Js.leb (depth s) (depth u)); cbn; constructor;
          [exact E | inversion Hh; assumption].
Qed.

Lemma insert_by_depth_perm (s : Star) (l : list Star) :
  Permutation (insert_by_depth s l) (s :: l).
Proof.
  induction l as [|t l IH]; cbn; [reflexivity|].
  destruct (Js.leb _ _); [reflexivity|].
  rewrite IH. apply perm_swap.
Qed.

Lemma sort_by_depth_sorted (l : list Star) : Sorted Qle (map depth (sort_by_depth l)).
Proof.
  unfold sort_by_depth. induction l as [|s l IH]; cbn; [constructor|].
  apply insert_by_depth_sorted, IH.
Qed.

(** The sort is stable: stars already in the order of their depths, equal
    depths included, stay as they are. *)
Lemma sort_by_depth_stable (l : list Star) :
  Sorted Qle (map depth l) -> sort_by_depth l = l.
Proof.
  unfold sort_by_depth. induction l as [|s l IH]; intro H; cbn; [reflexivity|].
  cbn in H. inversion H as [|? ? Hs Hh]; subst. rewrite (IH Hs).
  destruct l as [|t l]; cbn; [reflexivity|].
  cbn in Hh. inversion Hh as [|? ? Hst]; subst.
  apply leb_le in Hst. now rewrite Hst.
Qed.

Lemma sort_by_depth_perm (l : list Star) : Permutation (sort_by_depth l) l.
Proof.
  unfold sort_by_depth. induction l as [|s l IH]; cbn; [reflexivity|].
  rewrite insert_by_depth_perm. now constructor.
Qed.

(** [draw] moves the stars; it changes nothing else in them, nor their
    number or order. *)
Lemma mapM_drawStar_fixed (cw ch dt : Q) (l : list Star) (k : nat) :
  map fixedPart (fst (mapM (drawStar random cw ch dt) l k)) = map fixedPart l.
Proof.
  revert k. induction l as [|s l IH]; intro k; cbn; [reflexivity|].
  unfold bind at 1.
  assert (F : fixedPart (fst (drawStar random cw ch dt s k)) = fixedPart s).
  { unfold drawStar. destruct (wrap cw _ _), (wrap ch _ _).
    destruct (isBright s) eqn:B.
    - cbv [rand Math_random bind ret]. destruct (ltb _ _); cbn; unfold fixedPart; cbn;
        now rewrite B.
    - unfold fixedPart. cbn. now rewrite B. }
  destruct (drawStar random cw ch dt s k) as [s' k1].
  unfold bind at 1. specialize (IH k1).
  destruct (mapM _ l k1) as [bs k2]. cbn in *. now rewrite F, IH.
Qed.

Lemma draw_fixed (now : Q) (wd : World) :
  map fixedPart (starsRef (refs (draw random now wd)))
  = map fixedPart (starsRef (refs wd)).
Proof.
  destruct (draw_refs random now wd) as (_ & Hb).
  destruct (hiddenRef (refs wd)); destruct Hb as [Hs _]; rewrite Hs;
    [reflexivity | apply mapM_drawStar_fixed].
Qed.

Lemma fixed_depth (l l' : list Star) :
  map fixedPart l = map fixedPart l' -> map depth l = map depth l'.
Proof.
  intro H.
  assert (E : forall m, map depth m
                        = map (fun p : string * nat * Q * Q * Q * Q * list Q * Q * Q
                                       * Q * Q * bool =>
                                 match p with (_, _, d, _, _, _, _, _, _, _) => d end)
                              (map fixedPart m)).
  { intro m. rewrite map_map. apply map_ext. intro a. reflexivity. }
  now rewrite (E l), (E l'), H.
Qed.

(** X4: in every state a mounted starfield reaches, the stars are in the
    order of their depth, far to near: [buildStars] sorts them, and [draw]
    moves them without changing depth or order. *)
Theorem stars_sorted_far_to_near (e : Env) (seed : nat) (evs : list Event) :
  Sorted Qle
    (map depth (starsRef (refs (run random PI props
                                  (mount random PI props e seed) evs)))).
Proof.
  apply (run_refs_invariant random PI props
           (fun rf => Sorted Qle (map depth (starsRef rf)))).
  - intros ev hd wd H. destruct hd; cbn [call]; try exact H.
    + destruct (resize_stars random PI props wd) as (Hs & _). rewrite Hs.
      unfold buildStarList, bind. destruct (seedLayers _ _ _ _ _ _ _ _).
      cbn. apply sort_by_depth_sorted.
    + destruct ev; exact H.
  - intros now wd H. rewrite (fixed_depth _ _ (draw_fixed now wd)). exact H.
  - destruct (mount_stars random PI props e seed) as (Hs & _). rewrite Hs.
    unfold buildStarList, bind. destruct (seedLayers _ _ _ _ _ _ _ _).
    cbn. apply sort_by_depth_sorted.
Qed.

(** X5: between two resizes no star is added, removed, reordered, resized,
    recoloured or given another velocity. *)
Theorem stars_keep_identity_without_resize (wd : World) (evs : list Event) :
  live wd ->
  forallb (fun ev => negb (isResize ev)) evs = true ->
  map fixedPart (starsRef (refs (run random PI props wd evs)))
  = map fixedPart (starsRef (refs wd)).
Proof.
  revert wd. induction evs as [|ev evs IH]; intros wd L H; [reflexivity|].
  cbn in H. apply andb_true_iff in H as [H1 H2].
  change (run random PI props wd (ev :: evs))
    with (run random PI props (step random PI props wd ev) evs).
  rewrite (IH _ (stars_step_live random PI props wd ev L) H2).
  rewrite (stars_step_of_live wd ev L). cbv zeta.
  destruct ev; try discriminate; try reflexivity.
  match goal with |- context [draw random now ?w0] => exact (draw_fixed now w0) end.
Qed.

Hypothesis random_range : forall i, 0 <= random i < 1.

Ltac draws_in_range :=
  repeat match goal with
         | |- context [random ?n] =>
             lazymatch goal with
             | _ : 0 <= random n /\ random n < 1 |- _ => fail
             | _ => pose proof (random_range n)
             end
         end.

Lemma makeStar_velocity (cw ch : Q) (layer : Layer) (i k : nat) :
  let s := fst (makeStar random PI props cw ch layer i k) in
  (-0.006 <= vx s /\ vx s <= 0.006) /\ (-0.006 <= vy s /\ vy s <= 0.006).
Proof.
  cbv [makeStar rand Math_random bind ret].
  destruct (clusters props); [destruct (ltb _ _)|]; cbn [fst vx vy];
    draws_in_range; repeat split; lra.
Qed.

Lemma seedLayers_Forall (P : Star -> Prop) (cw ch count : Q) :
  (forall layer i k, P (fst (makeStar random PI props cw ch layer i k))) ->
  forall ls k, Forall P (fst (seedLayers random PI props cw ch count ls k)).
Proof.
  intros Hm ls. induction ls as [|l ls IH]; intro k; simpl.
  - constructor.
  - unfold bind at 1.
    pose proof (for_push_Forall P (makeStar random PI props cw ch l)
                  (Hm l) (turns (layerCount count l)) 0 k) as Hl.
    destruct (for_push _ _ _ k) as [here k1].
    unfold bind at 1. specialize (IH k1).
    destruct (seedLayers _ _ _ _ _ _ ls k1) as [rest k2].
    simpl in *. apply Forall_app. split; assumption.
Qed.

Lemma buildStarList_Forall (P : Star -> Prop) (lowEnd : bool) (cw ch : Q) (k : nat) :
  (forall layer i k', P (fst (makeStar random PI props cw ch layer i k'))) ->
  Forall P (fst (buildStarList random PI props lowEnd cw ch k)).
Proof.
  intro Hm. unfold buildStarList, bind.
  pose proof (seedLayers_Forall P cw ch (starCount props lowEnd cw ch) Hm layers k) as H.
  destruct (seedLayers _ _ _ _ _ _ layers k) as [stars k1]. simpl in *.
  now apply sort_by_depth_Forall.
Qed.

Lemma stars_velocity_bounded (e : Env) (seed : nat) (evs : list Event) :
  Forall (fun s => (-0.006 <= vx s /\ vx s <= 0.006) /\ (-0.006 <= vy s /\ vy s <= 0.006))
         (starsRef (refs (run random PI props (mount random PI props e seed) evs))).
Proof.
  apply (run_refs_invariant random PI props
           (fun rf => Forall (fun s => (-0.006 <= vx s /\ vx s <= 0.006)
                                       /\ (-0.006 <= vy s /\ vy s <= 0.006))
                             (starsRef rf))).
  - intros ev hd wd H. destruct hd; cbn [call]; try exact H.
    + destruct (resize_stars random PI props wd) as (Hs & _). rewrite Hs.
      apply buildStarList_Forall. intros. apply makeStar_velocity.
    + destruct ev; exact H.
  - intros now wd H. destruct (draw_refs random now wd) as (_ & Hb).
    destruct (hiddenRef (refs wd)); destruct Hb as [Hs _]; rewrite Hs; [exact H|].
    apply (mapM_Forall_impl _ _ _ (fun s k Hs' =>
             match drawStar_fields random _ _ _ s k with
             | conj _ (conj _ (conj _ (conj _ (conj _ (conj Hvx Hvy))))) =>
                 eq_ind_r (fun v => (-0.006 <= v /\ v <= 0.006) /\ _)
                   (eq_ind_r (fun v => _ /\ (-0.006 <= v /\ v <= 0.006)) Hs' Hvy) Hvx
             end)).
    exact H.
  - destruct (mount_stars random PI props e seed) as (Hs & _). rewrite Hs.
    apply buildStarList_Forall. intros. apply makeStar_velocity.
Qed.

Lemma mapM_Forall2 {A B} (P : A -> Prop) (R : A -> B -> Prop) (f : A -> Rand B) :
  (forall a k, P a -> R a (fst (f a k))) ->
  forall l k, Forall P l -> Forall2 R l (fst (mapM f l k)).
Proof.
  intros Hf l. induction l as [|a l IH]; intros k Hl; simpl.
  - constructor.
  - inversion Hl as [|? ? Pa Pl]; subst.
    unfold bind at 1. pose proof (Hf a k Pa) as Ha.
    destruct (f a k) as [b k1].
    unfold bind at 1. specialize (IH k1 Pl).
    destruct (mapM f l k1) as [bs k2]. simpl in *.
    constructor; assumption.
Qed.

Lemma wrap_cases (size pos base : Q) :
  fst (wrap size pos base) = pos
  \/ fst (wrap size pos base) = size + 20 \/ fst (wrap size pos base) = -20.
Proof.
  unfold wrap. destruct (ltb pos (-20)).
  - destruct (gtb (size + 20) (size + 20)); cbn; auto.
  - destruct (gtb pos (size + 20)); cbn; auto.
Qed.

(** X6: in a frame on a visible page a star either lands on a re-entry line
    or moves by its velocity times the elapsed time, which is at most 40 ms:
    never more than 0.24 px along either axis. *)
Theorem star_moves_at_most_a_quarter_pixel
    (e : Env) (seed : nat) (evs : list Event) (now : Q) :
  let wd := run random PI props (mount random PI props e seed) evs in
  let dt := Math_min 40 (now - lastTimeRef (refs wd)) in
  let cw := w (dimsRef (refs wd)) in
  let ch := h (dimsRef (refs wd)) in
  hiddenRef (refs wd) = false ->
  lastTimeRef (refs wd) <= now ->
  (0 <= dt /\ dt <= 40)
  /\ Forall2 (fun s s' => movedOrWrapped cw dt (x s) (vx s) (x s')
                          /\ movedOrWrapped ch dt (y s) (vy s) (y s'))
             (starsRef (refs wd)) (starsRef (refs (draw random now wd))).
Proof.
  cbv zeta. intros Hh Ht.
  set (wd := run random PI props (mount random PI props e seed) evs) in *.
  set (dt := Math_min 40 (now - lastTimeRef (refs wd))).
  assert (D : 0 <= dt /\ dt <= 40).
  { unfold dt, Math_min. split; [apply Q.min_glb; lra | apply Q.le_min_l]. }
  split; [exact D|].
  destruct (draw_refs random now wd) as (_ & Hb). rewrite Hh in Hb.
  destruct Hb as [Hs _]. rewrite Hs. fold dt.
  apply (mapM_Forall2
           (fun s => (-0.006 <= vx s /\ vx s <= 0.006)
                     /\ (-0.006 <= vy s /\ vy s <= 0.006))).
  - intros s k [[V1 V2] [V3 V4]].
    destruct (drawStar_fields random (w (dimsRef (refs wd))) (h (dimsRef (refs wd)))
                dt s k) as (Hx & _ & Hy & _).
    unfold movedOrWrapped. rewrite Hx, Hy. destruct D as [D0 D1].
    split.
    + destruct (wrap_cases (w (dimsRef (refs wd))) (x s + vx s * dt) (baseX s))
        as [E | [E | E]]; rewrite E; auto.
      right; right. split; [reflexivity | split; nra].
    + destruct (wrap_cases (h (dimsRef (refs wd))) (y s + vy s * dt) (baseY s))
        as [E | [E | E]]; rewrite E; auto.
      right; right. split; [reflexivity | split; nra].
  - apply stars_velocity_bounded.
Qed.

Lemma last_cons_default {A} (l : list A) (a d d' : A) :
  last (a :: l) d = last (a :: l) d'.
Proof.
  revert a. induction l as [|b l IH]; intro a; [reflexivity|].
  change (last (b :: l) d = last (b :: l) d'). apply IH.
Qed.

Lemma hidden_frames_freeze (ts : list Q) : forall w1 : World,
  live w1 -> hiddenRef (refs w1) = true ->
  let wd' := run random PI props w1 (map Frame ts) in
  starsRef (refs wd') = starsRef (refs w1)
  /\ shotsRef (refs wd') = shotsRef (refs w1)
  /\ rng wd' = rng w1
  /\ live wd'
  /\ lastTimeRef (refs wd') = last ts (lastTimeRef (refs w1)).
Proof.
  induction ts as [|t ts IH]; intros w1 L1 Hh; cbv zeta.
  - change (run random PI props w1 (map Frame nil)) with w1.
    split; [reflexivity | split; [reflexivity | split; [reflexivity |]]].
    split; [exact L1 | reflexivity].
  - change (run random PI props w1 (map Frame (t :: ts)))
      with (run random PI props (step random PI props w1 (Frame t)) (map Frame ts)).
    pose proof (stars_step_live random PI props w1 (Frame t) L1) as L2.
    assert (S2 : let w2 := step random PI props w1 (Frame t) in
                 hiddenRef (refs w2) = true /\ starsRef (refs w2) = starsRef (refs w1)
                 /\ shotsRef (refs w2) = shotsRef (refs w1) /\ rng w2 = rng w1
                 /\ lastTimeRef (refs w2) = t).
    { cbv zeta. rewrite (stars_step_of_live w1 _ L1). cbv zeta.
      unfold draw. cbn [set_refs refs with_lastTime hiddenRef set_host set_env].
      rewrite Hh. unfold request_draw. cbn. rewrite Hh. repeat split. }
    cbv zeta in S2. destruct S2 as (Kh & Ks & Ksh & Kr & Kt).
    destruct (IH _ L2 Kh) as (J1 & J2 & J3 & J4 & J5).
    rewrite J1, J2, J3, J5, Ks, Ksh, Kr, Kt.
    split; [reflexivity | split; [reflexivity | split; [reflexivity |]]].
    split; [exact J4 |].
    destruct ts as [|q ts']; [reflexivity|].
    change (last (t :: q :: ts') (lastTimeRef (refs w1)))
      with (last (q :: ts') (lastTimeRef (refs w1))).
    apply last_cons_default.
Qed.

(** X7: while the page is hidden the frames change no star, no shot and draw
    no random number, and the loop stays alive; the last time stamp follows
    the frames, so that the first frame back does not see the time away. *)
Theorem stars_frozen_while_hidden (wd : World) (ts : list Q) :
  live wd ->
  let wd' := run random PI props wd (VisibilityChange true :: map Frame ts) in
  starsRef (refs wd') = starsRef (refs wd)
  /\ shotsRef (refs wd') = shotsRef (refs wd)
  /\ rng wd' = rng wd
  /\ live wd'
  /\ lastTimeRef (refs wd') = last ts (lastTimeRef (refs wd)).
Proof.
  intro L. cbv zeta.
  change (run random PI props wd (VisibilityChange true :: map Frame ts))
    with (run random PI props (step random PI props wd (VisibilityChange true))
            (map Frame ts)).
  pose proof (stars_step_live random PI props wd (VisibilityChange true) L) as L1.
  assert (S1 : let w1 := step random PI props wd (VisibilityChange true) in
               hiddenRef (refs w1) = true /\ starsRef (refs w1) = starsRef (refs wd)
               /\ shotsRef (refs w1) = shotsRef (refs wd) /\ rng w1 = rng wd
               /\ lastTimeRef (refs w1) = lastTimeRef (refs wd)).
  { cbv zeta. rewrite (stars_step_of_live wd _ L). cbn. repeat split. }
  cbv zeta in S1. destruct S1 as (Hh & Hs & Hsh & Hr & Ht).
  destruct (hidden_frames_freeze ts _ L1 Hh) as (J1 & J2 & J3 & J4 & J5).
  rewrite J1, J2, J3, J5, Hs, Hsh, Hr, Ht.
  split; [reflexivity | split; [reflexivity | split; [reflexivity |]]].
  split; [exact J4 | reflexivity].
Qed.

Variables cos sin : Q -> Q.

Lemma drawShot_ages (dt : Q) (p : Shot) (bound : Q) :
  life p < age p + dt + bound ->
  Forall (fun q => life q < age q + bound) (drawShot dt p).
Proof.
  intro H. unfold drawShot. destruct (gtb (age p + dt) (life p)).
  - constructor.
  - constructor; [cbn; exact H | constructor].
Qed.

Lemma flat_map_nil {A B} (f : A -> list B) (l : list A) :
  Forall (fun a => f a = []) l -> flat_map f l = [].
Proof.
  induction 1 as [|a l Ha _ IH]; [reflexivity|].
  cbn. now rewrite Ha, IH.
Qed.

Lemma flat_map_Forall {A B} (P : A -> Prop) (R : B -> Prop) (f : A -> list B)
    (l : list A) :
  (forall a, P a -> Forall R (f a)) -> Forall P l -> Forall R (flat_map f l).
Proof.
  intros Hf. induction 1 as [|a l Ha _ IH]; cbn; [constructor|].
  apply Forall_app. split; [apply Hf; exact Ha | exact IH].
Qed.

Lemma ageShots_expire (n : nat) (dt : Q) : forall shots : list Shot,
  Forall (fun p => life p < age p + dt * inject_Z (Z.of_nat (S n))) shots ->
  ageShots (S n) dt shots = [].
Proof.
  induction n as [|n IH]; intros shots H.
  - cbn [ageShots]. apply flat_map_nil.
    eapply Forall_impl; [|exact H].
    intros p Hp. cbv beta in Hp. apply drawShot_expires.
    change (inject_Z (Z.of_nat 1)) with 1 in Hp. lra.
  - change (ageShots (S (S n)) dt shots)
      with (ageShots (S n) dt (flat_map (drawShot dt) shots)).
    apply IH.
    apply (flat_map_Forall
             (fun p => life p < age p + dt * inject_Z (Z.of_nat (S (S n))))).
    + intros p Hp. cbv beta in Hp. apply drawShot_ages.
      assert (E : inject_Z (Z.of_nat (S (S n))) == inject_Z (Z.of_nat (S n)) + 1).
      { rewrite (Nat2Z.inj_succ (S n)). unfold Z.succ.
        rewrite inject_Z_plus. reflexivity. }
      rewrite E in Hp. lra.
    + exact H.
Qed.

Lemma scaled_height (u ht : Q) :
  0 <= ht -> 0 <= u < 1 -> 0 <= u * ht * 0.55 /\ u * ht * 0.55 <= ht * 0.55.
Proof.
  intros H0 [U0 U1].
  assert (0 <= u * ht) by (apply Qmult_le_0_compat; assumption).
  assert (0 <= (1 - u) * ht) by (apply Qmult_le_0_compat; lra).
  split; lra.
Qed.

(** X8: [spawnShot] appends one shot and touches nothing else but the random
    counter.  The shot starts 60 px outside the left or the right edge, in
    the upper 55 % of the canvas, at age 0, with a trail of 180 to 420 px
    and a life of 420 to 1000 ms; 25 frames of the 40 ms that [draw] allows
    at most remove it again. *)
Theorem spawned_shot_is_short_lived (wd : World) :
  0 <= h (dimsRef (refs wd)) ->
  let d := dimsRef (refs wd) in
  let wd' := spawnShot random PI cos sin wd in
  starsRef (refs wd') = starsRef (refs wd)
  /\ host wd' = host wd
  /\ rng wd' = (rng wd + 6)%nat
  /\ exists shot,
       shotsRef (refs wd') = shotsRef (refs wd) ++ [shot]
       /\ (sx shot = -60 \/ sx shot = w d + 60)
       /\ (0 <= sy shot /\ sy shot <= h d * 0.55)
       /\ age shot = 0
       /\ (180 <= len shot /\ len shot < 420)
       /\ (420 <= life shot /\ life shot < 1000)
       /\ ageShots 25 40 [shot] = [].
Proof.
  intros Hh. cbv zeta.
  unfold spawnShot, bind, ret, rand, Math_random.
  cbn [fst snd refs set_refs host rng starsRef shotsRef with_particles].
  draws_in_range.
  split; [destruct (ltb (random (rng wd)) 0.5); reflexivity|].
  split; [destruct (ltb (random (rng wd)) 0.5); reflexivity|].
  split; [destruct (ltb (random (rng wd)) 0.5); cbn; lia|].
  destruct (ltb (random (rng wd)) 0.5); cbn [fst snd refs set_refs shotsRef with_particles];
    eexists; (split; [reflexivity|]); cbn [sx sy age len life]; draws_in_range;
    (split; [auto|]);
    (split; [apply scaled_height; [exact Hh | apply random_range]|]);
    (split; [reflexivity|]);
    (split; [split; lra|]); (split; [split; lra|]);
    apply (ageShots_expire 24 40); (apply Forall_cons; [|apply Forall_nil]);
    cbn [life age]; change (inject_Z (Z.of_nat 25)) with 25; lra.
Qed.

(** [maybeSpawnShot] does nothing at all when the shooting frequency is not
    positive; otherwise it draws a random number and leaves the shots as
    they are or appends exactly one.  The stars are never touched. *)
Lemma maybeSpawnShot_adds_at_most_one (now : Q) (wd : World) :
  let wd' := maybeSpawnShot random PI props cos sin now wd in
  starsRef (refs wd') = starsRef (refs wd)
  /\ host wd' = host wd
  /\ (shootingFrequency props <= 0 -> wd' = wd)
  /\ (0 < shootingFrequency props ->
      (rng wd < rng wd')%nat
      /\ (shotsRef (refs wd') = shotsRef (refs wd)
          \/ exists shot, shotsRef (refs wd') = shotsRef (refs wd) ++ [shot])).
Proof.
  cbv zeta. unfold maybeSpawnShot.
  destruct (gtb (shootingFrequency props) 0) eqn:G.
  - apply gtb_gt in G.
    unfold Math_random. cbv beta iota.
    set (wd1 := set_refs wd (refs wd) (S (rng wd))).
    destruct (ltb (random (rng wd)) _).
    + assert (S1 : starsRef (refs (spawnShot random PI cos sin wd1)) = starsRef (refs wd)
                   /\ host (spawnShot random PI cos sin wd1) = host wd
                   /\ rng (spawnShot random PI cos sin wd1) = (rng wd + 7)%nat
                   /\ exists shot, shotsRef (refs (spawnShot random PI cos sin wd1))
                                   = shotsRef (refs wd) ++ [shot]).
      { unfold spawnShot, bind, ret, rand, Math_random.
        destruct (ltb (random (rng wd1)) 0.5); cbn; repeat split; try lia;
          eexists; reflexivity. }
      destruct S1 as (A & B & C & D).
      split; [exact A|]. split; [exact B|].
      split; [intro; lra|]. intros _. split; [lia | right; exact D].
    + split; [reflexivity|]. split; [reflexivity|].
      split; [intro; lra|]. intros _. split; [cbn; lia | left; reflexivity].
  - apply gtb_le in G.
    split; [reflexivity|]. split; [reflexivity|].
    split; [reflexivity|]. intro; lra.
Qed.

End More.
End StarsBgMore.


(** ** The metaballs: more of [quality], [seed], [animate] and the listeners *)

Module MetaballsBgMore.
Import Js JsFacts MetaballsBg MetaballsBgShape MetaballsBgFacts.

Lemma floor_scaled_le (c k : Q) (lo : Q) :
  0 <= k -> k <= 1 -> 0 <= lo -> Math_floor (c * k) <= Math_max lo c.
Proof.
  intros K0 K1 L. unfold Math_floor, Math_max.
  pose proof (Qfloor_le (c * k)) as F.
  destruct (Qlt_le_dec c 0) as [N | P].
  - apply Qle_trans with lo; [|apply Q.le_max_l].
    assert (c * k <= 0) by nra. lra.
  - apply Qle_trans with c; [|apply Q.le_max_r].
    assert (c * k <= c) by nra. lra.
Qed.

(** The same for the product of doubles, for a factor of at most 0.9. *)
Lemma floor_fmul_le (c k : Q) (lo : Q) :
  0 <= k -> k <= 0.9 -> 0 <= lo -> Math_floor (fmul c (lit k)) <= Math_max lo c.
Proof.
  intros K0 K1 L. unfold Math_floor, Math_max, fmul, lit.
  pose proof (fl_nonneg k K0) as G0. pose proof (fl_le k K0) as G1.
  assert (D : k / 9007199254740992 == k * (1 # 9007199254740992)) by reflexivity.
  rewrite D in G1. clear D.
  set (K := fl k) in *. clearbody K.
  pose proof (Qfloor_le (fl (c * K))) as F.
  destruct (Qlt_le_dec c 0) as [N | P].
  - apply Qle_trans with lo; [|apply Q.le_max_l].
    assert (X : c * K <= 0) by nra.
    pose proof (fl_nonpos _ X). lra.
  - apply Qle_trans with c; [|apply Q.le_max_r].
    assert (X0 : 0 <= c * K) by (apply Qmult_le_0_compat; assumption).
    assert (K91 : K <= 0.91) by lra.
    assert (X1 : c * K <= c * 0.91) by nra.
    pose proof (fl_le _ X0) as U.
    assert (D : c * K / 9007199254740992 == c * K * (1 # 9007199254740992))
      by reflexivity.
    rewrite D in U. clear D.
    set (x := c * K) in *. set (y := fl x) in *. clearbody y. clearbody x. lra.
Qed.

Lemma scaled_le (c k : Q) (lo : Q) :
  0 <= k -> k <= 1 -> 0 <= lo -> c * k <= Math_max lo c.
Proof.
  intros K0 K1 L. unfold Math_max.
  destruct (Qlt_le_dec c 0) as [N | P].
  - apply Qle_trans with lo; [|apply Q.le_max_l].
    assert (c * k <= 0) by nra. lra.
  - apply Qle_trans with c; [|apply Q.le_max_r]. nra.
Qed.

Lemma max_le_max (a b c d : Q) : a <= c -> b <= Math_max c d -> Math_max a b <= Math_max c d.
Proof.
  intros H1 H2. unfold Math_max in *. apply Q.max_lub; [|exact H2].
  apply Qle_trans with c; [exact H1 | apply Q.le_max_l].
Qed.

(** X9: the quality is the props as given, or a reduced one.  A reduced
    quality has a whole number of blobs, at least 2, a blur of at least 6
    and a speed of at least 0.25; and no value of a quality is above the
    larger of the prop and the highest floor (2 blobs, blur 8, speed 0.4). *)
Theorem quality_between_floors_and_props (p : Props) (e : Env) :
  let q := quality p e in
  (q = plainQuality p
   \/ ((exists n : Z, (2 <= n)%Z /\ countToUse q = inject_Z n)
       /\ 6 <= blurToUse q /\ 0.25 <= speedToUse q
       /\ autoReduce p = true /\ hasWindow e = true))
  /\ countToUse q <= Math_max 2 (count p)
  /\ blurToUse q <= Math_max 8 (blur p)
  /\ speedToUse q <= Math_max 0.4 (speed p).
Proof.
  cbv zeta. unfold quality, plainQuality.
  assert (R : forall c, c <= Math_max 2 c) by (intro; apply Q.le_max_r).
  assert (R8 : forall c, c <= Math_max 8 c) by (intro; apply Q.le_max_r).
  assert (R4 : forall c, c <= Math_max 0.4 c) by (intro; apply Q.le_max_r).
  destruct (autoReduce p) eqn:A; [|cbn; auto 6].
  destruct (hasWindow e) eqn:W; [|cbn; auto 6].
  cbn [andb].
  assert (Z2 : forall v, exists n : Z, (2 <= n)%Z
                 /\ Math_max 2 (Math_floor v) = inject_Z n).
  { intro v. exists (Z.max 2 (Qfloor v)). split; [lia|].
    unfold Math_floor. apply (Qmax_inject_Z 2). }
  assert (F6 : forall v, 6 <= Math_max 6 v) by (intro; apply Q.le_max_l).
  assert (F8 : forall v, 6 <= Math_max 8 v).
  { intro v. apply Qle_trans with 8; [lra | apply Q.le_max_l]. }
  assert (S25 : forall v, 0.25 <= Math_max 0.25 v) by (intro; apply Q.le_max_l).
  assert (S4 : forall v, 0.25 <= Math_max 0.4 v).
  { intro v. apply Qle_trans with 0.4; [lra | apply Q.le_max_l]. }
  destruct (prefersReduced e); [|destruct (lowMemory e || fewCores e)];
    cbn [countToUse blurToUse speedToUse].
  - split; [right; auto 6|].
    split; [apply max_le_max; [lra | apply floor_fmul_le; lra]|].
    split; [apply max_le_max; [lra | apply floor_fmul_le; lra]|].
    apply max_le_max; [lra|]. apply scaled_le; lra.
  - split; [right; auto 6|].
    split; [apply max_le_max; [lra | apply floor_fmul_le; lra]|].
    split; [apply max_le_max; [lra | apply floor_fmul_le; lra]|].
    apply max_le_max; [lra|]. apply scaled_le; lra.
  - auto 6.
Qed.

Section More.
Variable random : nat -> Q.
Variable PI : Q.
Variables cos sin : Q -> Q.
Variable props : Props.

(** What an event does to mounted metaballs: the one listener of its kind,
    or the one pending [animate]. *)
Lemma blobs_step_of_live (wd : World) (ev : Event) (k : ObserverKind) :
  live wd -> resizeObserverRef (refs wd) = Some k ->
  step random PI cos sin props wd ev
  = let wd1 := {| env := affect ev (env wd); host := host wd;
                  refs := refs wd; rng := rng wd |} in
    match ev with
    | Frame ts =>
        animate cos sin ts
          (set_host wd1 {| Host.frames := []; Host.nextId := Host.nextId (host wd);
                           Host.listeners := Host.listeners (host wd) |})
    | BoxResize _ _ => wd1
    | Observed =>
        match k with RealObserver => seed random PI props wd1 | WindowFallback => wd1 end
    | WindowResize _ _ =>
        match k with RealObserver => wd1 | WindowFallback => seed random PI props wd1 end
    | VisibilityChange _ => handleVisibility wd1
    end.
Proof.
  intros (Hf & _ & _ & k' & Hk' & Hl) Hk. rewrite Hk in Hk'.
  injection Hk' as <-. cbv zeta.
  destruct ev; unfold step, run_frame, Host.take_frames.
  - cbn [host set_host]. rewrite Hf. reflexivity.
  - reflexivity.
  - unfold dispatch, Host.handlers_for. cbn [host]. rewrite Hl.
    destruct k; reflexivity.
  - unfold dispatch, Host.handlers_for. cbn [host]. rewrite Hl.
    destruct k; reflexivity.
  - unfold dispatch, Host.handlers_for. cbn [host]. rewrite Hl.
    destruct k; reflexivity.
Qed.

Lemma blobs_run_snoc (wd : World) (evs : list Event) (ev : Event) :
  run random PI cos sin props wd (evs ++ [ev])
  = step random PI cos sin props (run random PI cos sin props wd evs) ev.
Proof. unfold run. now rewrite fold_left_app. Qed.

Hypothesis random_range : forall i, 0 <= random i < 1.

Ltac blob_draws_in_range :=
  repeat match goal with
         | |- context [random ?n] =>
             lazymatch goal with
             | _ : 0 <= random n /\ random n < 1 |- _ => fail
             | _ => pose proof (random_range n)
             end
         end.

Lemma makeBlob_ranges (q : Quality) (bw bh : Q) (i k : nat) :
  minR props <= maxR props -> 0 <= speedToUse q ->
  seededRanges props (speedToUse q) (fst (makeBlob random PI props q bw bh i k)).
Proof.
  intros HR HS. unfold makeBlob, bind, ret, Math_random, seededRanges.
  cbn [fst r vx vy phaseSpeed drift driftFactor]. blob_draws_in_range.
  set (s := speedToUse q) in *.
  split; [eexists; reflexivity|].
  split.
  { set (u := random k) in *. set (v := u * (maxR props - minR props) + minR props).
    assert (V : minR props <= v /\ v <= maxR props) by (unfold v; split; nra).
    unfold Math_floor. split.
    - rewrite <- Zle_Qle. apply Qfloor_resp_le. apply V.
    - apply Qle_trans with v; [apply Qfloor_le | apply V]. }
  split; [split; nra|]. split; [split; nra|].
  repeat split; lra.
Qed.

Lemma moveBlob_shape (bw bh dt : Q) (b : Blob) :
  shape (moveBlob cos sin bw bh dt b) = shape b.
Proof. reflexivity. Qed.

Lemma moveBlob_ranges (s bw bh dt : Q) (b : Blob) :
  seededRanges props s b -> seededRanges props s (moveBlob cos sin bw bh dt b).
Proof. intro H. exact H. Qed.

Lemma quality_speed_nonneg (e : Env) : 0 <= speed props -> 0 <= speedToUse (quality props e).
Proof.
  intro H. unfold quality.
  assert (A : 0 <= Math_max 0.25 (speed props * 0.5)).
  { apply Qle_trans with 0.25; [discriminate | apply Q.le_max_l]. }
  assert (B : 0 <= Math_max 0.4 (speed props * 0.6)).
  { apply Qle_trans with 0.4; [discriminate | apply Q.le_max_l]. }
  destruct (autoReduce props && hasWindow e); [|exact H].
  destruct (prefersReduced e); [exact A|].
  destruct (lowMemory e || fewCores e); [exact B | exact H].
Qed.

(** X10: in every state mounted metaballs reach, each blob has the shape
    [seed] gave it: a whole radius between the floor of [minR] and [maxR],
    velocities of at most 0.04 and 0.024 times the effective speed, and
    phase speed, drift and drift factor in the ranges they are drawn from. *)
Theorem blobs_keep_seeded_ranges (e : Env) (seed0 : nat) (evs : list Event) :
  minR props <= maxR props -> 0 <= speed props ->
  Forall (seededRanges props (speedToUse (quality props e)))
         (blobsRef (refs (run random PI cos sin props
                            (mount random PI props e seed0) evs))).
Proof.
  intros HR HS.
  pose (P := fun (e' : Env) (rf : Refs) =>
               quality props e' = quality props e
               /\ Forall (seededRanges props (speedToUse (quality props e)))
                         (blobsRef rf)).
  assert (SEED : forall wd, quality props (env wd) = quality props e ->
            Forall (seededRanges props (speedToUse (quality props e)))
                   (blobsRef (refs (seed random PI props wd)))).
  { intros wd HQ. destruct (seed_refs random PI props wd) as (Hb & _).
    rewrite Hb, HQ. apply for_push_Forall. intros i k.
    apply makeBlob_ranges; [exact HR | apply quality_speed_nonneg; exact HS]. }
  enough (H : P (env (run random PI cos sin props (mount random PI props e seed0) evs))
                (refs (run random PI cos sin props (mount random PI props e seed0) evs)))
    by apply H.
  apply (run_invariant random PI cos sin props P).
  - intros ev e' rf [HQ F]. split; [|exact F]. now rewrite quality_affect.
  - intros hd wd [HQ F]. split; [exact HQ|]. destruct hd.
    + apply SEED, HQ.
    + unfold call, handleVisibility. destruct (visibilityHidden (env wd)); exact F.
  - intros ts wd [HQ F]. split; [exact HQ|].
    destruct (animate_refs cos sin ts wd) as (_ & _ & _ & [E | [dt E]]);
      rewrite E; [exact F|].
    apply Forall_map. eapply Forall_impl; [|exact F].
    intros b Hb. apply moveBlob_ranges, Hb.
  - destruct (mount_refs random PI props e seed0) as (Hb & _ & He).
    split; [now rewrite He|]. rewrite Hb. apply SEED. reflexivity.
Qed.

Lemma makeBlob_phaseSpeed (q : Quality) (bw bh : Q) (i k : nat) :
  0.0025 <= phaseSpeed (fst (makeBlob random PI props q bw bh i k)).
Proof.
  unfold makeBlob, bind, ret, Math_random. cbn [fst phaseSpeed].
  blob_draws_in_range. lra.
Qed.

(** No blob ever has a phase speed below 0.0025. *)
Lemma phaseSpeed_floor (e : Env) (seed0 : nat) (evs : list Event) :
  Forall (fun b => 0.0025 <= phaseSpeed b)
         (blobsRef (refs (run random PI cos sin props
                            (mount random PI props e seed0) evs))).
Proof.
  pose (P := fun (_ : Env) (rf : Refs) =>
               Forall (fun b => 0.0025 <= phaseSpeed b) (blobsRef rf)).
  assert (SEED : forall wd,
            Forall (fun b => 0.0025 <= phaseSpeed b)
                   (blobsRef (refs (seed random PI props wd)))).
  { intros wd. destruct (seed_refs random PI props wd) as (Hb & _).
    rewrite Hb. apply for_push_Forall. intros i k. apply makeBlob_phaseSpeed. }
  apply (run_invariant random PI cos sin props P).
  - intros ev e' rf F. exact F.
  - intros hd wd F. destruct hd.
    + apply SEED.
    + unfold P, call, handleVisibility. destruct (visibilityHidden (env wd)); exact F.
  - intros ts wd F. unfold P.
    destruct (animate_refs cos sin ts wd) as (_ & _ & _ & [E | [dt E]]);
      rewrite E; [exact F|].
    apply Forall_map. eapply Forall_impl; [|exact F].
    intros b Hb. exact Hb.
  - unfold P. destruct (mount_refs random PI props e seed0) as (Hb & _).
    rewrite Hb. apply SEED.
Qed.

Lemma Math_max_1_self (t : Q) : Math_max 1 (t - t) = 1.
Proof.
  unfold Math_max, Qmax, GenericMinMax.gmax.
  destruct (Qcompare 1 (t - t)) eqn:C; [| |reflexivity].
  - apply Qeq_alt in C. lra.
  - apply Qlt_alt in C. lra.
Qed.

Lemma blobs_last_default {A} (l : list A) (a d d' : A) :
  last (a :: l) d = last (a :: l) d'.
Proof.
  revert a. induction l as [|b l IH]; intro a; [reflexivity|].
  change (last (b :: l) d = last (b :: l) d'). apply IH.
Qed.

Lemma blobs_reachable_ind (P : World -> Prop) (e : Env) (seed0 : nat) :
  P (mount random PI props e seed0) ->
  (forall wd ev, live wd -> P wd -> P (step random PI cos sin props wd ev)) ->
  forall evs, P (run random PI cos sin props (mount random PI props e seed0) evs).
Proof.
  intros H0 Hs evs. induction evs as [|ev evs IH] using rev_ind.
  - exact H0.
  - rewrite blobs_run_snoc. apply Hs; [|exact IH].
    apply blobs_run_live, blobs_mount_live.
Qed.

Lemma live_observer (wd : World) :
  live wd -> exists k, resizeObserverRef (refs wd) = Some k.
Proof. intros (_ & _ & _ & k & Hk & _). exists k. exact Hk. Qed.

(** X11: when the page becomes visible again the next frame advances every
    blob by the smallest step [animate] knows, 1 ms, whatever the time
    since the last frame was; and the frame after is measured from it. *)
Theorem blobs_resume_with_unit_step (wd : World) (ts : Q) :
  live wd ->
  let wd' := run random PI cos sin props wd [VisibilityChange false; Frame ts] in
  blobsRef (refs wd')
  = map (moveBlob cos sin (w (sizeRef (refs wd))) (h (sizeRef (refs wd))) 1)
        (blobsRef (refs wd))
  /\ lastTimeRef (refs wd') = Some ts
  /\ live wd'.
Proof.
  intro L. cbv zeta.
  change (run random PI cos sin props wd [VisibilityChange false; Frame ts])
    with (step random PI cos sin props
            (step random PI cos sin props wd (VisibilityChange false)) (Frame ts)).
  pose proof (blobs_step_live random PI cos sin props wd (VisibilityChange false) L) as L1.
  pose proof (blobs_step_live random PI cos sin props _ (Frame ts) L1) as L2.
  split; [|split; [|exact L2]];
    destruct (live_observer _ L1) as [k1 Hk1];
    rewrite (blobs_step_of_live _ (Frame ts) k1 L1 Hk1);
    destruct (live_observer _ L) as [k Hk];
    rewrite (blobs_step_of_live _ (VisibilityChange false) k L Hk);
    cbv zeta; unfold handleVisibility, animate;
    cbn [env affect visibilityHidden set_host set_refs refs with_lastTime lastTimeRef
         sizeRef blobsRef host rng with_blobs];
    unfold request_animate, Host.requestAnimationFrame;
    cbn [env affect visibilityHidden set_host set_refs refs with_lastTime lastTimeRef
         sizeRef blobsRef host rng with_blobs];
    rewrite ?Math_max_1_self; reflexivity.
Qed.

Lemma blobs_hidden_frames_freeze (ts : list Q) : forall w1 : World,
  live w1 -> visibilityHidden (env w1) = true ->
  let wd' := run random PI cos sin props w1 (map Frame ts) in
  blobsRef (refs wd') = blobsRef (refs w1)
  /\ sizeRef (refs wd') = sizeRef (refs w1)
  /\ rng wd' = rng w1
  /\ live wd'
  /\ lastTimeRef (refs wd') = last (map Some ts) (lastTimeRef (refs w1)).
Proof.
  induction ts as [|t ts IH]; intros w1 L1 Hh; cbv zeta.
  - change (run random PI cos sin props w1 (map Frame nil)) with w1.
    split; [reflexivity | split; [reflexivity | split; [reflexivity |]]].
    split; [exact L1 | reflexivity].
  - change (run random PI cos sin props w1 (map Frame (t :: ts)))
      with (run random PI cos sin props (step random PI cos sin props w1 (Frame t))
              (map Frame ts)).
    pose proof (blobs_step_live random PI cos sin props w1 (Frame t) L1) as L2.
    assert (S2 : let w2 := step random PI cos sin props w1 (Frame t) in
                 visibilityHidden (env w2) = true
                 /\ blobsRef (refs w2) = blobsRef (refs w1)
                 /\ sizeRef (refs w2) = sizeRef (refs w1) /\ rng w2 = rng w1
                 /\ lastTimeRef (refs w2) = Some t).
    { cbv zeta. destruct (live_observer _ L1) as [k1 Hk1].
      rewrite (blobs_step_of_live _ (Frame t) k1 L1 Hk1). cbv zeta.
      unfold animate. cbn [env affect set_host]. rewrite Hh.
      unfold request_animate, Host.requestAnimationFrame. cbn.
      rewrite Hh. repeat split. }
    cbv zeta in S2. destruct S2 as (Kh & Ks & Ksz & Kr & Kt).
    destruct (IH _ L2 Kh) as (J1 & J2 & J3 & J4 & J5).
    rewrite J1, J2, J3, J5, Ks, Ksz, Kr, Kt.
    split; [reflexivity | split; [reflexivity | split; [reflexivity |]]].
    split; [exact J4 |].
    destruct ts as [|q ts']; [reflexivity|].
    change (last (map Some (t :: q :: ts')) (lastTimeRef (refs w1)))
      with (last (Some q :: map Some ts') (lastTimeRef (refs w1))).
    change (map Some (q :: ts')) with (Some q :: map Some ts').
    apply blobs_last_default.
Qed.

(** X12: while the page is hidden the frames move no blob and draw no random
    number, and exactly one [animate] stays requested; the time of the last
    frame is still recorded. *)
Theorem blobs_frozen_while_hidden (wd : World) (ts : list Q) :
  live wd ->
  let wd' := run random PI cos sin props wd (VisibilityChange true :: map Frame ts) in
  blobsRef (refs wd') = blobsRef (refs wd)
  /\ sizeRef (refs wd') = sizeRef (refs wd)
  /\ rng wd' = rng wd
  /\ live wd'
  /\ lastTimeRef (refs wd') = last (map Some ts) (lastTimeRef (refs wd)).
Proof.
  intro L. cbv zeta.
  change (run random PI cos sin props wd (VisibilityChange true :: map Frame ts))
    with (run random PI cos sin props
            (step random PI cos sin props wd (VisibilityChange true)) (map Frame ts)).
  pose proof (blobs_step_live random PI cos sin props wd (VisibilityChange true) L) as L1.
  assert (S1 : let w1 := step random PI cos sin props wd (VisibilityChange true) in
               visibilityHidden (env w1) = true
               /\ blobsRef (refs w1) = blobsRef (refs wd)
               /\ sizeRef (refs w1) = sizeRef (refs wd) /\ rng w1 = rng wd
               /\ lastTimeRef (refs w1) = lastTimeRef (refs wd)).
  { cbv zeta. destruct (live_observer _ L) as [k Hk].
    rewrite (blobs_step_of_live _ (VisibilityChange true) k L Hk). cbn. repeat split. }
  cbv zeta in S1. destruct S1 as (Hh & Hs & Hsz & Hr & Ht).
  destruct (blobs_hidden_frames_freeze ts _ L1 Hh) as (J1 & J2 & J3 & J4 & J5).
  rewrite J1, J2, J3, J5, Hs, Hsz, Hr, Ht.
  split; [reflexivity | split; [reflexivity | split; [reflexivity |]]].
  split; [exact J4 | reflexivity].
Qed.

Lemma blobs_step_shape (wd : World) (ev : Event) :
  live wd -> isSeeding ev = false ->
  map shape (blobsRef (refs (step random PI cos sin props wd ev)))
  = map shape (blobsRef (refs wd))
  /\ sizeRef (refs (step random PI cos sin props wd ev)) = sizeRef (refs wd).
Proof.
  intros L N. destruct (live_observer _ L) as [k Hk].
  rewrite (blobs_step_of_live _ ev k L Hk). cbv zeta.
  destruct ev as [ts | bw bh | | bw bh | hid]; try discriminate N.
  - match goal with |- context [animate cos sin ts ?w0] =>
      destruct (animate_refs cos sin ts w0) as (Hs & _ & _ & [E | [dt E]]) end;
      rewrite E, Hs; cbn [refs set_host blobsRef sizeRef]; [auto|].
    split; [|reflexivity]. rewrite map_map. apply map_ext. intro b. reflexivity.
  - cbn [refs]. auto.
  - unfold handleVisibility. cbn [env affect visibilityHidden].
    destruct hid; cbn; auto.
Qed.

(** Between two reseeds nothing but position and phase of a blob changes. *)
Lemma blobs_keep_shape_between_seeds (wd : World) (evs : list Event) :
  live wd -> forallb (fun ev => negb (isSeeding ev)) evs = true ->
  let wd' := run random PI cos sin props wd evs in
  map shape (blobsRef (refs wd')) = map shape (blobsRef (refs wd))
  /\ List.length (blobsRef (refs wd')) = List.length (blobsRef (refs wd))
  /\ sizeRef (refs wd') = sizeRef (refs wd).
Proof.
  intros L H. cbv zeta.
  enough (E : map shape (blobsRef (refs (run random PI cos sin props wd evs)))
              = map shape (blobsRef (refs wd))
              /\ sizeRef (refs (run random PI cos sin props wd evs)) = sizeRef (refs wd)).
  { destruct E as [E1 E2]. split; [exact E1|]. split; [|exact E2].
    rewrite <- (length_map shape), E1. apply length_map. }
  revert wd L H. induction evs as [|ev evs IH]; intros wd L H.
  - split; reflexivity.
  - cbn [forallb] in H. apply andb_prop in H. destruct H as [H1 H2].
    apply negb_true_iff in H1.
    change (run random PI cos sin props wd (ev :: evs))
      with (run random PI cos sin props (step random PI cos sin props wd ev) evs).
    destruct (IH _ (blobs_step_live random PI cos sin props wd ev L) H2) as [A B].
    destruct (blobs_step_shape wd ev L H1) as [C D].
    split; congruence.
Qed.

Lemma measuredBox_snoc (k : ObserverKind) (seen : Size) (now : Env)
    (evs : list Event) (ev : Event) :
  measuredBox k seen now (evs ++ [ev])
  = (if reseeds k ev
     then readBox (affect ev (fold_left (fun e0 ev0 => affect ev0 e0) evs now))
     else measuredBox k seen now evs).
Proof.
  revert seen now. induction evs as [|ev0 evs IH]; intros seen now; cbn.
  - destruct (reseeds k ev); reflexivity.
  - apply IH.
Qed.

Lemma mount_observer (e : Env) (seed0 : nat) :
  resizeObserverRef (refs (mount random PI props e seed0)) = Some (observerOf e).
Proof. unfold mount, observerOf. destruct (hasResizeObserver e); reflexivity. Qed.

(** The browser, the observer and the stored size of mounted metaballs
    after the events [evs]. *)
Lemma blobs_run_size (e : Env) (seed0 : nat) (evs : list Event) :
  let wd := run random PI cos sin props (mount random PI props e seed0) evs in
  env wd = fold_left (fun e0 ev0 => affect ev0 e0) evs e
  /\ resizeObserverRef (refs wd) = Some (observerOf e)
  /\ sizeRef (refs wd) = measuredBox (observerOf e) (readBox e) e evs.
Proof.
  cbv zeta. induction evs as [|ev evs IH] using rev_ind.
  - change (run random PI cos sin props (mount random PI props e seed0) [])
      with (mount random PI props e seed0).
    destruct (mount_refs random PI props e seed0) as (_ & Hs & He).
    rewrite Hs, He. split; [reflexivity|]. split; [apply mount_observer | reflexivity].
  - destruct IH as (En & Ok & Sz).
    rewrite blobs_run_snoc, fold_left_app, measuredBox_snoc. cbn [fold_left].
    rewrite <- En.
    set (wd := run random PI cos sin props (mount random PI props e seed0) evs) in *.
    assert (L : live wd) by apply blobs_run_live, blobs_mount_live.
    rewrite (blobs_step_of_live _ ev (observerOf e) L Ok). cbv zeta.
    destruct ev as [ts | bw bh | | bw bh | hid].
    + match goal with |- context [animate cos sin ts ?w0] =>
        destruct (animate_refs cos sin ts w0) as (H1 & H2 & H3 & _) end.
      rewrite H1, H2, H3. cbn [reseeds]. destruct (observerOf e); cbn; auto.
    + destruct (observerOf e); cbn; auto.
    + destruct (observerOf e); cbn [reseeds].
      * match goal with |- context [seed random PI props ?w0] =>
          destruct (seed_refs random PI props w0) as (_ & H1 & _ & H2 & _ & H3) end.
        rewrite H1, H2, H3. cbn [refs env]. auto.
      * cbn. auto.
    + destruct (observerOf e); cbn [reseeds].
      * cbn. auto.
      * match goal with |- context [seed random PI props ?w0] =>
          destruct (seed_refs random PI props w0) as (_ & H1 & _ & H2 & _ & H3) end.
        rewrite H1, H2, H3. cbn [refs env]. auto.
    + unfold handleVisibility. cbn [env affect visibilityHidden].
      destruct hid; destruct (observerOf e); cbn; auto.
Qed.

Lemma measuredBox_floor (k : ObserverKind) (evs : list Event) :
  forall (seen : Size) (now : Env),
    1 <= w seen /\ 1 <= h seen ->
    1 <= w (measuredBox k seen now evs) /\ 1 <= h (measuredBox k seen now evs).
Proof.
  induction evs as [|ev evs IH]; intros seen now H; cbn [measuredBox]; [exact H|].
  apply IH. destruct (reseeds k ev); [|exact H].
  unfold readBox, Math_max. cbn [w h]. split; apply Q.le_max_l.
Qed.

(** X13: the stored size is the container's box as [seed] measured it last,
    with the floor of 1 px of [readBox]: at the mount, and then at each
    delivery of the resize observations (without [ResizeObserver], at each
    resize event of the window).  A change of the box alone does not touch
    it, so a frame that comes before the delivery moves the blobs in the
    old box; the delivery then stores the box as it is. *)
Theorem blobs_size_follows_container (e : Env) (seed0 : nat) (evs : list Event) :
  let wd := run random PI cos sin props (mount random PI props e seed0) evs in
  sizeRef (refs wd) = measuredBox (observerOf e) (readBox e) e evs
  /\ (1 <= w (sizeRef (refs wd)) /\ 1 <= h (sizeRef (refs wd)))
  /\ (forall bw bh ts,
        sizeRef (refs (run random PI cos sin props wd [BoxResize bw bh; Frame ts]))
        = sizeRef (refs wd))
  /\ (hasResizeObserver e = true ->
      forall bw bh,
        sizeRef (refs (run random PI cos sin props wd [BoxResize bw bh; Observed]))
        = {| w := Math_max 1 bw; h := Math_max 1 bh |}).
Proof.
  cbv zeta.
  destruct (blobs_run_size e seed0 evs) as (En & Ok & Sz).
  split; [exact Sz|]. split; [|split].
  - rewrite Sz. apply measuredBox_floor.
    unfold readBox, Math_max. cbn [w h]. split; apply Q.le_max_l.
  - intros bw bh ts.
    destruct (blobs_run_size e seed0 (evs ++ [BoxResize bw bh; Frame ts])) as (_ & _ & Sz').
    unfold run in *. rewrite fold_left_app in Sz'. rewrite Sz', Sz.
    replace (evs ++ [BoxResize bw bh; Frame ts])
      with ((evs ++ [BoxResize bw bh]) ++ [Frame ts]) by now rewrite <- app_assoc.
    rewrite !measuredBox_snoc. destruct (observerOf e); reflexivity.
  - intros HO bw bh.
    destruct (blobs_run_size e seed0 (evs ++ [BoxResize bw bh; Observed])) as (_ & _ & Sz').
    unfold run in *. rewrite fold_left_app in Sz'. rewrite Sz'.
    replace (evs ++ [BoxResize bw bh; Observed])
      with ((evs ++ [BoxResize bw bh]) ++ [Observed]) by now rewrite <- app_assoc.
    rewrite measuredBox_snoc. unfold observerOf. rewrite HO. cbn [reseeds].
    rewrite fold_left_app. reflexivity.
Qed.

(** X14: with [Math.random] in [0, 1), in every state mounted metaballs
    reach, a frame on a visible page raises the phase of every blob by at
    least [0.0025 / 16.6667]: the phase speed is never below 0.0025, and
    [dt] is at least 1 ms even when the time stamps stand still or run
    backwards.  Nothing of a blob but position and phase changes. *)
Theorem blobs_phase_always_advances (e : Env) (seed0 : nat) (evs : list Event) (ts : Q) :
  let wd := run random PI cos sin props (mount random PI props e seed0) evs in
  visibilityHidden (env wd) = false ->
  Forall2 (fun b b' => phase b + 0.0025 / 16.6667 <= phase b' /\ shape b' = shape b)
          (blobsRef (refs wd)) (blobsRef (refs (animate cos sin ts wd))).
Proof.
  cbv zeta. intro HV.
  pose proof (phaseSpeed_floor e seed0 evs) as F.
  set (wd := run random PI cos sin props (mount random PI props e seed0) evs) in *.
  clearbody wd. unfold animate. rewrite HV.
  unfold request_animate, Host.requestAnimationFrame.
  cbn [refs set_refs set_host blobsRef with_blobs with_lastTime host].
  set (dt := Math_max 1 _).
  assert (D : 1 <= dt) by (unfold dt, Math_max; apply Q.le_max_l).
  clearbody dt.
  induction F as [|b bs P0 _ IH]; cbn [map]; constructor; [|exact IH].
  split; [|reflexivity].
  cbn [moveBlob phase].
  assert (1 / 16.6667 <= dt / 16.6667).
  { unfold Qdiv. apply Qmult_le_compat_r; [exact D | vm_compute; discriminate]. }
  assert (A0 : 0 <= 1 / 16.6667) by (vm_compute; discriminate).
  assert (0.0025 * (1 / 16.6667) <= phaseSpeed b * (dt / 16.6667)).
  { set (a := 1 / 16.6667) in *. set (c := dt / 16.6667) in *.
    apply Qle_trans with (0.0025 * c).
    - apply Qmult_le_l; [reflexivity | assumption].
    - apply Qmult_le_compat_r; [exact P0 | lra]. }
  assert (E : 0.0025 / 16.6667 == 0.0025 * (1 / 16.6667)) by (vm_compute; reflexivity).
  rewrite E. lra.
Qed.

End More.

End MetaballsBgMore.

(** ** The loader: [seededRandom], [pointInShape] and the stages of [animate] *)

Module DThreeLoaderMore.
Import Js JsFacts DThreeLoader DThreeLoaderMath DThreeLoaderFacts.

Lemma seedState_range (seed : Z) :
  Z.rem seed modulus <> (-2147483646)%Z ->
  (1 <= seedState seed <= 2147483646)%Z.
Proof.
  intro H. unfold seedState.
  pose proof (Z.rem_bound_abs seed modulus) as B.
  assert (A : (Z.abs (Z.rem seed modulus) < 2147483647)%Z).
  { apply B. unfold modulus. lia. }
  destruct (Z.leb_spec (Z.rem seed modulus) 0); lia.
Qed.

Lemma nextRandom_range (s : Z) :
  (1 <= s <= 2147483646)%Z -> (1 <= fst (nextRandom s) <= 2147483646)%Z.
Proof.
  intro H. unfold nextRandom. cbn [fst].
  rewrite Z.rem_mod_nonneg by (unfold modulus; lia).
  pose proof (Z.mod_pos_bound (s * 16807) modulus) as B.
  assert (N : ((s * 16807) mod modulus <> 0)%Z).
  { intro E. apply Z.mod_divide in E; [|unfold modulus; lia].
    rewrite Z.mul_comm in E.
    assert (R : (modulus | s)%Z).
    { apply (Z.gauss _ _ _ E). vm_compute. reflexivity. }
    apply Z.divide_pos_le in R; unfold modulus in *; lia. }
  unfold modulus in *. lia.
Qed.

Lemma stateAfter_range (seed : Z) (n : nat) :
  Z.rem seed modulus <> (-2147483646)%Z ->
  (1 <= stateAfter seed n <= 2147483646)%Z.
Proof.
  intro H. induction n as [|n IH]; cbn [stateAfter].
  - apply seedState_range, H.
  - apply nextRandom_range, IH.
Qed.

Lemma output_range (s : Z) :
  (1 <= s <= 2147483646)%Z ->
  0 <= inject_Z (s - 1) / 2147483646 /\ inject_Z (s - 1) / 2147483646 < 1.
Proof.
  intro H.
  assert (A : 0 <= inject_Z (s - 1)).
  { change 0 with (inject_Z 0). rewrite <- Zle_Qle. lia. }
  assert (B : inject_Z (s - 1) < 2147483646).
  { change 2147483646 with (inject_Z 2147483646). rewrite <- Zlt_Qlt. lia. }
  split.
  - apply Qle_shift_div_l; [reflexivity | lra].
  - apply Qlt_shift_div_r; [reflexivity | lra].
Qed.

(** X15: every value of [seededRandom(seed)] is at least 0 and below 1, and
    the state stays between 1 and 2^31 - 2, for every whole seed but those
    whose remainder by 2^31 - 1 is -(2^31 - 2).  From such a seed the state
    is 0 for good and every value is the negative -1/2147483646. *)
Theorem seededRandom_in_unit_interval (seed : Z) (n : nat) :
  (Z.rem seed modulus <> (-2147483646)%Z ->
   (1 <= stateAfter seed n <= 2147483646)%Z
   /\ 0 <= seededRandom seed n /\ seededRandom seed n < 1)
  /\ (Z.rem seed modulus = (-2147483646)%Z ->
      stateAfter seed n = 0%Z /\ seededRandom seed n == - (1 # 2147483646)).
Proof.
  split.
  - intro H. split; [apply stateAfter_range, H|].
    unfold seededRandom, nextRandom. cbn [snd].
    apply output_range.
    apply (nextRandom_range (stateAfter seed n)), stateAfter_range, H.
  - intro H.
    assert (Z0 : forall k, stateAfter seed k = 0%Z).
    { induction k as [|k IH]; cbn [stateAfter].
      - unfold seedState. rewrite H. reflexivity.
      - rewrite IH. reflexivity. }
    split; [apply Z0|].
    unfold seededRandom. rewrite Z0. reflexivity.
Qed.

Lemma crossings_same_side (x y : Q) (side : bool) (rest : list Pt) :
  forall (pj : Pt) (inside : bool),
  gtb (p_y pj) y = side -> Forall (fun p => gtb (p_y p) y = side) rest ->
  crossings x y pj rest inside = inside.
Proof.
  induction rest as [|pi rest IH]; intros pj inside Hj Hr; [reflexivity|].
  apply Forall_cons_iff in Hr. destruct Hr as [Hi Hr']. cbn [crossings].
  unfold intersect. rewrite Hi, Hj, Bool.eqb_reflx. cbn [negb andb].
  apply IH; [exact Hi | exact Hr'].
Qed.

Lemma Forall_last {A} (P : A -> Prop) (l : list A) (d : A) :
  P d -> Forall P l -> P (last l d).
Proof.
  intros Hd H. induction H as [|a l Ha _ IH]; [exact Hd|].
  destruct l as [|b l]; [exact Ha | exact IH].
Qed.

(** [pointInShape] answers false, whatever [x] is, for a point above or
    below all the points of the outline (and for an outline without
    points): no edge is counted as crossed. *)
Lemma pointInShape_outside_rows (x y : Q) (pts : list Pt) :
  Forall (fun p => y < p_y p) pts \/ Forall (fun p => p_y p <= y) pts ->
  pointInShape x y pts = false.
Proof.
  intro H. destruct pts as [|p0 pts]; [reflexivity|].
  unfold pointInShape.
  assert (S : exists side, Forall (fun p => gtb (p_y p) y = side) (p0 :: pts)).
  { destruct H as [H | H]; [exists true | exists false];
      (eapply Forall_impl; [|exact H]); intros p Hp; cbv beta in *.
    - apply gtb_gt, Hp.
    - apply gtb_le, Hp. }
  destruct S as [side S].
  apply (crossings_same_side x y side); [|exact S].
  apply (Forall_last (fun p => gtb (p_y p) y = side)); [|exact S].
  apply Forall_cons_iff in S. apply S.
Qed.

Lemma ltb_negb_leb (a b : Q) : ltb a b = negb (leb b a).
Proof. reflexivity. Qed.

(** X16: for the outline of an upright rectangle from (a, c) to (b, d), given
    corner by corner, [pointInShape] is true exactly for the points with
    a <= x < b and c <= y < d: the left and the top edge belong to the
    shape, the right and the bottom edge do not.  The height must not be
    the 1e-12 that [pointInShape] adds to each divisor. *)
Theorem pointInShape_rectangle (a b c d x y : Q) :
  a < b -> c < d -> ~ d - c == 1 # 1000000000000 ->
  pointInShape x y [ {| p_x := a; p_y := c |}; {| p_x := b; p_y := c |};
                     {| p_x := b; p_y := d |}; {| p_x := a; p_y := d |} ]
  = (leb a x && ltb x b) && (leb c y && ltb y d).
Proof.
  intros Hab Hcd Hne.
  unfold pointInShape, last, crossings, intersect. cbn [p_x p_y].
  rewrite !Bool.eqb_reflx. cbn [negb andb].
  assert (D1 : Qeq_bool (d - c + (1 # 1000000000000)) 0 = false).
  { destruct (Qeq_bool (d - c + (1 # 1000000000000)) 0) eqn:E; [|reflexivity].
    apply Qeq_bool_iff in E. lra. }
  assert (D2 : Qeq_bool (c - d + (1 # 1000000000000)) 0 = false).
  { destruct (Qeq_bool (c - d + (1 # 1000000000000)) 0) eqn:E; [|reflexivity].
    apply Qeq_bool_iff in E. exfalso. apply Hne. lra. }
  rewrite D1, D2.
  assert (N1 : (a - a) * (y - c) / (d - c + (1 # 1000000000000)) + a == a).
  { assert (Z0 : (a - a) * (y - c) == 0) by lra. rewrite Z0.
    unfold Qdiv. lra. }
  assert (N2 : (b - b) * (y - d) / (c - d + (1 # 1000000000000)) + b == b).
  { assert (Z0 : (b - b) * (y - d) == 0) by lra. rewrite Z0.
    unfold Qdiv. lra. }
  assert (L1 : ltb x ((a - a) * (y - c) / (d - c + (1 # 1000000000000)) + a) = ltb x a).
  { destruct (ltb x a) eqn:E.
    - apply ltb_lt. apply ltb_lt in E. lra.
    - apply ltb_ge. apply ltb_ge in E. lra. }
  assert (L2 : ltb x ((b - b) * (y - d) / (c - d + (1 # 1000000000000)) + b) = ltb x b).
  { destruct (ltb x b) eqn:E.
    - apply ltb_lt. apply ltb_lt in E. lra.
    - apply ltb_ge. apply ltb_ge in E. lra. }
  rewrite L1, L2.
  assert (G : forall u v, gtb u v = ltb v u) by reflexivity.
  rewrite !G.
  assert (LE : leb c y = negb (ltb y c)).
  { rewrite ltb_negb_leb. now rewrite Bool.negb_involutive. }
  assert (LA : leb a x = negb (ltb x a)).
  { rewrite ltb_negb_leb. now rewrite Bool.negb_involutive. }
  rewrite LE, LA.
  destruct (ltb y c) eqn:Y1; destruct (ltb y d) eqn:Y2;
    destruct (ltb x a) eqn:X1; destruct (ltb x b) eqn:X2; try reflexivity;
    repeat match goal with
           | H : ltb _ _ = true |- _ => apply ltb_lt in H
           | H : ltb _ _ = false |- _ => apply ltb_ge in H
           end; exfalso; lra.
Qed.

Section Stages.
Variable props : Props.

Lemma ease_range (t : Q) : 0 <= t -> t <= 1 -> 0 <= ease t /\ ease t <= 1.
Proof.
  intros H0 H1. unfold ease.
  set (u := 1 - t). assert (U0 : 0 <= u) by (unfold u; lra).
  assert (U1 : u <= 1) by (unfold u; lra).
  assert (A : 0 <= u * u) by (apply Qmult_le_0_compat; assumption).
  assert (B : u * u <= 1) by nra.
  assert (C : 0 <= u * u * u) by (apply Qmult_le_0_compat; assumption).
  assert (D : u * u * u <= 1) by nra.
  split; lra.
Qed.

Lemma progress_range (st : Stage) (elapsed : Q) :
  0 <= elapsed -> 0 <= progress props st elapsed /\ progress props st elapsed <= 1.
Proof.
  intro H.
  assert (P : forall m, 0 <= Math_min 1 (elapsed / Math_max 80 m)
                        /\ Math_min 1 (elapsed / Math_max 80 m) <= 1).
  { intro m. unfold Math_min, Math_max. split; [|apply Q.le_min_l].
    apply Q.min_glb; [lra|].
    assert (80 <= Qmax 80 m) by apply Q.le_max_l.
    apply Qle_shift_div_l; lra. }
  destruct st; cbn [progress]; try apply P; split; lra.
Qed.

Lemma variation_range (i : nat) : 0.88 <= variation i /\ variation i <= 0.916.
Proof.
  unfold variation.
  assert (B : (i mod 7 < 7)%nat) by (apply Nat.mod_upper_bound; discriminate).
  assert (L : 0 <= inject_Z (Z.of_nat (i mod 7))).
  { change 0 with (inject_Z 0). rewrite <- Zle_Qle. lia. }
  assert (U : inject_Z (Z.of_nat (i mod 7)) <= 6).
  { change 6 with (inject_Z 6). rewrite <- Zle_Qle. lia. }
  split; lra.
Qed.

Lemma blend_range (st : Stage) (elapsed : Q) (i : nat) :
  0 <= elapsed -> st <> idle ->
  0.04 <= blend props st elapsed i /\ blend props st elapsed i <= 0.916.
Proof.
  intros H N. unfold blend.
  destruct (progress_range st elapsed H) as [P0 P1].
  destruct (ease_range _ P0 P1) as [E0 E1].
  set (t := ease (progress props st elapsed)) in *. clearbody t.
  destruct (variation_range i) as [V0 V1].
  destruct st; [congruence | | |]; try (split; nra).
Qed.

(** X17: a frame of an active stage moves each coordinate of a particle
    towards the point it steers to by a share between 4 % and 91.6 % of the
    way: it never passes that point and never moves away from it.  In the
    hold stage the share is the particle's own variation, at least 88 %. *)
Theorem particle_closes_in_without_overshoot
    (st : Stage) (elapsed : Q) (i : nat) (p goal : Q) :
  0 <= elapsed -> st <> idle ->
  let p' := moveParticle props st elapsed i p goal in
  let b := blend props st elapsed i in
  p' - goal == (1 - b) * (p - goal)
  /\ (0.04 <= b /\ b <= 0.916)
  /\ Qabs (p' - goal) <= 0.96 * Qabs (p - goal)
  /\ (st = hold -> b == variation i /\ Qabs (p' - goal) <= 0.12 * Qabs (p - goal)).
Proof.
  intros H N. cbv zeta.
  destruct (blend_range st elapsed i H N) as [B0 B1].
  assert (E : moveParticle props st elapsed i p goal - goal
              == (1 - blend props st elapsed i) * (p - goal)).
  { unfold moveParticle, lerp. destruct st; [congruence | | |]; ring. }
  split; [exact E|]. split; [split; assumption|].
  assert (A : Qabs (moveParticle props st elapsed i p goal - goal)
              == (1 - blend props st elapsed i) * Qabs (p - goal)).
  { rewrite E, Qabs_Qmult. rewrite (Qabs_pos (1 - blend props st elapsed i)) by lra.
    reflexivity. }
  pose proof (Qabs_nonneg (p - goal)) as G.
  split.
  - rewrite A. apply Qmult_le_compat_r; [lra | exact G].
  - intro Hs. subst st.
    assert (V : blend props hold elapsed i == variation i).
    { unfold blend, progress, ease. ring. }
    split; [exact V|]. rewrite A, V.
    destruct (variation_range i) as [V0 _].
    apply Qmult_le_compat_r; [lra | exact G].
Qed.

(** The stage in which a frame paints: idle ends after 220 ms. *)
Lemma animate_stage (now : Q) (wd : World) :
  mounted wd = true ->
  let elapsed := now - stageStart wd in
  let st1 := if match stage wd with idle => gtb elapsed 220 | _ => false end
             then assemble else stage wd in
  stage (animate props now wd)
  = match next_stage props st1 elapsed with Some st2 => st2 | None => st1 end.
Proof.
  intro M. cbv zeta. unfold animate. rewrite M. cbn [negb].
  unfold Host.requestAnimationFrame.
  destruct (match stage wd with idle => gtb (now - stageStart wd) 220 | _ => false end);
    destruct (next_stage props _ _); destruct (renderThrows (env wd)); reflexivity.
Qed.

(** X18: a frame leaves the stage as it is or takes it one step along
    idle, assemble, hold, disperse, idle.  The one jump is from idle to
    hold: the frame that ends idle tests the end of assemble with the time
    spent in idle, so assemble is skipped when that is already
    [assembleMs] or more.  From disperse the stage returns to idle only
    when the loader loops. *)
Theorem loader_stage_order (now : Q) (wd : World) :
  let st := stage wd in
  let st' := stage (animate props now wd) in
  let elapsed := now - stageStart wd in
  (st' = st \/ follows st st' = true)
  /\ (mounted wd = true -> st = idle ->
      (st' = idle <-> elapsed <= 220)
      /\ (st' = hold <-> 220 < elapsed /\ assembleMs props <= elapsed))
  /\ (st = disperse -> st' = idle -> loop props = true).
Proof.
  cbv zeta.
  destruct (mounted wd) eqn:M.
  2:{ unfold animate. rewrite M. cbn [negb].
      split; [left; reflexivity|]. split; [discriminate|].
      intros A B. rewrite A in B. discriminate. }
  rewrite (animate_stage now wd M). cbv zeta.
  set (elapsed := now - stageStart wd).
  destruct (stage wd) eqn:S; cbn [next_stage].
  - destruct (gtb elapsed 220) eqn:G; cbn [next_stage].
    + apply gtb_gt in G.
      destruct (leb (assembleMs props) elapsed) eqn:L; unfold leb in L.
      * apply Qle_bool_iff in L.
        split; [right; reflexivity|]. split; [|discriminate].
        intros _ _. split; split.
        -- discriminate.
        -- intro C. exfalso. lra.
        -- intros _. split; assumption.
        -- reflexivity.
      * assert (L' : ~ assembleMs props <= elapsed).
        { intro C. apply Qle_bool_iff in C. congruence. }
        split; [right; reflexivity|]. split; [|discriminate].
        intros _ _. split; split.
        -- discriminate.
        -- intro C. exfalso. lra.
        -- discriminate.
        -- intros [_ C]. contradiction.
    + apply gtb_le in G.
      split; [left; reflexivity|]. split; [|discriminate].
      intros _ _. split; split.
      * intros _. exact G.
      * reflexivity.
      * discriminate.
      * intros [C _]. exfalso. lra.
  - destruct (leb (assembleMs props) elapsed);
      (split; [auto|]); (split; [discriminate|]); discriminate.
  - destruct (leb (holdMs props) elapsed);
      (split; [auto|]); (split; [discriminate|]); discriminate.
  - destruct (leb (disperseMs props) elapsed);
      [destruct (loop props)|];
      (split; [auto|]); (split; [discriminate|]); intros; congruence.
Qed.

Lemma next_stage_loops (HL : loop props = true) (st : Stage) (el : Q) :
  exists st2, next_stage props st el = Some st2.
Proof.
  destruct st; cbn [next_stage]; rewrite ?HL;
    repeat match goal with |- context [if ?b then _ else _] => destruct b end;
    eexists; reflexivity.
Qed.

Lemma loader_step_working (wd : World) (ev : Event) :
  loop props = true -> benign ev = true -> working wd -> working (step props wd ev).
Proof.
  intros HL B ((M & I & C & Ls & handle & F & R) & N & N' & T & K). unfold step.
  destruct ev as [now | | second | cw | throws | ]; try discriminate B.
  - unfold run_frame, Host.take_frames. cbn [set_env host]. rewrite F.
    cbn [fold_left]. unfold animate.
    cbn [set_env set_host mounted stage stageStart host env affect renderThrows].
    rewrite M, T. cbn [negb].
    unfold Host.requestAnimationFrame. cbn [host Host.frames Host.nextId app].
    destruct (match stage wd with idle => _ | _ => false end);
      match goal with |- context [next_stage props ?s ?el] =>
        destruct (next_stage_loops HL s el) as [st2 E] end;
      rewrite E; unfold working, started; cbn; repeat split; try assumption;
      try (eexists; split; reflexivity); try lia; congruence.
  - cbn [set_env initPending]. rewrite I.
    unfold working, started. cbn. repeat split; try assumption. exists handle. auto.
  - cbn [set_env initPending]. rewrite I.
    unfold working, started. cbn. repeat split; try assumption. exists handle. auto.
  - unfold Host.handlers_for. cbn [set_env host]. rewrite Ls. cbn.
    unfold working, started. cbn. repeat split; try assumption. exists handle. auto.
  - destruct throws; [discriminate B|].
    unfold working, started. cbn. repeat split; try assumption. exists handle. auto.
Qed.

Lemma loader_run_working (evs : list Event) : forall wd : World,
  loop props = true -> forallb benign evs = true -> working wd ->
  working (run props wd evs).
Proof.
  induction evs as [|ev evs IH]; intros wd HL B W; [exact W|].
  cbn [forallb] in B. apply andb_prop in B. destruct B as [B1 B2].
  change (run props wd (ev :: evs)) with (run props (step props wd ev) evs).
  apply IH; [exact HL | exact B2 | apply loader_step_working; assumption].
Qed.

Lemma loader_step_halted (wd : World) (ev : Event) :
  halted wd -> halted (step props wd ev).
Proof.
  intros (F & R & I). unfold step.
  destruct ev as [now | | second | cw | throws | ].
  - unfold run_frame, Host.take_frames. cbn [set_env host]. rewrite F. cbn.
    unfold halted. cbn. auto.
  - cbn [set_env initPending]. rewrite I. unfold halted. cbn. auto.
  - cbn [set_env initPending]. rewrite I. unfold halted. cbn. auto.
  - cbn [set_env host].
    generalize (Host.handlers_for Host.Window Host.resize (host wd)). intro hs.
    set (w0 := set_env wd _).
    assert (S0 : halted w0) by (unfold halted, w0; cbn; auto).
    clearbody w0. revert w0 S0.
    induction hs as [|hd hs IH]; intros w0 S0; [exact S0|].
    cbn [fold_left]. apply IH. destruct hd.
    destruct S0 as (F0 & R0 & I0). unfold halted, handleResize. cbn. auto.
  - unfold halted. cbn. auto.
  - unfold halted, unmount. cbn [set_env host raf hasCleanup initPending].
    rewrite R. destruct (hasCleanup wd); cbn; auto.
Qed.

Lemma loader_run_halted (evs : list Event) : forall wd : World,
  halted wd -> halted (run props wd evs).
Proof.
  induction evs as [|ev evs IH]; intros wd H; [exact H|].
  change (run props wd (ev :: evs)) with (run props (step props wd ev) evs).
  apply IH, loader_step_halted, H.
Qed.

Lemma loader_step_cleared (wd : World) (ev : Event) :
  cleared wd -> cleared (step props wd ev).
Proof.
  intros (F & Ls & C & I). unfold step.
  destruct ev as [now | | second | cw | throws | ].
  - unfold run_frame, Host.take_frames. cbn [set_env host]. rewrite F. cbn.
    unfold cleared. cbn. auto.
  - cbn [set_env initPending]. rewrite I. unfold cleared. cbn. auto.
  - cbn [set_env initPending]. rewrite I. unfold cleared. cbn. auto.
  - unfold Host.handlers_for. cbn [set_env host]. rewrite Ls. cbn.
    unfold cleared. cbn. auto.
  - unfold cleared. cbn. auto.
  - unfold cleared, unmount, Host.removeEventListener, Host.cancelAnimationFrame.
    cbn [set_env host raf hasCleanup initPending container]. rewrite F, Ls, C.
    destruct (hasCleanup wd); [destruct (raf wd) as [h|]; [destruct (Nat.eqb h 0)|]|];
      cbn; auto.
Qed.

Lemma loader_run_cleared (evs : list Event) : forall wd : World,
  cleared wd -> cleared (run props wd evs).
Proof.
  induction evs as [|ev evs IH]; intros wd H; [exact H|].
  change (run props wd (ev :: evs)) with (run props (step props wd ev) evs).
  apply IH, loader_step_cleared, H.
Qed.

Lemma loader_step_fallback (wd : World) (ev : Event) :
  fallback wd -> fallback (step props wd ev).
Proof.
  intros (C & I & F & Ls & R). unfold step.
  destruct ev as [now | | second | cw | throws | ].
  - unfold run_frame, Host.take_frames. cbn [set_env host]. rewrite F. cbn.
    unfold fallback. cbn. auto 6.
  - cbn [set_env initPending]. rewrite I. unfold fallback. cbn. auto 6.
  - cbn [set_env initPending]. rewrite I. unfold fallback. cbn. auto 6.
  - unfold Host.handlers_for. cbn [set_env host]. rewrite Ls. cbn.
    unfold fallback. cbn. auto 6.
  - unfold fallback. cbn. auto 6.
  - unfold fallback, unmount, Host.removeEventListener.
    cbn [set_env host raf hasCleanup initPending container]. rewrite R, F, Ls, C.
    destruct (hasCleanup wd); cbn; auto 6.
Qed.

Lemma loader_run_fallback (evs : list Event) : forall wd : World,
  fallback wd -> fallback (run props wd evs).
Proof.
  induction evs as [|ev evs IH]; intros wd H; [exact H|].
  change (run props wd (ev :: evs)) with (run props (step props wd ev) evs).
  apply IH, loader_step_fallback, H.
Qed.

(** X19: a loader that loops, once its modules have arrived.  Without
    WebGL the constructor of the renderer throws and the loader gives up:
    the fallback shape stays, and nothing is ever requested or attached.
    With WebGL, and as long as the renderer does not throw and the
    component is not unmounted, every state has exactly one [animate]
    requested and the canvas in the container: no frame, resize or late
    module stops or doubles the loop.  The first frame whose render throws
    ends the loop for good, and the unmount cancels the request, removes
    the listener and takes the canvas out. *)
Theorem looping_loader_keeps_one_frame_requested (e : Env) (evs : list Event) :
  loop props = true -> hasWindow e = true -> prefersReduced e = false ->
  let wd := run props (mount e) (ImportsLoaded :: evs) in
  (webgl e = false -> fallback wd)
  /\ (webgl e = true -> renderThrows e = false -> forallb benign evs = true ->
      started wd
      /\ (forall now later,
            halted (run props wd (RendererFault true :: Frame now :: later)))
      /\ (forall later, cleared (run props wd (Unmount :: later)))).
Proof.
  intros HL HW HP. cbv zeta.
  change (run props (mount e) (ImportsLoaded :: evs))
    with (run props (step props (mount e) ImportsLoaded) evs).
  split.
  - intro G. apply loader_run_fallback.
    unfold step, mount. rewrite HW, HP. cbn. unfold initThree_resume.
    cbn [env set_env affect webgl]. rewrite G. unfold fallback. cbn. auto 6.
  - intros G T B.
    assert (W0 : working (step props (mount e) ImportsLoaded)).
    { unfold step, mount. rewrite HW, HP. cbn. unfold initThree_resume.
      cbn [env set_env affect webgl containerRef]. rewrite G. cbn.
      unfold working, started. cbn. repeat split; try assumption; try lia;
        try discriminate.
      eexists. split; reflexivity. }
    pose proof (loader_run_working evs _ HL B W0) as W.
    set (wd := run props (step props (mount e) ImportsLoaded) evs) in *.
    clearbody wd.
    destruct W as ((M & I & C & Ls & handle & F & R) & N & N' & T' & K).
    split; [|split].
    + unfold started. repeat split; try assumption. exists handle. auto.
    + intros now later.
      change (run props wd (RendererFault true :: Frame now :: later))
        with (run props (step props (step props wd (RendererFault true)) (Frame now))
                later).
      apply loader_run_halted.
      unfold step at 1. unfold run_frame, Host.take_frames.
      cbn [step set_env host env affect]. rewrite F. cbn [fold_left].
      unfold animate.
      cbn [set_env set_host mounted stage stageStart host env affect renderThrows].
      rewrite M. cbn [negb]. unfold Host.requestAnimationFrame.
      cbn [host Host.frames Host.nextId app].
      apply Nat.eqb_neq in N.
      destruct (match stage wd with idle => _ | _ => false end);
        match goal with |- context [next_stage props ?s ?el] =>
          destruct (next_stage_loops HL s el) as [st2 E] end;
        rewrite E; unfold halted, stop_on_render_error, Host.cancelAnimationFrame;
        cbn; rewrite N; cbn; rewrite Nat.eqb_refl; cbn; auto.
    + intros later.
      change (run props wd (Unmount :: later))
        with (run props (step props wd Unmount) later).
      apply loader_run_cleared.
      unfold step, unmount, Host.removeEventListener, Host.cancelAnimationFrame.
      cbn [set_env host raf hasCleanup initPending container env affect].
      rewrite K, R, F, Ls, C. unfold cleared.
      assert (H0 : Nat.eqb handle 0 = false).
      { apply Nat.eqb_neq. intro Z0. apply N'. rewrite R, Z0. reflexivity. }
      rewrite H0. cbn. rewrite Nat.eqb_refl. cbn. auto.
Qed.

Lemma loader_step_stopped (wd : World) (ev : Event) :
  stopped wd ->
  stopped (step props wd ev) /\ stage (step props wd ev) = stage wd
  /\ log (step props wd ev) = log wd.
Proof.
  intros (F & R & Rn & I). unfold step.
  destruct ev as [now | | second | cw | throws | ].
  - unfold run_frame, Host.take_frames. cbn [set_env host]. rewrite F. cbn.
    unfold stopped. cbn. auto.
  - cbn [set_env initPending]. rewrite I. unfold stopped. cbn. auto.
  - cbn [set_env initPending]. rewrite I. unfold stopped. cbn. auto.
  - cbn [set_env host].
    generalize (Host.handlers_for Host.Window Host.resize (host wd)). intro hs.
    set (w0 := set_env wd _).
    assert (S0 : stopped w0 /\ stage w0 = stage wd /\ log w0 = log wd).
    { unfold stopped, w0. cbn. auto. }
    clearbody w0. revert w0 S0.
    induction hs as [|hd hs IH]; intros w0 S0; [exact S0|].
    cbn [fold_left]. apply IH. destruct hd.
    destruct S0 as ((F0 & R0 & Rn0 & I0) & St & Lg).
    unfold stopped, handleResize. cbn. auto.
  - unfold stopped. cbn. auto.
  - unfold stopped, unmount. cbn [set_env host raf hasCleanup initPending running].
    rewrite R. destruct (hasCleanup wd); cbn; auto.
Qed.

(** X20: a loader that does not loop stops at the frame that ends disperse:
    the callback it has just requested is cancelled, and from then on no
    event requests a frame, changes the stage or renders again. *)
Theorem loader_without_loop_stops (wd : World) (now : Q) (evs : list Event) :
  loop props = false -> started wd -> stage wd = disperse ->
  disperseMs props <= now - stageStart wd ->
  let wd' := step props wd (Frame now) in
  stopped wd'
  /\ log wd' = log wd ++ [RenderScene]
  /\ stopped (run props wd' evs)
  /\ stage (run props wd' evs) = disperse
  /\ log (run props wd' evs) = log wd'.
Proof.
  intros HL (M & I & C & Ls & handle & F & R) HS HD. cbv zeta.
  assert (S1 : stopped (step props wd (Frame now))
               /\ stage (step props wd (Frame now)) = disperse
               /\ log (step props wd (Frame now)) = log wd ++ [RenderScene]).
  { unfold step, run_frame, Host.take_frames. cbn [set_env host]. rewrite F.
    cbn [fold_left]. unfold animate. cbn [set_env set_host mounted stage stageStart host]. rewrite M, HS.
    cbn [negb next_stage]. unfold Host.requestAnimationFrame.
    assert (L : leb (disperseMs props) (now - stageStart wd) = true).
    { unfold leb. apply Qle_bool_iff. exact HD. }
    rewrite L, HL. unfold stopped, stop_on_render_error, Host.cancelAnimationFrame.
    destruct (renderThrows _); cbn; rewrite Nat.eqb_refl; cbn; auto. }
  destruct S1 as (S1 & St & Lg).
  split; [exact S1|]. split; [exact Lg|].
  rewrite <- St.
  generalize dependent (step props wd (Frame now)). intros w1 S1 _ _.
  induction evs as [|ev evs IH] in w1, S1 |- *.
  - auto.
  - change (run props w1 (ev :: evs)) with (run props (step props w1 ev) evs).
    destruct (loader_step_stopped w1 ev S1) as (A & B & D).
    destruct (IH _ A) as (E1 & E2 & E3).
    split; [exact E1|]. split; congruence.
Qed.

(** X21: the renderer, once created, never has a size above the [size] prop,
    and none below 160 px when the prop is at least that: it starts at
    [size], and every resize sets it to the container's rounded width
    clamped between 160 and [size]. *)
Theorem renderer_size_clamped (e : Env) (evs : list Event) :
  match rendererSize (run props (mount e) evs) with
  | None => True
  | Some s => s <= size props /\ (160 <= size props -> 160 <= s)
  end.
Proof.
  assert (H0 : rendererSize (mount e) = None) by reflexivity.
  assert (G : forall wd,
             match rendererSize wd with
             | None => True
             | Some s => s <= size props /\ (160 <= size props -> 160 <= s)
             end ->
             match rendererSize (run props wd evs) with
             | None => True
             | Some s => s <= size props /\ (160 <= size props -> 160 <= s)
             end).
  { induction evs as [|ev evs IH]; intros wd H; [exact H|].
    change (run props wd (ev :: evs)) with (run props (step props wd ev) evs).
    apply IH. unfold step. destruct ev as [now | | second | cw | throws | ].
    - unfold run_frame, Host.take_frames. cbn [set_env host].
      generalize (Host.frames (host wd)). intro batch.
      set (w0 := set_host _ _).
      assert (K : rendererSize w0 = rendererSize wd) by reflexivity.
      rewrite <- K in H. clearbody w0. clear K.
      revert w0 H. induction batch as [|[id cb] batch IHb]; intros w0 H; [exact H|].
      cbn [fold_left]. apply IHb. destruct cb. unfold animate.
      destruct (mounted w0); cbn [negb]; [|exact H].
      unfold Host.requestAnimationFrame.
      destruct (match stage w0 with idle => _ | _ => false end);
        destruct (next_stage props _ _); destruct (renderThrows (env w0)); exact H.
    - cbn [set_env initPending]. destruct (initPending wd); [|exact H].
      unfold initThree_resume, initThree_reject, Host.requestAnimationFrame.
      cbn [set_env env webgl containerRef].
      destruct (webgl _); cbn [negb]; [|exact H].
      destruct (containerRef wd); cbn; (split; [lra | auto]).
    - cbn [set_env initPending]. destruct (initPending wd); exact H.
    - cbn [set_env host].
      generalize (Host.handlers_for Host.Window Host.resize (host wd)). intro hs.
      set (w0 := set_env wd _).
      assert (K : rendererSize w0 = rendererSize wd) by reflexivity.
      rewrite <- K in H. clearbody w0. clear K.
      revert w0 H. induction hs as [|hd hs IHh]; intros w0 H; [exact H|].
      cbn [fold_left]. apply IHh. destruct hd. unfold handleResize. cbn.
      unfold Math_min, Math_max. split.
      + apply Q.le_min_l.
      + intro S. apply Q.min_glb; [exact S | apply Q.le_max_l].
    - exact H.
    - exact H. }
  apply G. rewrite H0. exact I.
Qed.

End Stages.

End DThreeLoaderMore.

(** ** The overlay: what stays as the mount left it, and the rebuild loop *)

Module ConstellationOverlayMore.
Import Js ConstellationOverlay ConstellationOverlayShape ConstellationOverlayFacts.

Local Arguments howMany : simpl never.

Lemma overlay_run_app (wd : World) (l1 l2 : list Event) :
  run wd (l1 ++ l2) = run (run wd l1) l2.
Proof. unfold run. apply fold_left_app. Qed.

Lemma settled_refl (wd : World) : settled wd wd.
Proof. unfold settled. auto 10. Qed.

Lemma settled_trans (w0 w1 w2 : World) : settled w0 w1 -> settled w1 w2 -> settled w0 w2.
Proof.
  intros (A1 & A2 & A3 & A4 & A5) (B1 & B2 & B3 & B4 & B5).
  unfold settled. repeat split; congruence.
Qed.


Lemma updatePositions_settled (wd : World) : settled wd (updatePositions wd).
Proof. unfold updatePositions. destruct (svg wd) eqn:E; unfold settled; cbn; auto 10. Qed.

Lemma rebuild_settled (wd : World) : settled wd (rebuild wd).
Proof.
  unfold rebuild, updatePositions. destruct (svg wd) eqn:E; [|apply settled_refl].
  cbn. rewrite E. unfold settled. cbn. repeat split; assumption.
Qed.

Lemma deliver_settled (wd : World) : settled wd (deliver wd).
Proof.
  unfold deliver, onMutations.
  destruct (records wd); [|apply settled_refl]. cbn.
  destruct (observing wd); cbn; [destruct (rebuildScheduled wd)|];
    unfold settled; cbn; auto 10.
Qed.

Lemma invoke_settled (cb : Cb) (wd : World) : settled wd (invoke cb wd).
Proof.
  destruct cb; cbn [invoke].
  - unfold rafLoop. destruct (svg wd) eqn:E; unfold settled; cbn; auto 10.
  - apply settled_trans with (set_rebuildScheduled false wd);
      [unfold settled; cbn; auto 10 | apply rebuild_settled].
  - apply settled_trans with (set_pending false wd);
      [unfold settled; cbn; auto 10 | apply rebuild_settled].
Qed.

Lemma call_settled (ev : Event) (hd : Hd) (wd : World) : settled wd (call ev hd wd).
Proof.
  destruct hd; cbn [call].
  - destruct ev; try apply settled_refl.
    destruct (svg wd) eqn:E; unfold settled; cbn; auto 10.
  - unfold scheduleRecalc. destruct (pending wd); unfold settled; cbn; auto 10.
Qed.

Lemma fold_settled {A} (f : World -> A -> World) (l : list A) :
  (forall w a, settled w (f w a)) -> forall wd, settled wd (fold_left f l wd).
Proof.
  intro Hf. induction l as [|a l IH]; intro wd; cbn [fold_left].
  - apply settled_refl.
  - eapply settled_trans; [apply Hf | apply IH].
Qed.

Lemma step_settled (wd : World) (ev : Event) : settled wd (step wd ev).
Proof.
  destruct ev; cbn [step].
  - unfold run_frame, Host.take_frames.
    eapply settled_trans; [|apply fold_settled].
    + unfold settled. cbn. auto 10.
    + intros w a. eapply settled_trans; [apply invoke_settled | apply deliver_settled].
  - eapply settled_trans; [|apply deliver_settled]. unfold settled. cbn. auto 10.
  - destruct childList.
    + eapply settled_trans; [|apply deliver_settled]. unfold settled. cbn. auto 10.
    + unfold settled. cbn. auto 10.
  - eapply settled_trans; [|apply deliver_settled].
    unfold dispatch. apply fold_settled. intros; apply call_settled.
  - eapply settled_trans; [|apply deliver_settled].
    unfold dispatch. apply fold_settled. intros; apply call_settled.
  - eapply settled_trans; [|apply deliver_settled].
    unfold dispatch. apply fold_settled. intros; apply call_settled.
  - destruct (retries wd) as [|k]; [apply settled_refl|].
    eapply settled_trans; [|apply deliver_settled].
    eapply settled_trans; [|apply rebuild_settled].
    unfold settled. cbn. auto 10.
  - destruct (interval wd); [|apply settled_refl].
    eapply settled_trans; [apply updatePositions_settled | apply deliver_settled].
Qed.

Lemma run_settled (evs : list Event) : forall wd, settled wd (run wd evs).
Proof. unfold run. apply fold_settled. apply step_settled. Qed.

Lemma mount_listeners_and_interval (els : list nat) (evs : list Event) :
  interval (run (mount els) evs) = true
  /\ Host.listeners (host (run (mount els) evs)) = windowListeners.
Proof.
  destruct (run_settled evs (mount els)) as (_ & A3 & A4 & _).
  rewrite A3, A4. split; reflexivity.
Qed.









Lemma invoke_keeps_schedule (i : nat) (cb : Cb) (rest : list (nat * Cb)) (wd : World) :
  coherent ((i, cb) :: rest) wd -> rebuildScheduled wd = true ->
  rebuildScheduled (deliver (invoke cb wd)) = true.
Proof.
  intros (Hs & Ho & Hrec & _) E. destruct cb; cbn [invoke].
  - unfold rafLoop. rewrite Hs. unfold deliver. cbn. rewrite Hrec. cbn. exact E.
  - unfold rebuild, updatePositions. cbn. rewrite ?Hs. cbn. rewrite ?Hs.
    unfold deliver. cbn. rewrite Ho. unfold onMutations. cbn. reflexivity.
  - unfold rebuild, updatePositions. cbn. rewrite ?Hs. cbn. rewrite ?Hs.
    unfold deliver. cbn. rewrite Ho. unfold onMutations. cbn. rewrite E. cbn. exact E.
Qed.

Lemma frame_keeps_schedule (rest : list (nat * Cb)) : forall wd : World,
  coherent rest wd -> rebuildScheduled wd = true ->
  rebuildScheduled
    (fold_left (fun acc (e : nat * Cb) => deliver (invoke (snd e) acc)) rest wd) = true.
Proof.
  induction rest as [|[i cb] rest IH]; intros wd H E; cbn [fold_left snd].
  - exact E.
  - destruct (invoke_coherent i cb rest wd H) as [H1 _].
    apply IH; [exact H1 | apply (invoke_keeps_schedule i cb rest wd H E)].
Qed.

Lemma call_keeps_schedule (ev : Event) (hd : Hd) (wd : World) :
  rebuildScheduled (call ev hd wd) = rebuildScheduled wd.
Proof.
  destruct hd; cbn [call].
  - destruct ev; try reflexivity. destruct (svg wd); reflexivity.
  - unfold scheduleRecalc. destruct (pending wd); reflexivity.
Qed.

Lemma dispatch_keeps_schedule (ty : Host.EventType) (ev : Event) (wd : World) :
  rebuildScheduled (dispatch ty ev wd) = rebuildScheduled wd.
Proof.
  unfold dispatch. generalize (Host.handlers_for Host.Window ty (host wd)). intro hs.
  revert wd. induction hs as [|hd hs IH]; intro wd; cbn [fold_left]; [reflexivity|].
  rewrite IH. apply call_keeps_schedule.
Qed.

Lemma step_keeps_schedule (wd : World) (ev : Event) :
  coherent [] wd -> rebuildScheduled wd = true ->
  rebuildScheduled (step wd ev) = true.
Proof.
  intros H E. pose proof H as (Hs & Ho & Hrec & Hm & Hr). destruct ev; cbn [step].
  - unfold run_frame, Host.take_frames.
    match goal with |- context [fold_left _ _ ?w] => set (w0 := w) end.
    apply frame_keeps_schedule; [|exact E].
    unfold coherent, w0. cbn. count_callbacks. repeat split; try assumption; lia.
  - apply (onMutations_coherent [] wd Hs Ho Hm Hr).
  - destruct childList.
    + apply (onMutations_coherent [] (set_nodeEls els wd) Hs Ho Hm Hr).
    + exact E.
  - rewrite deliver_coherent by (apply dispatch_coherent, H).
    now rewrite dispatch_keeps_schedule.
  - rewrite deliver_coherent by (apply dispatch_coherent, H).
    now rewrite dispatch_keeps_schedule.
  - rewrite deliver_coherent by (apply dispatch_coherent, H).
    now rewrite dispatch_keeps_schedule.
  - destruct (retries wd) as [|k]; [exact E|].
    unfold rebuild, updatePositions. cbn. rewrite ?Hs. cbn. rewrite ?Hs.
    unfold deliver. cbn. rewrite Ho. unfold onMutations. cbn. rewrite E. cbn. exact E.
  - destruct (interval wd); [|exact E].
    unfold updatePositions. rewrite Hs. cbn.
    unfold deliver. cbn. rewrite Ho. unfold onMutations. cbn. rewrite E. cbn. exact E.
Qed.

Lemma run_keeps_schedule (evs : list Event) : forall wd : World,
  coherent [] wd -> rebuildScheduled wd = true ->
  rebuildScheduled (run wd evs) = true.
Proof.
  induction evs as [|ev evs IH]; intros wd H E; [exact E|].
  change (run wd (ev :: evs)) with (run (step wd ev) evs).
  apply IH; [apply step_coherent, H | apply step_keeps_schedule; assumption].
Qed.

(** X23: the overlay keeps itself busy.  [updatePositions] refills the mask,
    the observer sees that as a mutation and requests a rebuild, and the
    rebuild ends in [updatePositions] again: from the first tick of the
    interval on, in every state one rebuild of the observer is scheduled,
    and every frame runs it (and the one of [scheduleRecalc], if that
    waits). *)
Theorem overlay_rebuilds_on_every_frame (els : list nat) (before after : list Event) :
  let wd := run (mount els) (before ++ IntervalTimer :: after) in
  rebuildScheduled wd = true
  /\ howMany is_mutation_rebuild (Host.frames (host wd)) = 1%nat
  /\ rebuilds (step wd Frame) = (rebuilds wd + 1 + flag (pending wd))%nat
  /\ rebuildScheduled (step wd Frame) = true.
Proof.
  cbv zeta. rewrite overlay_run_app.
  change (run (run (mount els) before) (IntervalTimer :: after))
    with (run (step (run (mount els) before) IntervalTimer) after).
  pose proof (run_coherent before (mount els) (mount_coherent els)) as C0.
  assert (I0 : interval (run (mount els) before) = true)
    by apply (proj1 (mount_listeners_and_interval els before)).
  set (w0 := run (mount els) before) in *. clearbody w0.
  pose proof (step_coherent w0 IntervalTimer C0) as C1.
  assert (E1 : rebuildScheduled (step w0 IntervalTimer) = true).
  { destruct C0 as (Hs & Ho & Hrec & _). cbn [step]. rewrite I0.
    unfold updatePositions. rewrite Hs. cbn.
    unfold deliver. cbn. rewrite Ho. unfold onMutations. cbn.
    destruct (rebuildScheduled w0) eqn:E0; cbn; rewrite ?E0; reflexivity. }
  set (w1 := step w0 IntervalTimer) in *. clearbody w1.
  pose proof (run_coherent after w1 C1) as C2.
  pose proof (run_keeps_schedule after w1 C1 E1) as E2.
  set (w2 := run w1 after) in *. clearbody w2.
  destruct (run_frame_coherent w2 C2) as [C3 R3].
  pose proof C2 as (_ & _ & _ & Hm & Hr).
  rewrite E2 in Hm. count_callbacks.
  split; [exact E2|]. split; [exact Hm|].
  split; [cbn [step]; rewrite R3; lia|].
  apply step_keeps_schedule; assumption.
Qed.

Lemma recalc_step (wd : World) (ev : Event) :
  coherent [] wd -> Host.listeners (host wd) = windowListeners ->
  isRecalcEvent ev = true ->
  pending (step wd ev) = true
  /\ rebuilds (step wd ev) = rebuilds wd
  /\ rebuildScheduled (step wd ev) = rebuildScheduled wd.
Proof.
  intros H L R. pose proof (step_coherent wd ev H) as H'.
  destruct ev; try discriminate R; cbn [step] in *;
    rewrite deliver_coherent in * by (apply dispatch_coherent, H);
    unfold dispatch, Host.handlers_for in *; rewrite L in *; cbn in *;
    unfold scheduleRecalc; destruct (pending wd) eqn:P; cbn; auto.
Qed.

(** X24: any positive number of scrolls and resizes before the next frame
    leaves exactly one rebuild of [scheduleRecalc] requested and runs no
    rebuild by itself; what the observer has scheduled is not touched. *)
Theorem scrolls_and_resizes_coalesce_into_one_recalc
    (els : list nat) (evs moves : list Event) :
  moves <> [] -> forallb isRecalcEvent moves = true ->
  let wd := run (mount els) evs in
  let wd' := run wd moves in
  howMany is_recalc (Host.frames (host wd')) = 1%nat
  /\ pending wd' = true
  /\ rebuilds wd' = rebuilds wd
  /\ rebuildScheduled wd' = rebuildScheduled wd.
Proof.
  intros HN HF. cbv zeta.
  pose proof (run_coherent evs (mount els) (mount_coherent els)) as C0.
  assert (L0 : Host.listeners (host (run (mount els) evs)) = windowListeners)
    by apply (proj2 (mount_listeners_and_interval els evs)).
  set (w0 := run (mount els) evs) in *. clearbody w0.
  assert (G : forall l w, coherent [] w -> Host.listeners (host w) = windowListeners ->
              forallb isRecalcEvent l = true -> l <> [] ->
              pending (run w l) = true /\ rebuilds (run w l) = rebuilds w
              /\ rebuildScheduled (run w l) = rebuildScheduled w).
  { induction l as [|ev l IH]; intros w C L F N; [congruence|].
    cbn [forallb] in F. apply andb_prop in F. destruct F as [F1 F2].
    change (run w (ev :: l)) with (run (step w ev) l).
    destruct (recalc_step w ev C L F1) as (P1 & P2 & P3).
    destruct l as [|ev2 l]; [auto|].
    destruct (IH (step w ev) (step_coherent w ev C)) as (Q1 & Q2 & Q3);
      try assumption; try discriminate.
    - destruct (step_settled w ev) as (_ & S3 & _). congruence.
    - repeat split; congruence. }
  destruct (G moves w0 C0 L0 HF HN) as (P1 & P2 & P3).
  pose proof (run_coherent moves w0 C0) as (_ & _ & _ & _ & Hr).
  rewrite P1 in Hr. count_callbacks.
  repeat split; assumption.
Qed.

End ConstellationOverlayMore.

(** ** The overlay: hovering a node and leaving it again *)

Module ConstellationLinksFacts.
Import Js ConstellationLinks.

Section Hover.
Variable props : Props.

Lemma restyle_round_trip (idx : nat) (ln : Link) :
  asBuilt props ln ->
  restyle props idx false (restyle props idx true ln)
  = if touches idx ln && negb (leadsToTarget idx ln)
    then with_path {| stroke := lineOpacity props; strokeWidth := lineWidth props;
                      opacity := lineOpacity props |} ln
    else ln.
Proof.
  intros [(i & j & ->) | (i & t & ->)]; unfold restyle, touches, leadsToTarget;
    cbn.
  - destruct (Nat.eqb i idx) eqn:Ei; destruct (Nat.eqb j idx) eqn:Ej; cbn;
      rewrite ?Ei, ?Ej; cbn; reflexivity.
  - destruct (Nat.eqb i idx) eqn:Ei; cbn; rewrite ?Ei; cbn; reflexivity.
Qed.

Lemma reclass_fold (idx : nat) (enter : bool) (links : list Link) :
  forall (has : nat -> bool) (t : nat),
  fold_left (reclass idx enter) links has t
  = if existsb (linkedTarget idx t) links then enter else has t.
Proof.
  induction links as [|ln links IH]; intros has t; cbn [fold_left existsb];
    [reflexivity|].
  rewrite IH. unfold reclass, linkedTarget.
  destruct (existsb _ links) eqn:E.
  - now rewrite Bool.orb_true_r.
  - rewrite Bool.orb_false_r. fold (linkedTarget idx t) in E.
    destruct (Nat.eqb (aIdx ln) idx); [|reflexivity].
    destruct (tTarget ln) as [t'|]; reflexivity.
Qed.

Lemma restyle_ends (idx : nat) (enter : bool) (ln : Link) :
  aIdx (restyle props idx enter ln) = aIdx ln
  /\ bIdx (restyle props idx enter ln) = bIdx ln
  /\ tTarget (restyle props idx enter ln) = tTarget ln.
Proof.
  unfold restyle. destruct (leadsToTarget idx ln); destruct (touches idx ln);
    cbn; auto.
Qed.

(** X25: hovering a node and leaving it again gives every link the style
    [rebuild] gave it, when [debug] is off: the round trip of
    [highlightNode] is the identity on the links, and no target the node
    is linked to carries the highlight class afterwards while the class of
    every other target is what it was.  With [debug] on, a link between two
    nodes comes back with [lineOpacity], not with the doubled opacity of
    [rebuild]; links that do not touch the node never change. *)
Theorem hover_round_trip_restores_links
    (idx : nat) (links : list Link) (has : nat -> bool) :
  Forall (asBuilt props) links ->
  let st := highlightNode props idx false (highlightNode props idx true (links, has)) in
  (debug props = false -> fst st = links)
  /\ Forall2 (fun ln ln' =>
                (touches idx ln = false -> ln' = ln)
                /\ (tTarget ln <> None -> ln' = ln)
                /\ (touches idx ln = true -> tTarget ln = None ->
                    pathEl ln' = {| stroke := lineOpacity props;
                                    strokeWidth := lineWidth props;
                                    opacity := lineOpacity props |})
                /\ ln' = with_path (pathEl ln') ln)
             links (fst st)
  /\ forall t, snd st t = if existsb (linkedTarget idx t) links then false else has t.
Proof.
  intro B. cbv zeta. unfold highlightNode. cbn [fst snd].
  rewrite map_map.
  split; [|split].
  - intro D.
    rewrite <- (map_id links) at 2. apply map_ext_in. intros ln Hin.
    rewrite Forall_forall in B. specialize (B ln Hin).
    rewrite (restyle_round_trip idx ln B).
    destruct B as [(i & j & ->) | (i & t & ->)];
      unfold touches, leadsToTarget, nodeLink, targetLink; rewrite ?D; cbn.
    + destruct (Nat.eqb i idx); destruct (Nat.eqb j idx); reflexivity.
    + destruct (Nat.eqb i idx); reflexivity.
  - induction B as [|ln links Hb _ IH]; cbn [map]; constructor; [|exact IH].
    rewrite (restyle_round_trip idx ln Hb).
    destruct Hb as [(i & j & ->) | (i & t & ->)];
      unfold touches, leadsToTarget, nodeLink, targetLink; cbn.
    + destruct (Nat.eqb i idx); destruct (Nat.eqb j idx); cbn;
        (split; [intro; try discriminate; reflexivity|]);
        (split; [intro C; congruence|]);
        (split; [intros; try discriminate; reflexivity|]); reflexivity.
    + destruct (Nat.eqb i idx); cbn;
        (split; [intro; try discriminate; reflexivity|]);
        (split; [reflexivity|]);
        (split; [intros; discriminate|]); reflexivity.
  - intro t. rewrite reclass_fold.
    assert (E : forall l, existsb (linkedTarget idx t) (map (restyle props idx true) l)
                          = existsb (linkedTarget idx t) l).
    { induction l as [|ln l IHl]; cbn [map existsb]; [reflexivity|].
      rewrite IHl. f_equal. unfold linkedTarget.
      destruct (restyle_ends idx true ln) as (E1 & _ & E3). now rewrite E1, E3. }
    rewrite E, reclass_fold.
    destruct (existsb (linkedTarget idx t) links); reflexivity.
Qed.

End Hover.

End ConstellationLinksFacts.

(** ** The contact form: the pattern, the outcome of a submission, edits *)

Module ContactMore.
Import Contact ContactShape ContactFacts.
Local Open Scope list_scope.

Lemma matches_nullable (e : Re) (l : list ascii) :
  matches e l -> l = [] -> nullable e = true.
Proof.
  induction 1 as [ | p c Hp | a b s1 s2 Ha IHa Hb IHb | a b s Ha IHa | a b s Hb IHb
                   | a | a s1 s2 Ha IHa Hb IHb ]; intro E; cbn; try reflexivity.
  - discriminate.
  - apply app_eq_nil in E. destruct E. rewrite IHa, IHb; auto.
  - rewrite IHa; auto.
  - rewrite IHb; auto. apply Bool.orb_true_r.
Qed.

Lemma matches_deriv (e : Re) (l : list ascii) :
  matches e l -> forall c s, l = c :: s -> matches (deriv c e) s.
Proof.
  induction 1 as [ | p c0 Hp | a b s1 s2 Ha IHa Hb IHb | a b s0 Ha IHa | a b s0 Hb IHb
                   | a | a s1 s2 Ha IHa Hb IHb ]; intros c s E; cbn [deriv].
  - discriminate.
  - injection E as -> <-. rewrite Hp. constructor.
  - destruct s1 as [|c1 s1'].
    + cbn in E. rewrite (matches_nullable a [] Ha eq_refl).
      apply MAltR. apply IHb, E.
    + cbn in E. injection E as -> <-.
      assert (M : matches (ReSeq (deriv c a) b) (s1' ++ s2))
        by (constructor; [apply IHa; reflexivity | exact Hb]).
      destruct (nullable a); [apply MAltL|]; exact M.
  - apply MAltL. apply IHa, E.
  - apply MAltR. apply IHb, E.
  - discriminate.
  - destruct s1 as [|c1 s1'].
    + cbn in E. apply (IHb c s E).
    + cbn in E. injection E as -> <-.
      constructor; [apply IHa; reflexivity | exact Hb].
Qed.

Lemma matches_test (e : Re) (s : string) :
  matches e (list_ascii_of_string s) -> test e s = true.
Proof.
  unfold test. generalize (list_ascii_of_string s). intro l.
  revert e. induction l as [|c l IH]; intros e H; cbn [fold_left].
  - apply (matches_nullable e [] H eq_refl).
  - apply IH. apply (matches_deriv e (c :: l) H c l eq_refl).
Qed.

Lemma star_class (p : ascii -> bool) (e : Re) (l : list ascii) :
  matches e l -> e = ReStar (ReClass p) -> forallb p l = true.
Proof.
  induction 1 as [ | q c Hq | a b s1 s2 Ha IHa Hb IHb | a b s0 Ha IHa | a b s0 Hb IHb
                   | a | a s1 s2 Ha IHa Hb IHb ]; intro E; try discriminate.
  - reflexivity.
  - injection E as ->. rewrite forallb_app. rewrite (IHb eq_refl).
    inversion Ha as [| q c Hq | | | | |]; subst. cbn. now rewrite Hq.
Qed.

Lemma class_star (p : ascii -> bool) (l : list ascii) :
  forallb p l = true -> matches (ReStar (ReClass p)) l.
Proof.
  induction l as [|c l IH]; cbn [forallb]; intro H; [constructor|].
  apply andb_prop in H. destruct H as [Hc Hl].
  change (c :: l) with ([c] ++ l). constructor; [now constructor | auto].
Qed.

Lemma plus_class (p : ascii -> bool) (l : list ascii) :
  matches (RePlus (ReClass p)) l <-> l <> [] /\ forallb p l = true.
Proof.
  unfold RePlus. split.
  - intro H. inversion H as [| | a b s1 s2 Ha Hb | | | |]; subst.
    inversion Ha as [| q c Hq | | | | |]; subst.
    split; [discriminate|]. cbn. rewrite Hq.
    apply (star_class p _ _ Hb eq_refl).
  - intros [N F]. destruct l as [|c l]; [congruence|].
    cbn [forallb] in F. apply andb_prop in F. destruct F as [Fc Fl].
    change (c :: l) with ([c] ++ l). constructor; [now constructor | now apply class_star].
Qed.

Lemma char_matches (c : ascii) (l : list ascii) : matches (ReChar c) l <-> l = [c].
Proof.
  unfold ReChar. split.
  - intro H. inversion H as [| q d Hq | | | | |]; subst.
    apply Ascii.eqb_eq in Hq. now subst.
  - intros ->. constructor. apply Ascii.eqb_refl.
Qed.

Lemma seq_matches (a b : Re) (l : list ascii) :
  matches (ReSeq a b) l ->
  exists s1 s2, l = s1 ++ s2 /\ matches a s1 /\ matches b s2.
Proof.
  intro H. inversion H as [| | a' b' s1 s2 Ha Hb | | | |]; subst.
  exists s1, s2. auto.
Qed.

(** X26: the pattern of [validate] accepts exactly the strings of the form
    local@host.tld in which each of the three parts has at least one
    character and none is white space or an [@]: the host may contain dots,
    also next to each other or at its ends, and nothing more is asked of an
    address. *)
Theorem email_pattern_accepts_exactly_addresses (s : string) :
  test emailRe s = true <-> addressShaped (list_ascii_of_string s).
Proof.
  split.
  - intro H. apply test_matches in H. unfold emailRe in H.
    apply seq_matches in H. destruct H as (lcl & r1 & E1 & Hl & K1).
    apply seq_matches in K1. destruct K1 as (at_ & r2 & E2 & Hat & K2).
    apply seq_matches in K2. destruct K2 as (hst & r3 & E3 & Hh & K3).
    apply seq_matches in K3. destruct K3 as (dot & tld & E4 & Hd & Ht).
    apply char_matches in Hat. apply char_matches in Hd. subst.
    apply plus_class in Hl. apply plus_class in Hh. apply plus_class in Ht.
    exists lcl, hst, tld. rewrite E1. cbn [app].
    repeat split; try tauto.
  - intros (lcl & hst & tld & E & N1 & N2 & N3 & F1 & F2 & F3).
    apply matches_test. rewrite E. unfold emailRe.
    constructor; [apply plus_class; auto|].
    change ("@"%char :: hst ++ "."%char :: tld)
      with (["@"%char] ++ (hst ++ ["."%char] ++ tld)).
    constructor; [now apply char_matches|].
    constructor; [apply plus_class; auto|].
    constructor; [now apply char_matches | apply plus_class; auto].
Qed.

Section Submit.
Variable CONTACT_URL : string.

Lemma emailValid_given (f : Form) : emailValid f = true -> emailGiven f = true.
Proof.
  unfold emailValid, emailGiven. destruct (trim (email f)) eqn:E; [|reflexivity].
  vm_compute. discriminate.
Qed.

Lemma validate_nil_iff (f : Form) : validate f = [] <-> valid f = true.
Proof.
  unfold validate, valid, nameGiven, emailValid, messageLongEnough, honeyEmpty.
  pose proof (emailValid_given f) as G. unfold emailValid, emailGiven in G.
  destruct (nonEmpty (trim (name f)));
    destruct (test emailRe (trim (email f)));
    destruct (nonEmpty (trim (email f)));
    destruct (nonEmpty (trim (message f)));
    destruct (Nat.ltb (String.length (trim (message f))) 8);
    destruct (nonEmpty (honey f));
    try (specialize (G eq_refl); discriminate G);
    cbn; split; intro; try discriminate; reflexivity.
Qed.

(** X27: [handleSubmit] sends exactly one request when the name is not
    blank, the trimmed email matches the pattern, the trimmed message has
    at least 8 characters and the honeypot is empty, and none otherwise;
    these four tests are exactly when [validate] finds nothing. *)
Theorem submission_sends_one_request_iff_valid (rp : Reply) (st : State) :
  let st' := handleSubmit CONTACT_URL rp st in
  (validate (form st) = [] <-> valid (form st) = true)
  /\ List.length (requests st')
     = (List.length (requests st) + (if valid (form st) then 1 else 0))%nat
  /\ (if valid (form st)
      then errors st' = [] /\ sending st' = false
      else requests st' = requests st /\ errors st' = validate (form st)
           /\ sending st' = sending st).
Proof.
  cbv zeta. split; [apply validate_nil_iff|].
  destruct (valid (form st)) eqn:V.
  - apply validate_nil_iff in V. unfold handleSubmit. rewrite V.
    rewrite afterFetch_requests. cbn [requests]. rewrite length_app. cbn [List.length].
    split; [reflexivity|].
    destruct rp as [| t | res_ok res_status data]; cbn; auto.
    destruct (res_ok && _); cbn; auto.
  - assert (N : validate (form st) <> []).
    { intro E. apply validate_nil_iff in E. congruence. }
    destruct (handleSubmit_blocked CONTACT_URL rp st N) as (A & B & _ & D & _).
    rewrite A. split; [lia | auto].
Qed.

Lemma firstMessage_validate (f : Form) :
  valid f = false ->
  orElse (firstMessage (validate f)) "Validation error" = firstFailure f.
Proof.
  unfold valid, validate, firstFailure, nameGiven, emailGiven, emailValid,
    messageLongEnough, honeyEmpty.
  pose proof (emailValid_given f) as G. unfold emailValid, emailGiven in G.
  destruct (nonEmpty (trim (name f)));
    destruct (test emailRe (trim (email f)));
    destruct (nonEmpty (trim (email f)));
    destruct (nonEmpty (trim (message f)));
    destruct (Nat.ltb (String.length (trim (message f))) 8);
    destruct (nonEmpty (honey f));
    try (specialize (G eq_refl); discriminate G);
    cbn; intro; try discriminate; reflexivity.
Qed.

(** X28: a submission that is blocked shows the message of the first test
    that fails, in the order name, email, message, honeypot, and changes
    nothing but the status and the errors. *)
Theorem blocked_submission_names_first_failure (rp : Reply) (st : State) :
  valid (form st) = false ->
  let st' := handleSubmit CONTACT_URL rp st in
  status st' = Some {| type := error; text := firstFailure (form st) |}
  /\ form st' = form st /\ confetti st' = confetti st
  /\ requests st' = requests st /\ sending st' = sending st.
Proof.
  intro V. cbv zeta.
  assert (N : validate (form st) <> []).
  { intro E. apply validate_nil_iff in E. congruence. }
  pose proof (firstMessage_validate (form st) V) as F.
  unfold handleSubmit.
  destruct (validate (form st)) as [|kv errs] eqn:E; [congruence|].
  cbn. rewrite F. auto.
Qed.

(** X29: a submission that passes [validate] ends with a success status
    exactly when the reply is JSON, the response is ok and the data does not
    say otherwise.  Only then the form is emptied and the 18 pieces of
    confetti are thrown; every other reply leaves the form as typed, with an
    error status.  In both cases [sending] is false again. *)
Theorem outcome_of_a_valid_submission (rp : Reply) (st : State) :
  valid (form st) = true ->
  let st' := handleSubmit CONTACT_URL rp st in
  sending st' = false
  /\ (exists t, status st'
                = Some {| type := if accepted rp then success else error; text := t |})
  /\ (if accepted rp
      then form st' = emptyForm /\ confetti st' = (confetti st + 18)%nat
      else form st' = form st /\ confetti st' = confetti st).
Proof.
  intro V. cbv zeta. apply validate_nil_iff in V. unfold handleSubmit. rewrite V.
  destruct rp as [| t | res_ok res_status data]; cbn [afterFetch accepted].
  - cbn. split; [reflexivity|]. split; [eexists; reflexivity | auto].
  - cbn. split; [reflexivity|]. split; [eexists; reflexivity | auto].
  - destruct (res_ok && _); cbn;
      (split; [reflexivity|]); (split; [eexists; reflexivity | auto]).
Qed.

End Submit.

Lemma get_filter (k field : string) (o : Obj) :
  get k (filter (fun kv => negb (String.eqb (fst kv) field)) o)
  = if String.eqb k field then None else get k o.
Proof.
  induction o as [|[k' v] o IH]; cbn [filter get fst].
  - now destruct (String.eqb k field).
  - destruct (String.eqb k' field) eqn:E1; cbn [negb get].
    + rewrite IH. destruct (String.eqb k field) eqn:E2; [reflexivity|].
      destruct (String.eqb k k') eqn:E3; [|reflexivity].
      apply String.eqb_eq in E3. subst. congruence.
    + destruct (String.eqb k k') eqn:E3.
      * apply String.eqb_eq in E3. subst. now rewrite E1.
      * exact IH.
Qed.

(** X30: an edit clears the error of the edited field and no other, clears
    the status, and sends nothing; the other fields of the form keep their
    values. *)
Theorem edit_clears_only_its_own_error (field value k : string) (st : State) :
  let st' := handleChange field value st in
  get k (errors st') = (if String.eqb k field then None else get k (errors st))
  /\ status st' = None
  /\ requests st' = requests st
  /\ (String.eqb field "name" = false -> name (form st') = name (form st))
  /\ (String.eqb field "email" = false -> email (form st') = email (form st))
  /\ (String.eqb field "subject" = false -> subject (form st') = subject (form st))
  /\ (String.eqb field "message" = false -> message (form st') = message (form st))
  /\ (String.eqb field "honey" = false -> honey (form st') = honey (form st)).
Proof.
  cbv zeta. unfold handleChange. cbn [errors status requests form].
  split; [apply get_filter|]. split; [reflexivity|]. split; [reflexivity|].
  destruct (String.eqb field "name") eqn:E1;
    [apply String.eqb_eq in E1; subst; cbn; repeat split; intros; congruence|].
  destruct (String.eqb field "email") eqn:E2;
    [cbn; repeat split; intros; congruence|].
  destruct (String.eqb field "subject") eqn:E3;
    [cbn; repeat split; intros; congruence|].
  destruct (String.eqb field "message") eqn:E4;
    [cbn; repeat split; intros; congruence|].
  destruct (String.eqb field "honey") eqn:E5;
    cbn; repeat split; intros; congruence.
Qed.

End ContactMore.
(* ===================================================================== *)
(** * Part III: the guarantees at concrete pages *)
(* ===================================================================== *)

Module Instances.
Local Open Scope string_scope.

Lemma sample_random_range (i : nat) : 0 <= Sample.random i < 1.
Proof.
  unfold Sample.random.
  pose proof (Z.mod_pos_bound (Z.of_nat i * 7919 + 1234) 10007 eq_refl) as [H0 H1].
  split.
  - unfold Qle. cbn. lia.
  - unfold Qlt. cbn. lia.
Qed.

(** C1, the claim as written fails: with every random draw 0, all stars of a
    1000 by 800 canvas start at the left edge and drift left; two frames of
    40 ms later they are 0.48 px outside, more than the radius 0.245 of the
    stars of the far layer, and far from the wrap at 20 px. *)
Lemma star_further_out_than_its_radius :
  let wd := StarsBg.run Sample.zero Sample.PI StarsBg.defaultProps
              (StarsBg.mount Sample.zero Sample.PI StarsBg.defaultProps
                 Sample.starsEnv 0)
              [StarsBg.Frame 40; StarsBg.Frame 80] in
  ~ Forall (fun s => 0 - StarsBg.r s <= StarsBg.x s
                     /\ StarsBg.x s <= StarsBg.w (StarsBg.dimsRef (StarsBg.refs wd))
                                       + StarsBg.r s)
           (StarsBg.starsRef (StarsBg.refs wd)).
Proof.
  cbv zeta. intro H. vm_compute in H.
  apply Forall_inv in H. destruct H as [H _]. apply H. reflexivity.
Qed.

(** C1 at a page: the metaballs of app/page.js and the default starfield,
    after a few frames and a resize. *)
Lemma particles_stay_near_the_visible_area_witness :
  (let rf := MetaballsBg.refs
               (MetaballsBg.run Sample.random Sample.PI Sample.cos Sample.sin
                  MetaballsBg.pageProps
                  (MetaballsBg.mount Sample.random Sample.PI MetaballsBg.pageProps
                     Sample.blobsEnv 0)
                  [MetaballsBg.Frame 16; MetaballsBg.BoxResize 800 600;
                   MetaballsBg.Observed; MetaballsBg.Frame 33]) in
   Forall (fun b =>
             (0 - MetaballsBg.r b <= MetaballsBg.x b
              /\ MetaballsBg.x b <= MetaballsBg.w (MetaballsBg.sizeRef rf) + MetaballsBg.r b)
             /\ (0 - MetaballsBg.r b <= MetaballsBg.y b
                 /\ MetaballsBg.y b <= MetaballsBg.h (MetaballsBg.sizeRef rf) + MetaballsBg.r b))
          (MetaballsBg.blobsRef rf))
  /\
  (let rf := StarsBg.refs
               (StarsBg.run Sample.random Sample.PI StarsBg.defaultProps
                  (StarsBg.mount Sample.random Sample.PI StarsBg.defaultProps
                     Sample.starsEnv 0)
                  [StarsBg.Frame 16; StarsBg.Frame 33]) in
   Forall (fun s =>
             (0 - 20 <= StarsBg.x s
              /\ StarsBg.x s <= StarsBg.w (StarsBg.dimsRef rf) + 20)
             /\ (0 - 20 <= StarsBg.y s
                 /\ StarsBg.y s <= StarsBg.h (StarsBg.dimsRef rf) + 20))
          (StarsBg.starsRef rf)).
Proof.
  destruct (EffectsLayer.particles_stay_near_the_visible_area
              Sample.random Sample.PI Sample.cos Sample.sin sample_random_range)
    as [B S].
  split.
  - apply (B MetaballsBg.pageProps Sample.blobsEnv O); discriminate.
  - apply (S StarsBg.defaultProps Sample.starsEnv O).
Defined.

(** C2, the claim as written fails: a star 0.1 px short of the wrap line,
    drifting left for 40 ms, lands 0.14 px past it and is put at 1020, the
    re-entry point, where a wrap modulo the period would put it at 1019.86. *)
Lemma star_wrap_is_not_modulo :
  let s := Sample.leavingStar in
  let s' := fst (StarsBg.drawStar Sample.random 1000 800 40 s O) in
  StarsBg.x s' == 1020
  /\ StarsBg.spec_modulo_wrap 1000 (StarsBg.x s + StarsBg.vx s * 40) == 1019.86
  /\ ~ StarsBg.x s' == StarsBg.spec_modulo_wrap 1000 (StarsBg.x s + StarsBg.vx s * 40).
Proof.
  cbv zeta. split; [reflexivity | split; [reflexivity |]].
  intro H. vm_compute in H. discriminate.
Qed.

(** C2 at a star: the star of the counterexample is put at the re-entry
    point, and so is its base coordinate. *)
Lemma drawStar_wrap_snaps_witness :
  let s' := fst (StarsBg.drawStar Sample.random 1000 800 40 Sample.leavingStar O) in
  StarsBg.x s' = 1000 + 20 /\ StarsBg.baseX s' = 1000 + 20.
Proof.
  cbv zeta.
  apply (StarsBgFacts.drawStar_wrap_snaps Sample.random 1000 800 40
           Sample.leavingStar O);
    [discriminate | discriminate | reflexivity].
Defined.



(** A count that is not a whole number: [Array(2.5)] throws in the render,
    and nothing is mounted. *)
Example fractional_count_throws :
  MetaballsBg.start Sample.random Sample.PI Sample.fractionalBlobsProps
    Sample.reducedBlobsEnv 0 = None.
Proof. reflexivity. Qed.

(** C5 at a page: the reduced-motion browser, three frames, the arrival of a
    module and a resize later. *)
Lemma reduced_motion_keeps_static_fallback_witness :
  let wd := DThreeLoader.run DThreeLoader.defaultProps
              (DThreeLoader.mount Sample.reducedLoaderEnv)
              [DThreeLoader.Frame 16; DThreeLoader.ImportsLoaded;
               DThreeLoader.Frame 33; DThreeLoader.WindowResize 300;
               DThreeLoader.Frame 50] in
  DThreeLoader.container wd = [DThreeLoader.FallbackSvg]
  /\ DThreeLoader.log wd = []
  /\ Host.frames (DThreeLoader.host wd) = []
  /\ Host.nextId (DThreeLoader.host wd)
     = Host.nextId (@Host.empty DThreeLoader.Cb DThreeLoader.Hd)
  /\ Host.listeners (DThreeLoader.host wd) = [].
Proof.
  apply (DThreeLoaderFacts.reduced_motion_keeps_static_fallback
           DThreeLoader.defaultProps Sample.reducedLoaderEnv).
  reflexivity.
Defined.

(** Without the preference the same events do start the particle scene: the
    canvas replaces the fallback and a frame callback is pending. *)
Lemma plain_motion_starts_three :
  let wd := DThreeLoader.run DThreeLoader.defaultProps
              (DThreeLoader.mount Sample.plainLoaderEnv)
              [DThreeLoader.Frame 16; DThreeLoader.ImportsLoaded;
               DThreeLoader.Frame 33] in
  DThreeLoader.container wd = [DThreeLoader.RendererCanvas]
  /\ List.length (Host.frames (DThreeLoader.host wd)) = 1%nat
  /\ In (DThreeLoader.SampleShapes 900) (DThreeLoader.log wd).
Proof.
  cbv zeta. split; [reflexivity | split; [reflexivity |]].
  vm_compute. tauto.
Qed.

(** C7 at a page: 50 mutations after the first frame of an overlay mounted
    over three node elements. *)
Lemma mutations_coalesce_into_one_rebuild_witness :
  let wd := ConstellationOverlay.run (ConstellationOverlay.mount [1; 2; 3]%nat)
              [ConstellationOverlay.Frame] in
  let wd' := ConstellationOverlay.run wd (repeat ConstellationOverlay.DomMutation 50) in
  ConstellationOverlay.howMany ConstellationOverlay.is_mutation_rebuild
    (Host.frames (ConstellationOverlay.host wd')) = 1%nat
  /\ ConstellationOverlay.rebuilds wd' = ConstellationOverlay.rebuilds wd
  /\ ConstellationOverlay.rebuilds (ConstellationOverlay.step wd' ConstellationOverlay.Frame)
     = S (ConstellationOverlay.rebuilds wd).
Proof.
  apply (ConstellationOverlayFacts.mutations_coalesce_into_one_rebuild
           [1; 2; 3]%nat [ConstellationOverlay.Frame] 50); [lia | reflexivity].
Defined.

(** C9 at a page: the default props on the desktop page. *)
Lemma seed_1000x800_count_and_box_witness :
  let stars := StarsBg.starsRef
                 (StarsBg.refs (StarsBg.mount Sample.random Sample.PI
                                  StarsBg.defaultProps Sample.starsEnv 0)) in
  (0 < List.length stars)%nat /\ (List.length stars <= 280)%nat
  /\ Forall (StarsBg.inBox 1000 800) stars.
Proof.
  apply (StarsBgFacts.seed_1000x800_count_and_box Sample.random Sample.PI
           StarsBg.defaultProps sample_random_range Sample.starsEnv 0);
    reflexivity.
Defined.

(** C6 at a form: [not-an-email] with the other fields in order. *)
Lemma invalid_email_blocks_submission_witness :
  let st' := Contact.handleSubmit Sample.endpoint Contact.NetworkError
               (Sample.withForm Sample.badEmailForm) in
  Contact.requests st' = []
  /\ Contact.get "email" (Contact.errors st') = Some "Please enter a valid email"
  /\ (exists t, Contact.status st' = Some {| Contact.type := Contact.error; Contact.text := t |})
  /\ Contact.form st' = Sample.badEmailForm.
Proof.
  apply (proj1 (ContactFacts.invalid_email_blocks_submission Sample.endpoint)
           Contact.NetworkError (Sample.withForm Sample.badEmailForm)).
  reflexivity.
Defined.

(** C10 at two forms: the robot's form is stopped, and the request for the
    valid form carries the four fields. *)
Lemma honeypot_blocks_and_is_not_sent_witness :
  (let st' := Contact.handleSubmit Sample.endpoint
                (Contact.Json true 200 None) (Sample.withForm Sample.robotForm) in
   Contact.requests st' = []
   /\ Contact.get "honey" (Contact.errors st') = Some "Spam detected"
   /\ (exists t, Contact.status st'
                 = Some {| Contact.type := Contact.error; Contact.text := t |}))
  /\
  Contact.requests
    (Contact.handleSubmit Sample.endpoint (Contact.Json true 200 None)
       (Sample.withForm Sample.goodForm))
  = [ {| Contact.url := Sample.endpoint; Contact.method := "POST";
         Contact.headers := [("Content-Type", "application/json")];
         Contact.body :=
           Contact.JSON_stringify
             [ ("name", "Ada"); ("email", "ada@example.org");
               ("subject", "Hello"); ("message", "A message that is long enough.") ] |} ].
Proof.
  destruct (ContactFacts.honeypot_blocks_and_is_not_sent Sample.endpoint) as [B S].
  split.
  - apply (B (Contact.Json true 200 None) (Sample.withForm Sample.robotForm)).
    discriminate.
  - apply (S (Contact.Json true 200 None) (Sample.withForm Sample.goodForm)).
    reflexivity.
Defined.


(** At a page: the card moves 100 px down with no scroll and no resize.  The
    stored rect stays where the card was, and the frames clear the stars
    there, until a scroll measures the page again. *)
Example exclude_rects_wait_for_scroll :
  let wd := StarsBg.run Sample.random Sample.PI SampleMore.cardProps
              (StarsBg.mount Sample.random Sample.PI SampleMore.cardProps
                 SampleMore.cardEnv 0)
              [StarsBg.Frame 16;
               StarsBg.LayoutChange SampleMore.canvas1000 (SampleMore.cardAt 200);
               StarsBg.Frame 33] in
  map StarsBg.e_top (StarsBg.excludeRectsRef (StarsBg.refs wd)) = [100]
  /\ map StarsBg.e_top (StarsBgPaint.measured SampleMore.cardProps (StarsBg.env wd))
     = [200]
  /\ map StarsBg.e_top
       (StarsBg.excludeRectsRef
          (StarsBg.refs
             (StarsBg.step Sample.random Sample.PI SampleMore.cardProps wd
                (StarsBg.WindowScroll (SampleMore.cardAt 200)))))
     = [200].
Proof. vm_compute. repeat split. Qed.

(** X3 at a page: a rect of 300 by 200 on the canvas of 1000 by 800. *)
Lemma exclusion_clear_is_drawable_witness :
  let c := StarsBgPaint.clearOf 1000 800
             {| StarsBg.e_left := 100; StarsBg.e_top := 50;
                StarsBg.e_width := 300; StarsBg.e_height := 200 |} in
  exists rad, StarsBgPaint.roundRectClear c = Some rad
              /\ 0 <= rad /\ rad <= 48
              /\ rad * 2 <= StarsBgPaint.k_w c /\ rad * 2 <= StarsBgPaint.k_h c.
Proof.
  cbv zeta.
  apply (StarsBgMore.exclusion_clear_is_drawable 1000 800
           {| StarsBg.e_left := 100; StarsBg.e_top := 50;
              StarsBg.e_width := 300; StarsBg.e_height := 200 |});
    [discriminate | discriminate | reflexivity | reflexivity].
Defined.

(** X5 at a page: two frames and a pointer move after the mount. *)
Lemma stars_keep_identity_without_resize_witness :
  let wd := StarsBg.mount Sample.random Sample.PI StarsBg.defaultProps
              Sample.starsEnv 0 in
  map StarsBgPaint.fixedPart
    (StarsBg.starsRef
       (StarsBg.refs
          (StarsBg.run Sample.random Sample.PI StarsBg.defaultProps wd
             [StarsBg.Frame 16; StarsBg.MouseMove 10 10; StarsBg.Frame 33])))
  = map StarsBgPaint.fixedPart (StarsBg.starsRef (StarsBg.refs wd)).
Proof.
  cbv zeta.
  apply (StarsBgMore.stars_keep_identity_without_resize Sample.random Sample.PI
           StarsBg.defaultProps).
  - split; vm_compute; reflexivity.
  - reflexivity.
Defined.

(** X6 at a page: the frame at 33 ms after the one at 16 ms. *)
Lemma star_moves_at_most_a_quarter_pixel_witness :
  let wd := StarsBg.run Sample.random Sample.PI StarsBg.defaultProps
              (StarsBg.mount Sample.random Sample.PI StarsBg.defaultProps
                 Sample.starsEnv 0)
              [StarsBg.Frame 16] in
  let dt := Js.Math_min 40 (33 - StarsBg.lastTimeRef (StarsBg.refs wd)) in
  Forall2 (fun s s' =>
             StarsBgPaint.movedOrWrapped
               (StarsBg.w (StarsBg.dimsRef (StarsBg.refs wd))) dt
               (StarsBg.x s) (StarsBg.vx s) (StarsBg.x s')
             /\ StarsBgPaint.movedOrWrapped
                  (StarsBg.h (StarsBg.dimsRef (StarsBg.refs wd))) dt
                  (StarsBg.y s) (StarsBg.vy s) (StarsBg.y s'))
          (StarsBg.starsRef (StarsBg.refs wd))
          (StarsBg.starsRef (StarsBg.refs (StarsBg.draw Sample.random 33 wd))).
Proof.
  cbv zeta.
  apply (proj2 (StarsBgMore.star_moves_at_most_a_quarter_pixel
                  Sample.random Sample.PI StarsBg.defaultProps sample_random_range
                  Sample.starsEnv 0 [StarsBg.Frame 16] 33
                  ltac:(vm_compute; reflexivity) ltac:(vm_compute; discriminate))).
Defined.

(** X7 at a page: the tab is hidden for three frames. *)
Lemma stars_frozen_while_hidden_witness :
  let wd := StarsBg.mount Sample.random Sample.PI StarsBg.defaultProps
              Sample.starsEnv 0 in
  let wd' := StarsBg.run Sample.random Sample.PI StarsBg.defaultProps wd
               (StarsBg.VisibilityChange true :: map StarsBg.Frame [16; 33; 50]) in
  StarsBg.starsRef (StarsBg.refs wd') = StarsBg.starsRef (StarsBg.refs wd)
  /\ StarsBg.shotsRef (StarsBg.refs wd') = StarsBg.shotsRef (StarsBg.refs wd)
  /\ StarsBg.rng wd' = StarsBg.rng wd
  /\ StarsBg.live wd'
  /\ StarsBg.lastTimeRef (StarsBg.refs wd')
     = last [16; 33; 50] (StarsBg.lastTimeRef (StarsBg.refs wd)).
Proof.
  cbv zeta.
  apply (StarsBgMore.stars_frozen_while_hidden Sample.random Sample.PI
           StarsBg.defaultProps).
  split; vm_compute; reflexivity.
Defined.

(** X8 at a page: a shot spawned on the mounted starfield. *)
Lemma spawned_shot_is_short_lived_witness :
  let wd := StarsBg.mount Sample.random Sample.PI StarsBg.defaultProps
              Sample.starsEnv 0 in
  let wd' := StarsBg.spawnShot Sample.random Sample.PI Sample.cos Sample.sin wd in
  StarsBg.starsRef (StarsBg.refs wd') = StarsBg.starsRef (StarsBg.refs wd)
  /\ StarsBg.host wd' = StarsBg.host wd
  /\ StarsBg.rng wd' = (StarsBg.rng wd + 6)%nat.
Proof.
  cbv zeta.
  pose proof (StarsBgMore.spawned_shot_is_short_lived Sample.random Sample.PI
                sample_random_range Sample.cos Sample.sin
                (StarsBg.mount Sample.random Sample.PI StarsBg.defaultProps
                   Sample.starsEnv 0)
                ltac:(vm_compute; discriminate)) as H.
  cbv zeta in H. destruct H as (A & B & C & _). auto.
Defined.

(** X10 at a page: the metaballs of app/page.js after a frame, a resize of
    the container and another frame. *)
Lemma blobs_keep_seeded_ranges_witness :
  Forall (MetaballsBgShape.seededRanges MetaballsBg.pageProps
            (MetaballsBg.speedToUse
               (MetaballsBg.quality MetaballsBg.pageProps Sample.blobsEnv)))
         (MetaballsBg.blobsRef
            (MetaballsBg.refs
               (MetaballsBg.run Sample.random Sample.PI Sample.cos Sample.sin
                  MetaballsBg.pageProps
                  (MetaballsBg.mount Sample.random Sample.PI MetaballsBg.pageProps
                     Sample.blobsEnv 0)
                  [MetaballsBg.Frame 16; MetaballsBg.BoxResize 800 600;
                   MetaballsBg.Observed; MetaballsBg.Frame 33]))).
Proof.
  apply (MetaballsBgMore.blobs_keep_seeded_ranges Sample.random Sample.PI
           Sample.cos Sample.sin MetaballsBg.pageProps sample_random_range
           Sample.blobsEnv 0);
    discriminate.
Defined.

(** X11 at a page: the tab of app/page.js shows again, and the frame at
    5000 ms moves the blobs by the step of 1 ms. *)
Lemma blobs_resume_with_unit_step_witness :
  let wd := MetaballsBg.mount Sample.random Sample.PI MetaballsBg.pageProps
              Sample.blobsEnv 0 in
  let wd' := MetaballsBg.run Sample.random Sample.PI Sample.cos Sample.sin
               MetaballsBg.pageProps wd
               [MetaballsBg.VisibilityChange false; MetaballsBg.Frame 5000] in
  MetaballsBg.blobsRef (MetaballsBg.refs wd')
  = map (MetaballsBg.moveBlob Sample.cos Sample.sin
           (MetaballsBg.w (MetaballsBg.sizeRef (MetaballsBg.refs wd)))
           (MetaballsBg.h (MetaballsBg.sizeRef (MetaballsBg.refs wd))) 1)
        (MetaballsBg.blobsRef (MetaballsBg.refs wd))
  /\ MetaballsBg.lastTimeRef (MetaballsBg.refs wd') = Some 5000
  /\ MetaballsBg.live wd'.
Proof.
  cbv zeta.
  apply (MetaballsBgMore.blobs_resume_with_unit_step Sample.random Sample.PI
           Sample.cos Sample.sin MetaballsBg.pageProps).
  split; [vm_compute; reflexivity|].
  split; [vm_compute; discriminate|].
  split; [vm_compute; discriminate|].
  exists MetaballsBg.RealObserver. split; vm_compute; reflexivity.
Defined.

(** X12 at a page: the tab of app/page.js is hidden for three frames. *)
Lemma blobs_frozen_while_hidden_witness :
  let wd := MetaballsBg.mount Sample.random Sample.PI MetaballsBg.pageProps
              Sample.blobsEnv 0 in
  let wd' := MetaballsBg.run Sample.random Sample.PI Sample.cos Sample.sin
               MetaballsBg.pageProps wd
               (MetaballsBg.VisibilityChange true
                :: map MetaballsBg.Frame [16; 33; 50]) in
  MetaballsBg.blobsRef (MetaballsBg.refs wd') = MetaballsBg.blobsRef (MetaballsBg.refs wd)
  /\ MetaballsBg.sizeRef (MetaballsBg.refs wd') = MetaballsBg.sizeRef (MetaballsBg.refs wd)
  /\ MetaballsBg.rng wd' = MetaballsBg.rng wd
  /\ MetaballsBg.live wd'
  /\ MetaballsBg.lastTimeRef (MetaballsBg.refs wd')
     = last (map Some [16; 33; 50]) (MetaballsBg.lastTimeRef (MetaballsBg.refs wd)).
Proof.
  cbv zeta.
  apply (MetaballsBgMore.blobs_frozen_while_hidden Sample.random Sample.PI
           Sample.cos Sample.sin MetaballsBg.pageProps).
  split; [vm_compute; reflexivity|].
  split; [vm_compute; discriminate|].
  split; [vm_compute; discriminate|].
  exists MetaballsBg.RealObserver. split; vm_compute; reflexivity.
Defined.

(** At a page: the container of app/page.js shrinks to 800 by 600.  The
    frame that follows still works with the 1200 by 3000 of the mount; the
    delivery of the observation stores the new box. *)
Example blobs_size_waits_for_delivery :
  let wd := MetaballsBg.run Sample.random Sample.PI Sample.cos Sample.sin
              MetaballsBg.pageProps
              (MetaballsBg.mount Sample.random Sample.PI MetaballsBg.pageProps
                 Sample.blobsEnv 0)
              [MetaballsBg.Frame 16; MetaballsBg.BoxResize 800 600;
               MetaballsBg.Frame 33] in
  MetaballsBg.sizeRef (MetaballsBg.refs wd)
  = {| MetaballsBg.w := 1200; MetaballsBg.h := 3000 |}
  /\ MetaballsBg.readBox (MetaballsBg.env wd)
     = {| MetaballsBg.w := 800; MetaballsBg.h := 600 |}
  /\ MetaballsBg.sizeRef
       (MetaballsBg.refs
          (MetaballsBg.step Sample.random Sample.PI Sample.cos Sample.sin
             MetaballsBg.pageProps wd MetaballsBg.Observed))
     = {| MetaballsBg.w := 800; MetaballsBg.h := 600 |}.
Proof. vm_compute. repeat split. Qed.

(** X14 at a page: a frame whose time stamp is that of the frame before. *)
Lemma blobs_phase_always_advances_witness :
  let wd := MetaballsBg.run Sample.random Sample.PI Sample.cos Sample.sin
              MetaballsBg.pageProps
              (MetaballsBg.mount Sample.random Sample.PI MetaballsBg.pageProps
                 Sample.blobsEnv 0)
              [MetaballsBg.Frame 16] in
  Forall2 (fun b b' =>
             MetaballsBg.phase b + 0.0025 / 16.6667 <= MetaballsBg.phase b'
             /\ MetaballsBgShape.shape b' = MetaballsBgShape.shape b)
          (MetaballsBg.blobsRef (MetaballsBg.refs wd))
          (MetaballsBg.blobsRef
             (MetaballsBg.refs (MetaballsBg.animate Sample.cos Sample.sin 16 wd))).
Proof.
  cbv zeta.
  apply (MetaballsBgMore.blobs_phase_always_advances Sample.random Sample.PI
           Sample.cos Sample.sin MetaballsBg.pageProps sample_random_range
           Sample.blobsEnv 0 [MetaballsBg.Frame 16] 16).
  vm_compute. reflexivity.
Defined.

(** X16 at a shape: the point (1, 1) in the rectangle from (0, 0) to (4, 3). *)
Lemma pointInShape_rectangle_witness :
  DThreeLoaderMath.pointInShape 1 1
    [ {| DThreeLoaderMath.p_x := 0; DThreeLoaderMath.p_y := 0 |};
      {| DThreeLoaderMath.p_x := 4; DThreeLoaderMath.p_y := 0 |};
      {| DThreeLoaderMath.p_x := 4; DThreeLoaderMath.p_y := 3 |};
      {| DThreeLoaderMath.p_x := 0; DThreeLoaderMath.p_y := 3 |} ]
  = true.
Proof.
  apply (DThreeLoaderMore.pointInShape_rectangle 0 4 0 3 1 1);
    [reflexivity | reflexivity | intro H; vm_compute in H; discriminate H].
Defined.

(** X17 at a particle: half-way through assemble, particle 3 at 100 steered
    to 20. *)
Lemma particle_closes_in_without_overshoot_witness :
  let p' := DThreeLoaderMath.moveParticle DThreeLoader.defaultProps
              DThreeLoader.assemble 450 3 100 20 in
  Qabs (p' - 20) <= 0.96 * Qabs (100 - 20).
Proof.
  cbv zeta.
  apply (DThreeLoaderMore.particle_closes_in_without_overshoot
           DThreeLoader.defaultProps DThreeLoader.assemble 450 3 100 20);
    discriminate.
Defined.

(** X19 at a page: frames and a resize after the modules have arrived; then
    a render that throws, or the unmount; and the same page in a browser
    without WebGL. *)
Lemma looping_loader_keeps_one_frame_requested_witness :
  let evs := [DThreeLoader.Frame 16; DThreeLoader.WindowResize 300;
              DThreeLoader.Frame 33] in
  let wd := DThreeLoader.run DThreeLoader.defaultProps
              (DThreeLoader.mount SampleMore.loaderEnv)
              (DThreeLoader.ImportsLoaded :: evs) in
  (DThreeLoaderMath.started wd
   /\ DThreeLoaderMath.halted
        (DThreeLoader.run DThreeLoader.defaultProps wd
           [DThreeLoader.RendererFault true; DThreeLoader.Frame 50;
            DThreeLoader.Frame 66])
   /\ DThreeLoaderMath.cleared
        (DThreeLoader.run DThreeLoader.defaultProps wd
           [DThreeLoader.Unmount; DThreeLoader.Frame 50]))
  /\ DThreeLoaderMath.fallback
       (DThreeLoader.run DThreeLoader.defaultProps
          (DThreeLoader.mount SampleMore.noWebglLoaderEnv)
          (DThreeLoader.ImportsLoaded :: evs)).
Proof.
  cbv zeta. split.
  - destruct (DThreeLoaderMore.looping_loader_keeps_one_frame_requested
                DThreeLoader.defaultProps SampleMore.loaderEnv
                [DThreeLoader.Frame 16; DThreeLoader.WindowResize 300;
                 DThreeLoader.Frame 33] eq_refl eq_refl eq_refl) as [_ W].
    destruct (W eq_refl eq_refl eq_refl) as (S & H & C).
    split; [exact S|]. split; [apply H | apply C].
  - apply (DThreeLoaderMore.looping_loader_keeps_one_frame_requested
             DThreeLoader.defaultProps SampleMore.noWebglLoaderEnv
             [DThreeLoader.Frame 16; DThreeLoader.WindowResize 300;
              DThreeLoader.Frame 33] eq_refl eq_refl eq_refl).
    reflexivity.
Defined.

(** X20 at a page: the frame at 2900 ms ends disperse, 800 ms after its
    start; two frames and a resize follow. *)
Lemma loader_without_loop_stops_witness :
  let wd' := DThreeLoader.step SampleMore.onceProps SampleMore.dispersing
               (DThreeLoader.Frame 2900) in
  let later := DThreeLoader.run SampleMore.onceProps wd'
                 [DThreeLoader.Frame 2916; DThreeLoader.WindowResize 300;
                  DThreeLoader.Frame 2933] in
  DThreeLoaderMath.stopped wd'
  /\ DThreeLoader.log wd'
     = (DThreeLoader.log SampleMore.dispersing ++ [DThreeLoader.RenderScene])%list
  /\ DThreeLoaderMath.stopped later
  /\ DThreeLoader.stage later = DThreeLoader.disperse
  /\ DThreeLoader.log later = DThreeLoader.log wd'.
Proof.
  cbv zeta.
  apply (DThreeLoaderMore.loader_without_loop_stops SampleMore.onceProps
           SampleMore.dispersing 2900).
  - reflexivity.
  - repeat (split; [vm_compute; reflexivity|]).
    exists 4%nat. split; vm_compute; reflexivity.
  - vm_compute. reflexivity.
  - vm_compute. discriminate.
Defined.

(** At a page: five nodes at the mount, a sixth put into the page later.
    After the next frame [nodesRef] names all six, and the listeners are
    still on the five. *)
Example overlay_new_node_gets_no_listeners :
  let wd := ConstellationOverlay.run (ConstellationOverlay.mount [1; 2; 3; 4; 5]%nat)
              [ConstellationOverlay.Frame;
               ConstellationOverlay.NodesChange [1; 2; 3; 4; 5; 6]%nat true;
               ConstellationOverlay.Frame] in
  map ConstellationOverlay.el (ConstellationOverlay.nodesRef wd)
  = [1; 2; 3; 4; 5; 6]%nat
  /\ ConstellationOverlay.nodeListeners wd = [1; 2; 3; 4; 5]%nat.
Proof. vm_compute. split; reflexivity. Qed.

(** X24 at a page: two scrolls and a resize after the first frame. *)
Lemma scrolls_and_resizes_coalesce_into_one_recalc_witness :
  let wd := ConstellationOverlay.run (ConstellationOverlay.mount [1; 2; 3]%nat)
              [ConstellationOverlay.Frame] in
  let wd' := ConstellationOverlay.run wd
               [ConstellationOverlay.WindowScroll; ConstellationOverlay.WindowScroll;
                ConstellationOverlay.WindowResize] in
  ConstellationOverlay.howMany ConstellationOverlay.is_recalc
    (Host.frames (ConstellationOverlay.host wd')) = 1%nat
  /\ ConstellationOverlay.pending wd' = true
  /\ ConstellationOverlay.rebuilds wd' = ConstellationOverlay.rebuilds wd
  /\ ConstellationOverlay.rebuildScheduled wd' = ConstellationOverlay.rebuildScheduled wd.
Proof.
  cbv zeta.
  apply (ConstellationOverlayMore.scrolls_and_resizes_coalesce_into_one_recalc
           [1; 2; 3]%nat [ConstellationOverlay.Frame]);
    [discriminate | reflexivity].
Defined.

(** X25 at a page: the pointer enters node 1 and leaves it. *)
Lemma hover_round_trip_restores_links_witness :
  fst (ConstellationLinks.highlightNode SampleMore.linkProps 1 false
         (ConstellationLinks.highlightNode SampleMore.linkProps 1 true
            (SampleMore.links, fun _ => false)))
  = SampleMore.links.
Proof.
  apply (proj1 (ConstellationLinksFacts.hover_round_trip_restores_links
                  SampleMore.linkProps 1 SampleMore.links (fun _ => false)
                  ltac:(repeat (apply Forall_cons;
                                  [first [ left; eexists; eexists; reflexivity
                                         | right; eexists; eexists; reflexivity ]|]);
                        apply Forall_nil))).
  reflexivity.
Defined.

(** X28 at a form: [not-an-email] with the other fields in order. *)
Lemma blocked_submission_names_first_failure_witness :
  let st' := Contact.handleSubmit Sample.endpoint Contact.NetworkError
               (Sample.withForm Sample.badEmailForm) in
  Contact.status st'
  = Some {| Contact.type := Contact.error;
            Contact.text := ContactShape.firstFailure Sample.badEmailForm |}
  /\ Contact.form st' = Sample.badEmailForm
  /\ Contact.confetti st' = O
  /\ Contact.requests st' = []
  /\ Contact.sending st' = false.
Proof.
  cbv zeta.
  apply (ContactMore.blocked_submission_names_first_failure Sample.endpoint
           Contact.NetworkError (Sample.withForm Sample.badEmailForm)).
  vm_compute. reflexivity.
Defined.

(** X29 at a form: the valid form, accepted by the server. *)
Lemma outcome_of_a_valid_submission_witness :
  let st' := Contact.handleSubmit Sample.endpoint (Contact.Json true 200 None)
               (Sample.withForm Sample.goodForm) in
  Contact.sending st' = false
  /\ (exists t, Contact.status st'
                = Some {| Contact.type := Contact.success; Contact.text := t |})
  /\ Contact.form st' = Contact.emptyForm /\ Contact.confetti st' = 18%nat.
Proof.
  cbv zeta.
  apply (ContactMore.outcome_of_a_valid_submission Sample.endpoint
           (Contact.Json true 200 None) (Sample.withForm Sample.goodForm)).
  vm_compute. reflexivity.
Defined.
End Instances.
